(** * akamai-sdk-go: a shallow embedding of the generation orchestrator

    The development follows the Go sources: script_path.go,
    pixel_challenge.go, generate.go and the unnamed parts holding
    IsCookieValid, GetSdkVersion, IsScriptStatic and internal.FromHexString.

    Go strings and byte slices are [string] (a sequence of 8-bit [ascii]
    bytes), Go's [int] is a 64-bit integer kept in [Z], a [rune] is a code
    point in [Z].  The parts of the Go standard library the package calls
    (strings, strconv, unicode/utf8, errors, fmt, regexp) are modelled in
    the modules that carry their names. *)

From Stdlib Require Import ZArith List String Ascii Bool Lia.
From Stdlib Require Import Numbers.DecimalString.
Import ListNotations.

Set Warnings "-register-all".

Open Scope string_scope.
Open Scope Z_scope.

(** ** Bytes *)

Definition byte_code (a : ascii) : Z := Z.of_N (N_of_ascii a).

(** [byte(x)]: conversion to a byte keeps the low eight bits. *)
Definition byte_of (x : Z) : ascii := ascii_of_N (Z.to_N (x mod 256)).

Definition between (lo hi x : Z) : bool := (lo <=? x) && (x <=? hi).

(** ** Errors

    One inductive type for the [error] values the package builds or
    receives.  [errorString] is the result of errors.New and fmt.Errorf,
    [joinError] the result of errors.Join. *)

Definition HttpReqOp := Z.

Definition OpGetPage : HttpReqOp := 0.
Definition OpGetSdkScript : HttpReqOp := 1.
Definition OpPostSensorData : HttpReqOp := 2.
Definition OpGetPixelChallengeScript : HttpReqOp := 3.
Definition OpPostPixelPayload : HttpReqOp := 4.

Inductive error : Type :=
| errorString (msg : string)
| NumError (Func Num : string) (Err : error)
| HttpOpError (Op : HttpReqOp)
| BadStatusCodeError (StatusCode : Z)
| ApiOperationError (StatusCode : Z) (Message : string)
| joinError (errs : list error).

Module errors.

Definition New (msg : string) : error := errorString msg.

(** errors.Join drops the nil values and returns nil when none is left. *)
Fixpoint nonNil (errs : list (option error)) : list error :=
  match errs with
  | [] => []
  | None :: rest => nonNil rest
  | Some e :: rest => e :: nonNil rest
  end.

Definition Join (errs : list (option error)) : option error :=
  match nonNil errs with
  | [] => None
  | es => Some (joinError es)
  end.

End errors.

(** ** package strings *)

Module strings.

(** strings.Split(s, sep) for a separator of one byte, the only use the
    package makes of it: the fields between the occurrences of [sep],
    one more than there are occurrences. *)
Fixpoint Split (s : string) (sep : ascii) : list string :=
  match s with
  | EmptyString => [EmptyString]
  | String c rest =>
      if Ascii.eqb c sep then EmptyString :: Split rest sep
      else match Split rest sep with
           | [] => [String c EmptyString]
           | f :: fs => String c f :: fs
           end
  end.

(** strings.Join(elems, sep) *)
Fixpoint Join (elems : list string) (sep : string) : string :=
  match elems with
  | [] => EmptyString
  | [e] => e
  | e :: rest => e ++ sep ++ Join rest sep
  end.

(** strings.Replace(s, old, empty, 1) for [old] of one byte: the first
    occurrence of the byte is removed. *)
Fixpoint RemoveFirst (s : string) (old : ascii) : string :=
  match s with
  | EmptyString => EmptyString
  | String c rest =>
      if Ascii.eqb c old then rest else String c (RemoveFirst rest old)
  end.

End strings.

(** ** package strconv *)

Module strconv.

Definition intSize : Z := 64.

Definition ErrSyntax : error := errors.New "invalid syntax".
Definition ErrRange : error := errors.New "value out of range".

(** lower(c) = c | ('x' - 'X') *)
Definition lower (c : Z) : Z := Z.lor c 32.

(** The value of one digit in ParseUint's loop, before the comparison
    with the base; None is the loop's default case. *)
Definition digitVal (c : ascii) : option Z :=
  let b := byte_code c in
  if between 48 57 b then Some (b - 48)
  else if between 97 122 (lower b) then Some (lower b - 97 + 10)
  else None.

(** The loop of ParseUint over the bytes of [s], with [n] the value
    accumulated so far in a uint64. *)
Fixpoint parseDigits (base cutoff maxVal n : Z) (s : string) : Z * option error :=
  match s with
  | EmptyString => (n, None)
  | String c rest =>
      match digitVal c with
      | None => (0, Some ErrSyntax)
      | Some d =>
          if base <=? d then (0, Some ErrSyntax)
          else if cutoff <=? n then (maxVal, Some ErrRange)
          else
            let n' := n * base in
            let n1 := (n' + d) mod 2 ^ 64 in
            if (n1 <? n') || (maxVal <? n1) then (maxVal, Some ErrRange)
            else parseDigits base cutoff maxVal n1 rest
      end
  end.

(** ParseUint(s, base, bitSize) for an explicit base from 2 to 36 (no
    prefix and no underscore is accepted then).  The error is the Err
    field of the NumError. *)
Definition ParseUint (s : string) (base bitSize : Z) : Z * option error :=
  match s with
  | EmptyString => (0, Some ErrSyntax)
  | _ =>
      let bitSize := if bitSize =? 0 then intSize else bitSize in
      let maxUint64 := 2 ^ 64 - 1 in
      let cutoff := maxUint64 / base + 1 in
      let maxVal := 2 ^ bitSize - 1 in
      parseDigits base cutoff maxVal 0 s
  end.

Definition numError (fn s : string) (e : error) : error := NumError fn s e.

(** ParseInt(s, base, bitSize) *)
Definition ParseIntAs (fn : string) (s : string) (base bitSize : Z) : Z * option error :=
  match s with
  | EmptyString => (0, Some (numError fn s ErrSyntax))
  | String c rest =>
      let neg := Ascii.eqb c "-" in
      let digits := if Ascii.eqb c "+" || neg then rest else s in
      let (un, err) := ParseUint digits base bitSize in
      let bitSize := if bitSize =? 0 then intSize else bitSize in
      let cutoff := 2 ^ (bitSize - 1) in
      match err with
      | Some (errorString "invalid syntax") => (0, Some (numError fn s ErrSyntax))
      | _ =>
          if negb neg && (cutoff <=? un) then (cutoff - 1, Some (numError fn s ErrRange))
          else if neg && (cutoff <? un) then (- cutoff, Some (numError fn s ErrRange))
          else (if neg then - un else un, None)
      end
  end.

Definition ParseInt := ParseIntAs "ParseInt".

(** Atoi(s) is ParseInt(s, 10, 0) with the function name of the error
    replaced; its fast path for short inputs computes the same result. *)
Definition Atoi (s : string) : Z * option error := ParseIntAs "Atoi" s 10 0.

(** Itoa, and the %d verb of fmt. *)
Definition Itoa (i : Z) : string := NilZero.string_of_int (Z.to_int i).

End strconv.

(** ** stop_signal: IsCookieValid *)

Definition IsCookieValid (value : string) (requestCount : Z) : bool :=
  let parts := strings.Split value "~" in
  if (Z.of_nat (List.length parts) <? 2) then false
  else
    let (requestThreshold, err) := strconv.Atoi (nth 1 parts EmptyString) in
    let requestThreshold :=
      match err with Some _ => -1 | None => requestThreshold end in
    negb (requestThreshold =? -1) && (requestThreshold <=? requestCount).

(** ** package unicode/utf8 *)

Module utf8.

Definition RuneError : Z := 0xFFFD.
Definition MaxRune : Z := 0x10FFFF.
Definition RuneSelf : Z := 0x80.

(** The table [first] with its accept ranges: for a leading byte, the
    length of the sequence and the range allowed for the second byte. *)
Definition first (b0 : Z) : option (nat * Z * Z) :=
  if between 0xC2 0xDF b0 then Some (2%nat, 0x80, 0xBF)
  else if b0 =? 0xE0 then Some (3%nat, 0xA0, 0xBF)
  else if between 0xE1 0xEC b0 then Some (3%nat, 0x80, 0xBF)
  else if b0 =? 0xED then Some (3%nat, 0x80, 0x9F)
  else if between 0xEE 0xEF b0 then Some (3%nat, 0x80, 0xBF)
  else if b0 =? 0xF0 then Some (4%nat, 0x90, 0xBF)
  else if between 0xF1 0xF3 b0 then Some (4%nat, 0x80, 0xBF)
  else if b0 =? 0xF4 then Some (4%nat, 0x80, 0x8F)
  else None.

Definition cont (b : Z) : Z := Z.land b 0x3F.

(** DecodeRune(p): the first rune of [p] and its width in bytes; an
    invalid or truncated sequence is (RuneError, 1), the empty input
    (RuneError, 0). *)
Definition DecodeRune (p : string) : Z * nat :=
  match p with
  | EmptyString => (RuneError, 0%nat)
  | String c0 t0 =>
      let b0 := byte_code c0 in
      if b0 <? RuneSelf then (b0, 1%nat)
      else
        match first b0 with
        | None => (RuneError, 1%nat)
        | Some (sz, lo, hi) =>
            match t0 with
            | EmptyString => (RuneError, 1%nat)
            | String c1 t1 =>
                let b1 := byte_code c1 in
                if negb (between lo hi b1) then (RuneError, 1%nat)
                else if (sz <=? 2)%nat then
                  (Z.lor (Z.shiftl (Z.land b0 0x1F) 6) (cont b1), 2%nat)
                else
                  match t1 with
                  | EmptyString => (RuneError, 1%nat)
                  | String c2 t2 =>
                      let b2 := byte_code c2 in
                      if negb (between 0x80 0xBF b2) then (RuneError, 1%nat)
                      else if (sz <=? 3)%nat then
                        (Z.lor (Z.lor (Z.shiftl (Z.land b0 0x0F) 12)
                                      (Z.shiftl (cont b1) 6)) (cont b2), 3%nat)
                      else
                        match t2 with
                        | EmptyString => (RuneError, 1%nat)
                        | String c3 _ =>
                            let b3 := byte_code c3 in
                            if negb (between 0x80 0xBF b3) then (RuneError, 1%nat)
                            else
                              (Z.lor (Z.lor (Z.lor (Z.shiftl (Z.land b0 0x07) 18)
                                                   (Z.shiftl (cont b1) 12))
                                            (Z.shiftl (cont b2) 6)) (cont b3), 4%nat)
                        end
                  end
            end
        end
  end.

(** rune(i) for an int64 [i]: the conversion to int32 wraps around. *)
Definition rune_of_int64 (i : Z) : Z := (i + 2 ^ 31) mod 2 ^ 32 - 2 ^ 31.

Definition tx (x : Z) : ascii := byte_of (Z.lor 0x80 (Z.land x 0x3F)).

(** AppendRune(nil, r): the UTF-8 encoding of the rune, the encoding of
    RuneError for a surrogate or a value out of range. *)
Definition EncodeRune (r : Z) : string :=
  let i := r mod 2 ^ 32 in
  if i <=? 0x7F then String (byte_of r) EmptyString
  else if i <=? 0x7FF then
    String (byte_of (Z.lor 0xC0 (Z.shiftr r 6))) (String (tx r) EmptyString)
  else
    let r := if (MaxRune <? i) || between 0xD800 0xDFFF i then RuneError else r in
    let i := r mod 2 ^ 32 in
    if i <=? 0xFFFF then
      String (byte_of (Z.lor 0xE0 (Z.shiftr r 12)))
        (String (tx (Z.shiftr r 6)) (String (tx r) EmptyString))
    else
      String (byte_of (Z.lor 0xF0 (Z.shiftr r 18)))
        (String (tx (Z.shiftr r 12))
           (String (tx (Z.shiftr r 6)) (String (tx r) EmptyString))).

(** string(rs) for a slice of runes. *)
Fixpoint EncodeRunes (rs : list Z) : string :=
  match rs with
  | [] => EmptyString
  | r :: rest => EncodeRune r ++ EncodeRunes rest
  end.

End utf8.

(** ** package regexp

    The patterns of the package use literals, classes, [^] at the start
    of the text, capture groups, and the repetitions [*], [+], [?] and
    [+?] applied to a single literal or class.  The matcher below is a
    backtracking matcher for that fragment: it lists the ways a pattern
    matches at a position in the order of preference of Go's
    leftmost-first semantics, so that the first way at the leftmost
    position is the match Go reports.

    As Go's matcher does, it reads the input rune by rune: the input is
    first cut into [cell]s, one per decoded rune, each holding the rune and
    the bytes it was decoded from (an invalid byte is a cell of its own,
    holding RuneError). *)

Module regexp.

Record cell : Type := mkCell { cell_rune : Z; cell_raw : string }.

(** The cells of [s]; [skip] counts the bytes of [s] that still belong
    to the cell before. *)
Fixpoint cells_from (skip : nat) (s : string) : list cell :=
  match s with
  | EmptyString => []
  | String _ rest =>
      match skip with
      | S k => cells_from k rest
      | O =>
          let (r, w) := utf8.DecodeRune s in
          mkCell r (substring 0 w s) :: cells_from (Nat.pred w) rest
      end
  end.

Definition cells (s : string) : list cell := cells_from 0 s.

Fixpoint raw (cs : list cell) : string :=
  match cs with
  | [] => EmptyString
  | c :: rest => cell_raw c ++ raw rest
  end.

Definition class := Z -> bool.

Inductive syntax : Type :=
| OpEmptyMatch
| OpBeginText
| OpCharClass (p : class)
| OpConcat (a b : syntax)
| OpCapture (i : nat) (a : syntax)
| OpStar (greedy : bool) (p : class)
| OpPlus (greedy : bool) (p : class)
| OpQuest (greedy : bool) (p : class).

(** *** Classes *)

Definition code (c : ascii) : Z := byte_code c.

Definition lit (c : ascii) : class := fun r => r =? code c.

(** A literal under (?i): the runes of the letter's orbit under
    unicode.SimpleFold, which for k and s holds the Kelvin sign U+212A
    and the long s U+017F besides the two ASCII cases. *)
Definition litFold (c : ascii) : class := fun r =>
  let b := code c in
  if between 65 90 b || between 97 122 b then
    (r =? Z.lor b 32) || (r =? Z.land b 223)
    || ((Z.lor b 32 =? 107) && (r =? 0x212A))
    || ((Z.lor b 32 =? 115) && (r =? 0x17F))
  else r =? b.

(** . without the s flag *)
Definition anyCharNotNL : class := fun r => negb (r =? 10).

(** \d *)
Definition digit : class := fun r => between 48 57 r.

(** \w *)
Definition word : class := fun r =>
  between 48 57 r || between 65 90 r || (r =? 95) || between 97 122 r.

(** \w under (?i) *)
Definition wordFold : class := fun r => word r || (r =? 0x17F) || (r =? 0x212A).

(** *** Building patterns *)

Fixpoint literal (mk : ascii -> class) (s : string) : syntax :=
  match s with
  | EmptyString => OpEmptyMatch
  | String c rest => OpConcat (OpCharClass (mk c)) (literal mk rest)
  end.

Fixpoint concat (rs : list syntax) : syntax :=
  match rs with
  | [] => OpEmptyMatch
  | r :: rest => OpConcat r (concat rest)
  end.

Fixpoint NumSubexp (r : syntax) : nat :=
  match r with
  | OpConcat a b => Nat.max (NumSubexp a) (NumSubexp b)
  | OpCapture i a => Nat.max i (NumSubexp a)
  | _ => 0%nat
  end.

(** A pattern without groups. *)
Fixpoint captureFree (r : syntax) : bool :=
  match r with
  | OpConcat a b => captureFree a && captureFree b
  | OpCapture _ _ => false
  | _ => true
  end.

(** What holds of every cell of a text: its bytes are not empty, and a
    rune below RuneSelf is its own single byte. *)
Definition cell_ok (c : cell) : Prop :=
  cell_raw c <> EmptyString /\
  (cell_rune c < utf8.RuneSelf ->
   cell_raw c = String (byte_of (cell_rune c)) EmptyString).

(** *** Matching *)

Definition caps := nat -> option string.

Definition noCaps : caps := fun _ => None.

Definition setCap (cs : caps) (i : nat) (v : string) : caps :=
  fun j => if Nat.eqb j i then Some v else cs j.

(** The ways the repetition p* matches at the head of [inp], as
    (matched, rest), longest first when greedy. *)
Fixpoint star (greedy : bool) (p : class) (inp : list cell)
  : list (list cell * list cell) :=
  match inp with
  | [] => [([], [])]
  | c :: t =>
      if p (cell_rune c) then
        let more := map (fun mr => (c :: fst mr, snd mr)) (star greedy p t) in
        if greedy then (more ++ [([], inp)])%list else ([], inp) :: more
      else [([], inp)]
  end.

Definition thread : Type := list cell * list cell * caps.

Definition is_nil {A} (l : list A) : bool :=
  match l with [] => true | _ => false end.

(** The ways [r] matches at the head of [inp], in order of preference;
    [bot] tells whether [inp] is the whole text. *)
Fixpoint run (r : syntax) (bot : bool) (inp : list cell) (cs : caps)
  : list thread :=
  match r with
  | OpEmptyMatch => [([], inp, cs)]
  | OpBeginText => if bot then [([], inp, cs)] else []
  | OpCharClass p =>
      match inp with
      | c :: t => if p (cell_rune c) then [([c], t, cs)] else []
      | [] => []
      end
  | OpConcat a b =>
      flat_map
        (fun th1 : thread =>
           let '(m1, r1, c1) := th1 in
           map (fun th2 : thread =>
                  let '(m2, r2, c2) := th2 in ((m1 ++ m2)%list, r2, c2))
               (run b (bot && is_nil m1) r1 c1))
        (run a bot inp cs)
  | OpCapture i a =>
      map (fun th : thread =>
             let '(m, rest, c) := th in (m, rest, setCap c i (raw m)))
          (run a bot inp cs)
  | OpStar g p => map (fun mr => (fst mr, snd mr, cs)) (star g p inp)
  | OpPlus g p =>
      match inp with
      | c :: t =>
          if p (cell_rune c) then
            map (fun mr => (c :: fst mr, snd mr, cs)) (star g p t)
          else []
      | [] => []
      end
  | OpQuest g p =>
      match inp with
      | c :: t =>
          if p (cell_rune c) then
            if g then [([c], t, cs); ([], inp, cs)]
            else [([], inp, cs); ([c], t, cs)]
          else [([], inp, cs)]
      | [] => [([], [], cs)]
      end
  end.

(** The leftmost match: the first way at the first position that has
    one.  The result also tells whether the match starts at the position
    the search started from. *)
Fixpoint search (r : syntax) (bot : bool) (inp : list cell)
  : option (bool * thread) :=
  match run r bot inp noCaps with
  | th :: _ => Some (true, th)
  | [] =>
      match inp with
      | [] => None
      | _ :: t =>
          match search r false t with
          | Some (_, th) => Some (false, th)
          | None => None
          end
      end
  end.

(** The slices of a match: the whole match, then the groups 1 to
    NumSubexp; a group that took no part is the empty string. *)
Definition submatches (r : syntax) (th : thread) : list string :=
  let '(m, _, cs) := th in
  raw m :: map (fun i => match cs i with Some v => v | None => EmptyString end)
               (seq 1 (NumSubexp r)).

Definition Match (r : syntax) (b : string) : bool :=
  match search r true (cells b) with
  | Some _ => true
  | None => false
  end.

(** FindSubmatch: nil (the empty list) when there is no match. *)
Definition FindSubmatch (r : syntax) (b : string) : list (string) :=
  match search r true (cells b) with
  | Some (_, th) => submatches r th
  | None => []
  end.

(** The loop of allMatches: [prevEnd] tells whether the position is the
    end of the match before.  An empty match at the position is dropped
    when it touches the match before, and the search moves on by one
    rune; after any other match it goes on from the end of the match. *)
Fixpoint allMatches (fuel : nat) (r : syntax) (bot prevEnd : bool)
  (inp : list cell) : list (list string) :=
  match fuel with
  | O => []
  | S fuel' =>
      match search r bot inp with
      | None => []
      | Some (here, (m, rest, cs)) =>
          if here && is_nil m then
            let found := if prevEnd then [] else [submatches r (m, rest, cs)] in
            match inp with
            | [] => found
            | _ :: t => (found ++ allMatches fuel' r false false t)%list
            end
          else
            submatches r (m, rest, cs) :: allMatches fuel' r false true rest
      end
  end.

(** FindAllSubmatch(b, -1) *)
Definition FindAllSubmatch (r : syntax) (b : string) : list (list string) :=
  let inp := cells b in
  allMatches (S (List.length inp)) r true false inp.

End regexp.

(** ** package akamai: detection and extraction *)

(** The double quote, as a byte and as a string of one byte, and the
    backslash. *)
Definition dquote : ascii := "034"%char.
Definition backslash : ascii := "092"%char.
Definition q : string := String dquote EmptyString.

Import regexp.

(** *** version.go *)

Definition Version := string.

Definition Version17 : Version := "1.7".
Definition Version175 : Version := "1.75".
Definition Version2 : Version := "2".

(** [^var _acxj] *)
Definition version175expr : syntax :=
  concat [OpBeginText; literal lit "var _acxj"].

(** [^\(function] *)
Definition version2expr : syntax :=
  concat [OpBeginText; literal lit "(function"].

Definition GetSdkVersion (src : string) : Version :=
  if Match version175expr src then Version175
  else if Match version2expr src then Version2
  else Version17.

(** *** script.go *)

(** [^\(function \w+?] *)
Definition staticScriptExpr : syntax :=
  concat [OpBeginText; literal lit "(function "; OpPlus false word].

Definition IsScriptStatic (src : string) : bool := Match staticScriptExpr src.

(** *** script_path.go, in its two versions *)

(** The pattern is [<script type="text/javascript"], then the group
    [(?i:.* )] (written here with a space before its closing parenthesis),
    then [ src="((?i)[/\w\-]+)">]. *)
Definition scriptPathExpr : syntax :=
  concat [literal lit ("<script type=" ++ q ++ "text/javascript" ++ q);
          OpStar true anyCharNotNL;
          literal lit (" src=" ++ q);
          OpCapture 1 (OpPlus true (fun r => (r =? code "/") || wordFold r || (r =? code "-")));
          literal lit (q ++ ">")].

(** src/script_path.go: the result is (ok, path). *)
Module script_path.

Definition GetScriptPath (src : string) : bool * string :=
  let matches := FindSubmatch scriptPathExpr src in
  let ok := (2 <=? Z.of_nat (List.length matches)) in
  if ok then (ok, nth 1 matches EmptyString) else (ok, EmptyString).

End script_path.

(** src/unnamed/part_004: the result is the path, empty when not found.
    This is the version Generate calls. *)
Definition GetScriptPath (src : string) : string :=
  let matches := FindSubmatch scriptPathExpr src in
  if Z.of_nat (List.length matches) <? 2 then EmptyString
  else nth 1 matches EmptyString.

(** *** package internal *)

Module internal.

(** The loop of FromHexString over the parts, [builder] holding what
    was written so far. *)
Fixpoint decodeParts (parts : list string) (builder : string)
  : string * option error :=
  match parts with
  | [] => (builder, None)
  | char :: rest =>
      let (i, err) := strconv.ParseInt (strings.RemoveFirst char "x") 16 64 in
      match err with
      | Some e => (EmptyString, Some e)
      | None =>
          decodeParts rest (builder ++ utf8.EncodeRune (utf8.rune_of_int64 i))
      end
  end.

Definition FromHexString (s : string) : string * option error :=
  decodeParts (tl (strings.Split s backslash)) EmptyString.

End internal.

(** *** pixel_challenge.go *)

(** [bazadebezolkohpepadr="(\d+)"] *)
Definition pixelHtmlExpr : syntax :=
  concat [literal lit ("bazadebezolkohpepadr=" ++ q);
          OpCapture 1 (OpPlus true digit);
          literal lit q].

Definition ErrPixelHtmlVarNotFound : error :=
  errors.New "akamai-sdk-go: pixel HTML var not found".

Definition GetPixelChallengeHtmlVar (src : string) : Z * option error :=
  let matches := FindSubmatch pixelHtmlExpr src in
  if Z.of_nat (List.length matches) <? 2 then (0, Some ErrPixelHtmlVarNotFound)
  else
    let (v, err) := strconv.Atoi (nth 1 matches EmptyString) in
    match err with
    | None => (v, None)
    | Some e => (0, errors.Join [Some ErrPixelHtmlVarNotFound; Some e])
    end.

(** The inputs of TestGetPixelChallengeHtmlVar, and one whose digits do
    not fit an int. *)
Definition validInput : string := "bazadebezolkohpepadr=" ++ q ++ "500" ++ q.
Definition invalidInput : string := "bazadebezolkohpepadr=" ++ q ++ "a" ++ q.
Definition overflowInput : string :=
  "bazadebezolkohpepadr=" ++ q ++ "99999999999999999999" ++ q.

(** [(?i)src="(https?://.+/akam/\d+/\w+)"] *)
Definition pixelScriptUrlExpr : syntax :=
  concat [literal litFold ("src=" ++ q);
          OpCapture 1
            (concat [literal litFold "http";
                     OpQuest true (litFold "s");
                     literal litFold "://";
                     OpPlus true anyCharNotNL;
                     literal litFold "/akam/";
                     OpPlus true digit;
                     literal litFold "/";
                     OpPlus true wordFold]);
          literal litFold q].

(** parts[len(parts)-1] = prefix + parts[len(parts)-1] *)
Fixpoint prefixLast (prefix : string) (parts : list string) : list string :=
  match parts with
  | [] => []
  | [p] => [prefix ++ p]
  | p :: rest => p :: prefixLast prefix rest
  end.

Definition GetPixelChallengeScriptURL (src : string) : bool * string * string :=
  let matches := FindSubmatch pixelScriptUrlExpr src in
  if Z.of_nat (List.length matches) <? 2 then (false, EmptyString, EmptyString)
  else
    let scriptUrl := nth 1 matches EmptyString in
    let parts := strings.Split scriptUrl "/" in
    let parts := prefixLast "pixel_" parts in
    let postUrl := strings.Join parts "/" in
    (true, scriptUrl, postUrl).

(** [g=_\[(\d+)]] *)
Definition pixelScriptVarExpr : syntax :=
  concat [literal lit "g=_["; OpCapture 1 (OpPlus true digit); literal lit "]"].

(** [(?i)var _=\[(.+)];] *)
Definition pixelScriptStringArrayExpr : syntax :=
  concat [literal litFold "var _=[";
          OpCapture 1 (OpPlus true anyCharNotNL);
          literal litFold "];"].

(** Under (?i): a double quote, a group holding the longest run of
    runes other than the double quote and the comma, a double quote.  A
    negated class matches the newline too. *)
Definition pixelScriptStringsExpr : syntax :=
  concat [literal litFold q;
          OpCapture 1
            (OpStar true (fun r => negb ((r =? code dquote) || (r =? code ","))));
          literal litFold q].

Definition ErrPixelScriptVarNotFound : error :=
  errors.New "akamai-sdk-go: script var not found".

Definition len {A} (l : list A) : Z := Z.of_nat (List.length l).

(** The index parsed from a run of digits is never negative, so the only
    bound the lookup rawStrings[stringIndex] can miss is the upper one,
    which the function checks. *)
Definition GetPixelChallengeScriptVar (src : string) : string * option error :=
  let index := FindSubmatch pixelScriptVarExpr src in
  if negb (len index =? 2) then
    (EmptyString,
     errors.Join [Some ErrPixelScriptVarNotFound;
                  Some (errorString ("len(index) expected 2, got: " ++ strconv.Itoa (len index)))])
  else
    let (stringIndex, err) := strconv.Atoi (nth 1 index EmptyString) in
    match err with
    | Some e => (EmptyString, errors.Join [Some ErrPixelScriptVarNotFound; Some e])
    | None =>
        let arrayDeclaration := FindSubmatch pixelScriptStringArrayExpr src in
        if len arrayDeclaration <? 2 then
          (EmptyString,
           errors.Join [Some ErrPixelScriptVarNotFound;
                        Some (errorString ("len(arrayDeclaration) expected 2, got: "
                                           ++ strconv.Itoa (len arrayDeclaration)))])
        else
          let rawStrings :=
            FindAllSubmatch pixelScriptStringsExpr (nth 1 arrayDeclaration EmptyString) in
          if len rawStrings <=? stringIndex then
            (EmptyString,
             errors.Join [Some ErrPixelScriptVarNotFound;
                          Some (errorString ("string index out of range: "
                                             ++ strconv.Itoa stringIndex ++ " >= "
                                             ++ strconv.Itoa (len rawStrings)))])
          else
            let entry := nth (Z.to_nat stringIndex) rawStrings [] in
            if negb (len entry =? 2) then
              (EmptyString,
               errors.Join [Some ErrPixelScriptVarNotFound;
                            Some (errorString ("len(rawStrings[stringIndex]) expected 2, got: "
                                               ++ strconv.Itoa (len entry)))])
            else
              let (v, err) := internal.FromHexString (nth 1 entry EmptyString) in
              match err with
              | None => (v, None)
              | Some e => (EmptyString, errors.Join [Some ErrPixelScriptVarNotFound; Some e])
              end
    end.

(** ** The API schemas and the collaborators of Generate *)

Module GenerateRequest.
Record t : Type := mk {
  UserAgent : string;
  Version : Version;
  PageURL : string;
  Abck : string;
  BmSz : string;
  ScriptValues : string
}.
End GenerateRequest.

Module GenerateResponse.
Record t : Type := mk { Payload : string }.
End GenerateResponse.

Module PixelSolveRequest.
Record t : Type := mk { UserAgent : string; HtmlVar : Z; ScriptVar : string }.
End PixelSolveRequest.

Module PixelSolveResponse.
Record t : Type := mk { Payload : string }.
End PixelSolveResponse.

Module DynamicScriptResponse.
Record t : Type := mk { Success : bool; Message : string; ScriptValues : string }.
End DynamicScriptResponse.

(** package net/url: the two fields of a parsed URL that Generate reads. *)
Module url.
Record URL : Type := mk { Scheme : string; Host : string }.

Definition IsAbs (u : URL) : bool := negb (String.eqb (Scheme u) EmptyString).
End url.

(** What Generate asks of the world outside: the caller's DoHttpReqFunc
    and GetCookieFunc, the three operations of the Session on the remote
    API (each returns a response or an error), and the append to the
    slice of errors the two goroutines share under a mutex.  Each event is
    indexed by the type of its answer. *)
Inductive event : Type -> Type :=
| DoHttpReq (op : HttpReqOp) (requestUrl requestMethod : string)
    (requestBody : option string) : event (Z * string * option error)
| GetCookie (u : url.URL) (name : string) : event string
| GeneratePixelPayload (req : PixelSolveRequest.t)
  : event (PixelSolveResponse.t + error)
| GenerateSensorData (req : GenerateRequest.t)
  : event (GenerateResponse.t + error)
| GetDynamicScriptValues (src : string)
  : event (DynamicScriptResponse.t + error)
| AddError (err : error) : event unit.

(** A program: it returns, or asks for an event and goes on with the
    answer.  All programs of the package are finite (the retry loop is
    bounded), so the type is inductive. *)
Inductive prog (A : Type) : Type :=
| Ret (a : A)
| Vis (R : Type) (e : event R) (k : R -> prog A).

Arguments Ret {A} a.
Arguments Vis {A R} e k.

Fixpoint bind {A B : Type} (m : prog A) (f : A -> prog B) : prog B :=
  match m with
  | Ret a => f a
  | Vis e k => Vis e (fun r => bind (k r) f)
  end.

Definition trigger {R : Type} (e : event R) : prog R := Vis e Ret.

Notation "x <- m ;; k" := (bind m (fun x => k))
  (at level 61, m at next level, right associativity).
Notation "' pat <- m ;; k" := (bind m (fun x => let 'pat := x in k))
  (at level 61, pat pattern, m at next level, right associativity).

(** A function value handed in by the caller: nil, or a function whose
    calls are the events above. *)
Inductive funcValue : Type := nilFunc | someFunc.

Definition isNil (f : funcValue) : bool :=
  match f with nilFunc => true | someFunc => false end.

(** How a call of Generate ends, or goes on after the page is fetched:
    the two goroutines that wg.Wait joins. *)
Inductive outcome : Type :=
| Panic (msg : string)
| Return (err : option error)
| Fork (pixel sensor : prog unit).

Definition StatusOK : Z := 200.
Definition StatusNotFound : Z := 404.
Definition MethodGet : string := "GET".
Definition MethodPost : string := "POST".

(** addError(err); return *)
Definition addError (err : error) : prog unit := trigger (AddError err).

Section Orchestrator.

(** url.Parse of the standard library: a URL or an error. *)
Variable url_Parse : string -> url.URL + error.

Variable userAgent : string.

(** The goroutine that solves the pixel challenge. *)
Definition pixelBranch (pageBody : string) : prog unit :=
  let '(ok, scriptUrl, postUrl) := GetPixelChallengeScriptURL pageBody in
  if negb ok then Ret tt
  else
    let (htmlVar, err) := GetPixelChallengeHtmlVar pageBody in
    match err with
    | Some e => addError e
    | None =>
        '(statusCode, scriptBody, err) <-
          trigger (DoHttpReq OpGetPixelChallengeScript scriptUrl MethodGet None) ;;
        let afterFetch (err : option error) : prog unit :=
          match err with
          | Some e => addError e
          | None =>
              let (scriptVar, err) := GetPixelChallengeScriptVar scriptBody in
              match err with
              | Some e => addError e
              | None =>
                  response <- trigger (GeneratePixelPayload
                                (PixelSolveRequest.mk userAgent htmlVar scriptVar)) ;;
                  match response with
                  | inr e => addError e
                  | inl response =>
                      '(_, _, err) <-
                        trigger (DoHttpReq OpPostPixelPayload postUrl MethodPost
                                   (Some (PixelSolveResponse.Payload response))) ;;
                      match err with
                      | Some e => addError e
                      | None => Ret tt
                      end
                  end
              end
          end in
        match err with
        | None =>
            if negb (statusCode =? StatusOK) then
              if statusCode =? StatusNotFound then Ret tt
              else afterFetch (Some (BadStatusCodeError statusCode))
            else afterFetch None
        | Some _ => afterFetch err
        end
    end.

Variable pageUrl : string.
Variable u : url.URL.

Definition sensorBody (payload : string) : string :=
  "{" ++ q ++ "sensor_data" ++ q ++ ":" ++ q ++ payload ++ q ++ "}".

Section Loop.

Variable scriptUrl : string.
Variable version : Version.
Variable scriptValues : string.

(** for i := 0; i < maxTries; i++: [n] counts the iterations left,
    maxTries - i. *)
Fixpoint sensorLoop (n : nat) (i : Z) : prog unit :=
  match n with
  | O => Ret tt
  | S n' =>
      abck <- trigger (GetCookie u "_abck") ;;
      bmSz <- (if String.eqb version Version2
               then trigger (GetCookie u "bm_sz")
               else Ret EmptyString) ;;
      let request :=
        GenerateRequest.mk userAgent version pageUrl abck bmSz scriptValues in
      response <- trigger (GenerateSensorData request) ;;
      match response with
      | inr e => addError e
      | inl response =>
          '(_, _, err) <-
            trigger (DoHttpReq OpPostSensorData scriptUrl MethodPost
                       (Some (sensorBody (GenerateResponse.Payload response)))) ;;
          match err with
          | Some e => addError e
          | None =>
              abck <- trigger (GetCookie u "_abck") ;;
              if IsCookieValid abck i then Ret tt
              else sensorLoop n' (i + 1)
          end
      end
  end.

End Loop.

Variable maxTries : Z.

(** The goroutine that generates _abck. *)
Definition sensorBranch (pageBody : string) : prog unit :=
  let scriptPath := GetScriptPath pageBody in
  if String.eqb scriptPath EmptyString then Ret tt
  else
    let scriptUrl := url.Scheme u ++ "://" ++ url.Host u ++ scriptPath in
    '(statusCode, scriptBody, err) <-
      trigger (DoHttpReq OpGetSdkScript scriptUrl MethodGet None) ;;
    let err :=
      match err with
      | None => if negb (statusCode =? StatusOK)
                then Some (BadStatusCodeError statusCode) else None
      | Some _ => err
      end in
    match err with
    | Some e => addError e
    | None =>
        let version := GetSdkVersion scriptBody in
        let loop := fun scriptValues =>
          sensorLoop scriptUrl version scriptValues (Z.to_nat maxTries) 0 in
        if String.eqb version Version2 && negb (IsScriptStatic scriptBody) then
          response <- trigger (GetDynamicScriptValues scriptBody) ;;
          match response with
          | inr e => addError e
          | inl response =>
              loop (if DynamicScriptResponse.Success response
                    then DynamicScriptResponse.ScriptValues response
                    else EmptyString)
          end
        else loop EmptyString
    end.

End Orchestrator.

Definition ErrInvalidPageURL : error := errors.New "akamai-sdk-go: invalid page URL".

Definition Generate (url_Parse : string -> url.URL + error)
  (userAgent pageUrl : string) (doHttpReq getCookie : funcValue) (maxTries : Z)
  : prog outcome :=
  if isNil doHttpReq then
    Ret (Panic "akamai-sdk-go: nil DoHttpReqFunc passed to Generate")
  else if isNil getCookie then
    Ret (Panic "akamai-sdk-go: nil GetCookieFunc passed to Generate")
  else if maxTries <=? 0 then
    Ret (Panic "akamai-sdk-go: maxTries <= 0")
  else
    match url_Parse pageUrl with
    | inr err => Ret (Return (Some err))
    | inl u =>
        if negb (url.IsAbs u) then Ret (Return (Some ErrInvalidPageURL))
        else
          '(statusCode, pageBody, err) <-
            trigger (DoHttpReq OpGetPage pageUrl MethodGet None) ;;
          let err :=
            match err with
            | None => if negb (statusCode =? StatusOK)
                      then Some (BadStatusCodeError statusCode) else None
            | Some _ => err
            end in
          match err with
          | Some e => Ret (Return (errors.Join [Some (HttpOpError OpGetPage); Some e]))
          | None =>
              Ret (Fork (pixelBranch userAgent pageBody)
                        (sensorBranch userAgent pageUrl u maxTries pageBody))
          end
    end.

(** ** Runs

    A run of a program is the list of the calls it made with the answers
    it got, whatever the answers are: the caller's functions and the
    remote API are free, and so is the order in which the two goroutines
    take their turns. *)

Inductive call : Type :=
| HttpCall (op : HttpReqOp) (requestUrl requestMethod : string)
    (requestBody : option string) (answer : Z * string * option error)
| CookieCall (u : url.URL) (name : string) (answer : string)
| PixelPayloadCall (req : PixelSolveRequest.t) (answer : PixelSolveResponse.t + error)
| SensorDataCall (req : GenerateRequest.t) (answer : GenerateResponse.t + error)
| ScriptValuesCall (src : string) (answer : DynamicScriptResponse.t + error)
| ErrorAdded (err : error).

Definition record {R : Type} (e : event R) : R -> call :=
  match e in event R return R -> call with
  | DoHttpReq op requestUrl requestMethod requestBody =>
      HttpCall op requestUrl requestMethod requestBody
  | GetCookie u name => CookieCall u name
  | GeneratePixelPayload req => PixelPayloadCall req
  | GenerateSensorData req => SensorDataCall req
  | GetDynamicScriptValues src => ScriptValuesCall src
  | AddError err => fun _ => ErrorAdded err
  end.

(** [exec p tr a]: the program [p] can make the calls [tr] and return [a]. *)
Fixpoint exec {A : Type} (p : prog A) (tr : list call) (a : A) : Prop :=
  match p with
  | Ret x => tr = [] /\ a = x
  | Vis e k => exists r tr', tr = record e r :: tr' /\ exec (k r) tr' a
  end.

Inductive interleave {A : Type} : list A -> list A -> list A -> Prop :=
| interleave_nil : interleave [] [] []
| interleave_left x l r m : interleave l r m -> interleave (x :: l) r (x :: m)
| interleave_right x l r m : interleave l r m -> interleave l (x :: r) (x :: m).

(** The errors appended to errs, in the order of the appends. *)
Fixpoint collected (tr : list call) : list error :=
  match tr with
  | [] => []
  | ErrorAdded e :: rest => e :: collected rest
  | _ :: rest => collected rest
  end.

Inductive result : Type :=
| Panicked (msg : string)
| Returned (err : option error).

(** A run of a whole call: the calls made up to the fork, then the calls
    of the two goroutines interleaved; the call returns the join of the
    errors they appended. *)
Definition runs (g : prog outcome) (tr : list call) (res : result) : Prop :=
  exists tr0 o,
    exec g tr0 o /\
    match o with
    | Panic msg => tr = tr0 /\ res = Panicked msg
    | Return err => tr = tr0 /\ res = Returned err
    | Fork pixel sensor =>
        exists tp ts ti,
          exec pixel tp tt /\ exec sensor ts tt /\ interleave tp ts ti /\
          tr = (tr0 ++ ti)%list /\
          res = Returned (errors.Join (map Some (collected ti)))
    end.

(** ** The escaping that FromHexString undoes

    Each character is written as a backslash followed by the two
    hexadecimal digits of its code, with the letter x in between as in a
    string literal of the vendor's scripts ([x] true) or without it, and
    with the digits above nine in upper case ([upper] true) or in lower
    case. *)

Definition hexDigit (upper : bool) (d : Z) : ascii :=
  if d <? 10 then byte_of (48 + d)
  else byte_of ((if upper then 65 else 97) + d - 10).

(** What follows the backslash. *)
Definition hexPart (x upper : bool) (r : Z) : string :=
  let digits :=
    String (hexDigit upper (r / 16)) (String (hexDigit upper (r mod 16)) EmptyString) in
  if x then String "x" digits else digits.

Definition hexEscapeRune (x upper : bool) (r : Z) : string :=
  String backslash (hexPart x upper r).

Fixpoint hexEscape (x upper : bool) (rs : list Z) : string :=
  match rs with
  | [] => EmptyString
  | r :: rest => hexEscapeRune x upper r ++ hexEscape x upper rest
  end.

(** The bytes of a string, as numbers. *)
Fixpoint bytes (s : string) : list Z :=
  match s with
  | EmptyString => []
  | String c rest => byte_code c :: bytes rest
  end.

Definition isASCII (s : string) : bool := forallb (fun b => b <? utf8.RuneSelf) (bytes s).

(** The characters of a string, as a for-range loop over it or the
    conversion to a slice of runes sees them. *)
Definition runes (s : string) : list Z := map cell_rune (cells s).

(** The numbers lo, lo + 1, ..., lo + n - 1. *)
Definition range (lo : Z) (n : nat) : list Z := map (fun i => lo + Z.of_nat i) (seq 0 n).

(** ** Shapes of runs *)

(** A call that is not the GET of the pixel challenge script. *)
Definition notScriptFetch (c : call) : Prop :=
  match c with
  | HttpCall op _ _ _ _ => op <> OpGetPixelChallengeScript
  | _ => True
  end.

(** Every POST of sensor data in [tr] comes right after an answer of
    GenerateSensorData ([prev] is the call before [tr]), goes to
    [scriptUrl], and its body is the template around the payload of that
    answer. *)
Fixpoint postsVerbatim (scriptUrl : string) (prev : option call) (tr : list call) : Prop :=
  match tr with
  | [] => True
  | c :: rest =>
      match c with
      | HttpCall op requestUrl requestMethod requestBody _ =>
          op = OpPostSensorData ->
          exists req resp,
            prev = Some (SensorDataCall req (inl resp)) /\
            requestUrl = scriptUrl /\ requestMethod = MethodPost /\
            requestBody = Some (sensorBody (GenerateResponse.Payload resp))
      | _ => True
      end /\ postsVerbatim scriptUrl (Some c) rest
  end.

(** ** Sample inputs *)

(** A stand-in for url.Parse on the inputs of the examples: an https URL
    is absolute, a lone percent sign does not parse, anything else is a
    relative reference. *)
Definition sampleParse (s : string) : url.URL + error :=
  if prefix "https://" s then
    inl (url.mk "https" (substring 8 (length s - 8) s))
  else if String.eqb s "%" then
    inr (errorString "parse: invalid URL escape")
  else inl (url.mk EmptyString EmptyString).

(** A page with the pixel challenge, and a page with the SDK script. *)
Definition pixelPage : string :=
  "<script src=" ++ q ++ "https://x.example/akam/12/abcDEF" ++ q ++ "></script>"
  ++ "<input " ++ validInput ++ ">".

Definition sensorPage : string :=
  "<script type=" ++ q ++ "text/javascript" ++ q ++ " src=" ++ q ++ "/static/sdk-1" ++ q
  ++ "></script>".

(** A run of the sensor branch on [sensorPage] with two iterations of
    the loop; the second payload holds a double quote and a backslash. *)
Definition sampleURL : url.URL := url.mk "https" "a.example".
Definition sampleScriptUrl : string := "https://a.example/static/sdk-1".
Definition samplePayload : string := "7a74" ++ q ++ "G7\m23".

Definition sampleRunStart : list call :=
  [HttpCall OpGetSdkScript sampleScriptUrl MethodGet None (200, "var _acxj=1;", None);
   CookieCall sampleURL "_abck" "c0";
   SensorDataCall
     (GenerateRequest.mk "Mozilla/5.0" Version175 "https://a.example/" "c0"
        EmptyString EmptyString)
     (inl (GenerateResponse.mk "2;0;1"));
   HttpCall OpPostSensorData sampleScriptUrl MethodPost
     (Some (sensorBody "2;0;1")) (201, EmptyString, None);
   CookieCall sampleURL "_abck" "c1~-1~x";
   CookieCall sampleURL "_abck" "c1~-1~x"].

Definition sampleRunAnswer : call :=
  SensorDataCall
    (GenerateRequest.mk "Mozilla/5.0" Version175 "https://a.example/" "c1~-1~x"
       EmptyString EmptyString)
    (inl (GenerateResponse.mk samplePayload)).

Definition sampleRunPost : call :=
  HttpCall OpPostSensorData sampleScriptUrl MethodPost
    (Some (sensorBody samplePayload)) (201, EmptyString, None).

Definition sampleRun : list call :=
  (sampleRunStart ++ [sampleRunAnswer; sampleRunPost;
                      CookieCall sampleURL "_abck" "c2~0~x"])%list.

(** ** Auxiliary definitions of the proofs *)

(** The rune that a sequence of two bytes encodes. *)
Definition twoByteRune (b0 b1 : Z) : Z :=
  Z.lor (Z.shiftl (Z.land b0 31) 6) (utf8.cont b1).

(** A string of decimal digits. *)
Definition allDigits (s : string) : Prop :=
  Forall (fun b => 48 <= b <= 57) (bytes s).

(** A string without the byte [c]. *)
Fixpoint without (c : ascii) (s : string) : bool :=
  match s with
  | EmptyString => true
  | String a rest => negb (Ascii.eqb a c) && without c rest
  end.

(** What is needed of the escape of a code below 256: no backslash after
    the first, and the digits parse back to the code once the first x is
    removed. *)
Definition hexCheck (x upper : bool) (r : Z) : bool :=
  without backslash (hexPart x upper r) &&
  match strconv.ParseInt (strings.RemoveFirst (hexPart x upper r) "x") 16 64 with
  | (v, None) => v =? r
  | _ => false
  end.

(** Encoding the rune of two bytes gives the two bytes back. *)
Definition twoByteCheck (b0 b1 : Z) : bool :=
  String.eqb (utf8.EncodeRune (twoByteRune b0 b1))
    (String (byte_of b0) (String (byte_of b1) EmptyString)).

(** ** Further shapes of runs *)

Definition isHttpOp (op : HttpReqOp) (c : call) : bool :=
  match c with
  | HttpCall op' _ _ _ _ => op' =? op
  | _ => false
  end.

(** The number of requests of the operation [op] in a run. *)
Definition countOp (op : HttpReqOp) (tr : list call) : nat :=
  List.length (filter (isHttpOp op) tr).

(** The reads of the cookies at the head of an iteration of the loop. *)
Definition cookieReads (u : url.URL) (version : Version) (abck bmSz : string)
  : list call :=
  CookieCall u "_abck" abck
  :: (if String.eqb version Version2 then [CookieCall u "bm_sz" bmSz] else []).

(** A run that appended no error, or one with its last call. *)
Definition errorLast (tr : list call) : Prop :=
  collected tr = [] \/
  exists tr' e, tr = (tr' ++ [ErrorAdded e])%list /\ collected tr' = [].

(** A call of the loop of the sensor branch when the script values are
    [values]: it is no call of GetDynamicScriptValues, and a request to
    GenerateSensorData carries [values]. *)
Definition carries (values : string) (c : call) : Prop :=
  match c with
  | ScriptValuesCall _ _ => False
  | SensorDataCall req _ => GenerateRequest.ScriptValues req = values
  | _ => True
  end.

(** A call that is not a read of a cookie, or reads _abck or bm_sz for
    the URL [u]. *)
Definition cookieOf (u : url.URL) (c : call) : Prop :=
  match c with
  | CookieCall cu name _ => cu = u /\ (name = "_abck" \/ name = "bm_sz")
  | _ => True
  end.

(** A call that is no request, or a request as its operation promises: a
    GET without a body for the three fetches, a POST with a body for the
    two posts. *)
Definition wellTagged (c : call) : Prop :=
  match c with
  | HttpCall op _ requestMethod requestBody _ =>
      (In op [OpGetPage; OpGetSdkScript; OpGetPixelChallengeScript] /\
       requestMethod = MethodGet /\ requestBody = None) \/
      (In op [OpPostSensorData; OpPostPixelPayload] /\
       requestMethod = MethodPost /\ requestBody <> None)
  | _ => True
  end.

(** ** Further sample inputs *)

(** A page with neither the challenge nor the script, and one with both. *)
Definition plainPage : string := "<html><body>hello</body></html>".
Definition bothPage : string := pixelPage ++ sensorPage.

(** A script of the pixel challenge, and a run of the pixel branch on
    [pixelPage] up to the POST. *)
Definition samplePixelScript : string :=
  "var _=[" ++ q ++ "\x61\x62" ++ q ++ "," ++ q ++ "\x63" ++ q ++ "];var g=_[1];".

Definition samplePixelRun : list call :=
  [HttpCall OpGetPixelChallengeScript "https://x.example/akam/12/abcDEF" MethodGet None
     (200, samplePixelScript, None);
   PixelPayloadCall (PixelSolveRequest.mk "Mozilla/5.0" 500 "c")
     (inl (PixelSolveResponse.mk "a=1&b=2"));
   HttpCall OpPostPixelPayload "https://x.example/akam/12/pixel_abcDEF" MethodPost
     (Some "a=1&b=2") (200, EmptyString, None)].

(** A run of the sensor branch on [sensorPage] with a dynamic script of
    version 2: one iteration, after which the cookie is valid. *)
Definition sampleDynamicStart : list call :=
  [HttpCall OpGetSdkScript sampleScriptUrl MethodGet None (200, "(function(){})", None);
   ScriptValuesCall "(function(){})" (inl (DynamicScriptResponse.mk true EmptyString "v1"));
   CookieCall sampleURL "_abck" "a0";
   CookieCall sampleURL "bm_sz" "b0"].

Definition sampleDynamicRequest : GenerateRequest.t :=
  GenerateRequest.mk "Mozilla/5.0" Version2 "https://a.example/" "a0" "b0" "v1".

Definition sampleDynamicRun : list call :=
  (sampleDynamicStart
   ++ [SensorDataCall sampleDynamicRequest (inl (GenerateResponse.mk "3;0;1"));
       HttpCall OpPostSensorData sampleScriptUrl MethodPost
         (Some (sensorBody "3;0;1")) (201, EmptyString, None);
       CookieCall sampleURL "_abck" "a1~0~x"])%list.

(** A run of the two goroutines on [bothPage] in which both fetches are
    refused. *)
Definition sampleFailedRun : list call :=
  [HttpCall OpGetPixelChallengeScript "https://x.example/akam/12/abcDEF" MethodGet None
     (500, EmptyString, None);
   HttpCall OpGetSdkScript sampleScriptUrl MethodGet None (404, EmptyString, None);
   ErrorAdded (BadStatusCodeError 404);
   ErrorAdded (BadStatusCodeError 500)].

(** ** Further auxiliary definitions *)

(** What holds of every cell of a text, besides [cell_ok]: the rune is
    not negative, and the bytes of a rune that is not below RuneSelf are
    not below it either. *)
Definition cell_high (c : cell) : Prop :=
  0 <= cell_rune c /\
  (utf8.RuneSelf <= cell_rune c -> Forall (fun b => 128 <= b) (bytes (cell_raw c))).

(** The line feed. *)
Definition newline : ascii := "010"%char.

(** A page where the line that opens a script tag of type
    text/javascript goes on to an img tag, which carries the only
    attribute src of the line. *)
Definition imgPage : string :=
  "<script type=" ++ q ++ "text/javascript" ++ q ++ ">var a=1;</script><img src="
  ++ q ++ "/logo" ++ q ++ ">".

(** ** The attribute of the pixel challenge in a page *)

(** The attribute of the pixel challenge with the value [digits]. *)
Definition htmlVarAttribute (digits : string) : string :=
  "bazadebezolkohpepadr=" ++ q ++ digits ++ q.

(** [src] holds the attribute, with a value of decimal digits, right
    after [pre]. *)
Definition attributeAt (src pre digits post : string) : Prop :=
  src = pre ++ htmlVarAttribute digits ++ post /\
  digits <> EmptyString /\ allDigits digits.

(** ... and nowhere before. *)
Definition firstAttributeAt (src pre digits post : string) : Prop :=
  attributeAt src pre digits post /\
  forall pre' digits' post',
    attributeAt src pre' digits' post' -> (length pre <= length pre')%nat.

(** * Properties *)

(** ** The functions on sample inputs *)

Example Split_fields : strings.Split "a~b~" "~" = ["a"; "b"; EmptyString].
Proof. reflexivity. Qed.

Example Split_empty : strings.Split EmptyString "~" = [EmptyString].
Proof. reflexivity. Qed.

Example Atoi_plus : strconv.Atoi "+12" = (12, None).
Proof. vm_compute. reflexivity. Qed.

Example Atoi_min : strconv.Atoi "-9223372036854775808" = (-9223372036854775808, None).
Proof. vm_compute. reflexivity. Qed.

Example Atoi_too_large :
  strconv.Atoi "9223372036854775808"
  = (9223372036854775807, Some (NumError "Atoi" "9223372036854775808" strconv.ErrRange)).
Proof. vm_compute. reflexivity. Qed.

Example Atoi_underscore :
  strconv.Atoi "1_2" = (0, Some (NumError "Atoi" "1_2" strconv.ErrSyntax)).
Proof. vm_compute. reflexivity. Qed.

Example ParseInt_hex : strconv.ParseInt "Ff" 16 64 = (255, None).
Proof. vm_compute. reflexivity. Qed.

Example DecodeRune_two_bytes : utf8.DecodeRune "é" = (233, 2%nat).
Proof. vm_compute. reflexivity. Qed.

Example DecodeRune_invalid :
  utf8.DecodeRune (String (byte_of 255) "a") = (utf8.RuneError, 1%nat).
Proof. vm_compute. reflexivity. Qed.

Example IsCookieValid_reached : IsCookieValid "abc~0~def" 0 = true.
Proof. vm_compute. reflexivity. Qed.

Example IsCookieValid_not_reached : IsCookieValid "abc~3~def" 2 = false.
Proof. vm_compute. reflexivity. Qed.

Example IsScriptStatic_static : IsScriptStatic "(function a(){})" = true.
Proof. vm_compute. reflexivity. Qed.

Example IsScriptStatic_dynamic : IsScriptStatic "(function(){})" = false.
Proof. vm_compute. reflexivity. Qed.

Example GetPixelChallengeScriptURL_sample :
  GetPixelChallengeScriptURL ("src=" ++ q ++ "https://x.example/akam/12/abcDEF" ++ q)
  = (true, "https://x.example/akam/12/abcDEF", "https://x.example/akam/12/pixel_abcDEF").
Proof. vm_compute. reflexivity. Qed.

(** Under (?i) the long s folds to s. *)
Example GetPixelChallengeScriptURL_fold :
  GetPixelChallengeScriptURL ("ſrc=" ++ q ++ "HTTP://x.example/AKAM/1/a" ++ q)
  = (true, "HTTP://x.example/AKAM/1/a", "HTTP://x.example/AKAM/1/pixel_a").
Proof. vm_compute. reflexivity. Qed.

Example GetPixelChallengeScriptVar_sample :
  GetPixelChallengeScriptVar
    ("var _=[" ++ q ++ "\x61\x62" ++ q ++ "," ++ q ++ "\x63" ++ q ++ "];var g=_[1];")
  = ("c", None).
Proof. vm_compute. reflexivity. Qed.

Example GetPixelChallengeScriptVar_out_of_range :
  GetPixelChallengeScriptVar
    ("var _=[" ++ q ++ "\x61\x62" ++ q ++ "," ++ q ++ "\x63" ++ q ++ "];var g=_[2];")
  = (EmptyString,
     Some (joinError [ErrPixelScriptVarNotFound;
                      errorString "string index out of range: 2 >= 2"])).
Proof. vm_compute. reflexivity. Qed.

Example GetScriptPath_sample :
  GetScriptPath sensorPage = "/static/sdk-1" /\
  script_path.GetScriptPath sensorPage = (true, "/static/sdk-1").
Proof. vm_compute. split; reflexivity. Qed.

Example FromHexString_bad_digit :
  internal.FromHexString "\x4g"
  = (EmptyString, Some (NumError "ParseInt" "4g" strconv.ErrSyntax)).
Proof. vm_compute. reflexivity. Qed.

(** ** The stop signal *)

Lemma Split_not_nil (s : string) (sep : ascii) : strings.Split s sep <> [].
Proof.
  destruct s as [|c s]; simpl; [discriminate|].
  destruct (Ascii.eqb c sep); [discriminate|].
  destruct (strings.Split s sep); discriminate.
Qed.

Lemma IsCookieValid_fields (value : string) (n : Z) :
  IsCookieValid value n =
  match nth_error (strings.Split value "~") 1 with
  | None => false
  | Some field =>
      match strconv.Atoi field with
      | (_, Some _) => false
      | (threshold, None) => negb (threshold =? -1) && (threshold <=? n)
      end
  end.
Proof.
  unfold IsCookieValid.
  destruct (strings.Split value "~") as [|f0 [|f1 fs]] eqn:E; try reflexivity.
  cbn [List.length nth nth_error].
  replace (Z.of_nat (S (S (List.length fs))) <? 2) with false
    by (symmetry; apply Z.ltb_ge; lia).
  destruct (strconv.Atoi f1) as [v [e|]]; reflexivity.
Qed.

(** C1, as stated, fails: the second field of [a~-1~b] parses as the
    integer -1 and the count 0 is not below it, yet the cookie is not
    reported valid. *)
Lemma IsCookieValid_threshold_counterexample :
  nth_error (strings.Split "a~-1~b" "~") 1 = Some "-1" /\
  strconv.Atoi "-1" = (-1, None) /\
  -1 <= 0 /\
  IsCookieValid "a~-1~b" 0 = false /\
  ~ (forall value field threshold n,
        nth_error (strings.Split value "~") 1 = Some field ->
        strconv.Atoi field = (threshold, None) ->
        (IsCookieValid value n = true <-> threshold <= n)).
Proof.
  split; [reflexivity|]. split; [reflexivity|]. split; [lia|]. split; [reflexivity|].
  intros H.
  specialize (H "a~-1~b" "-1" (-1) 0 eq_refl eq_refl).
  destruct H as [_ H].
  assert (E : IsCookieValid "a~-1~b" 0 = false) by reflexivity.
  rewrite H in E; [discriminate | lia].
Qed.

(** C1, amended: IsCookieValid is false when the value has fewer than two
    fields, false when the second field does not parse as an integer, and
    false when it parses as -1, the value the function keeps for "no
    threshold"; for every other threshold it is true exactly when the
    count has reached the threshold. *)
Theorem IsCookieValid_spec (value : string) (n : Z) :
  (len (strings.Split value "~") < 2 -> IsCookieValid value n = false) /\
  (forall field v e,
      nth_error (strings.Split value "~") 1 = Some field ->
      strconv.Atoi field = (v, Some e) ->
      IsCookieValid value n = false) /\
  (forall field,
      nth_error (strings.Split value "~") 1 = Some field ->
      strconv.Atoi field = (-1, None) ->
      IsCookieValid value n = false) /\
  (forall field threshold,
      nth_error (strings.Split value "~") 1 = Some field ->
      strconv.Atoi field = (threshold, None) ->
      threshold <> -1 ->
      (IsCookieValid value n = true <-> threshold <= n)).
Proof.
  rewrite IsCookieValid_fields.
  repeat split.
  - unfold len. destruct (strings.Split value "~") as [|f0 [|f1 fs]]; cbn; try reflexivity; lia.
  - intros field v e -> ->. reflexivity.
  - intros field -> ->. reflexivity.
  - destruct (nth_error _ 1) as [f|]; [|discriminate].
    intros E. injection H as <-. rewrite H0 in E.
    apply andb_true_iff in E. destruct E as [_ E]. now apply Z.leb_le.
  - intros L. rewrite H, H0.
    apply andb_true_iff. split.
    + apply negb_true_iff, Z.eqb_neq. assumption.
    + now apply Z.leb_le.
Qed.

Lemma IsCookieValid_spec_witness :
  IsCookieValid "abc" 3 = false /\
  IsCookieValid "abc~x1~def" 3 = false /\
  IsCookieValid "abc~-1~def" 3 = false /\
  (IsCookieValid "abc~2~def" 3 = true <-> 2 <= 3).
Proof.
  split; [|split; [|split]].
  - apply (IsCookieValid_spec "abc" 3). vm_compute. reflexivity.
  - apply (proj1 (proj2 (IsCookieValid_spec "abc~x1~def" 3)) "x1" 0
             (NumError "Atoi" "x1" strconv.ErrSyntax)); reflexivity.
  - apply (proj1 (proj2 (proj2 (IsCookieValid_spec "abc~-1~def" 3))) "-1"); reflexivity.
  - apply (proj2 (proj2 (proj2 (IsCookieValid_spec "abc~2~def" 3))) "2" 2);
      [reflexivity | reflexivity | lia].
Defined.

(** ** Runes and cells *)

Lemma byte_code_range (c : ascii) : 0 <= byte_code c < 256.
Proof.
  unfold byte_code.
  pose proof (N_ascii_bounded c) as B.
  lia.
Qed.

Lemma byte_code_inj (a b : ascii) : byte_code a = byte_code b -> a = b.
Proof.
  unfold byte_code. intros E.
  apply N2Z.inj in E.
  rewrite <- (ascii_N_embedding a), <- (ascii_N_embedding b).
  now rewrite E.
Qed.

Lemma byte_of_code (c : ascii) : byte_of (byte_code c) = c.
Proof.
  unfold byte_of.
  pose proof (byte_code_range c) as B.
  rewrite Z.mod_small by lia.
  unfold byte_code. rewrite N2Z.id. apply ascii_N_embedding.
Qed.

Lemma land_upper (a b : Z) : 0 <= b -> Z.land a b <= b.
Proof.
  intros Hb.
  pose proof (Z.add_lor_land (Z.ldiff b a) (Z.land b a)) as E.
  rewrite Z.lor_ldiff_and in E.
  replace (Z.land (Z.ldiff b a) (Z.land b a)) with 0 in E.
  - assert (0 <= Z.ldiff b a) by (apply Z.ldiff_nonneg; now left).
    rewrite (Z.land_comm a b). lia.
  - rewrite (Z.land_comm b a), Z.land_assoc, Z.land_ldiff. reflexivity.
Qed.

Lemma lor_lower (a b : Z) : 0 <= a -> 0 <= b -> a <= Z.lor a b.
Proof.
  intros Ha Hb.
  pose proof (Z.add_lor_land a b) as E.
  pose proof (land_upper a b Hb).
  lia.
Qed.

Lemma land_low_bits (a : Z) (n : Z) :
  0 <= n -> Z.land a (Z.ones n) = a mod 2 ^ n.
Proof. intros. now apply Z.land_ones. Qed.

Lemma cont_nonneg (b : Z) : 0 <= b -> 0 <= utf8.cont b.
Proof. intros. unfold utf8.cont. apply Z.land_nonneg. now left. Qed.

(** A byte below RuneSelf is a rune of its own. *)
Lemma DecodeRune_ascii (c : ascii) (t : string) :
  byte_code c < utf8.RuneSelf ->
  utf8.DecodeRune (String c t) = (byte_code c, 1%nat).
Proof.
  intros H. unfold utf8.DecodeRune.
  now replace (byte_code c <? utf8.RuneSelf) with true by (symmetry; now apply Z.ltb_lt).
Qed.

Ltac bool_hyps :=
  repeat match goal with
         | H : (_ && _) = true |- _ => apply andb_true_iff in H; destruct H
         | H : (_ || _) = false |- _ => apply orb_false_iff in H; destruct H
         | H : (_ <=? _) = true |- _ => apply Z.leb_le in H
         | H : (_ <=? _) = false |- _ => apply Z.leb_gt in H
         | H : (_ <? _) = true |- _ => apply Z.ltb_lt in H
         | H : (_ <? _) = false |- _ => apply Z.ltb_ge in H
         | H : (_ =? _) = true |- _ => apply Z.eqb_eq in H
         | H : (_ =? _) = false |- _ => apply Z.eqb_neq in H
         | H : negb _ = true |- _ => apply negb_true_iff in H
         | H : negb _ = false |- _ => apply negb_false_iff in H
         end.

Lemma between_spec (lo hi x : Z) : between lo hi x = true <-> lo <= x <= hi.
Proof. unfold between. rewrite andb_true_iff, !Z.leb_le. tauto. Qed.

(** The rows of the table [first]. *)
Lemma first_cases (b0 : Z) (sz : nat) (lo hi : Z) :
  utf8.first b0 = Some (sz, lo, hi) ->
  (sz = 2%nat /\ 194 <= b0 <= 223 /\ 128 <= lo /\ hi <= 191) \/
  (sz = 3%nat /\ b0 = 224 /\ 160 <= lo /\ hi <= 191) \/
  (sz = 3%nat /\ 225 <= b0 <= 239 /\ 128 <= lo /\ hi <= 191) \/
  (sz = 4%nat /\ b0 = 240 /\ 144 <= lo /\ hi <= 191) \/
  (sz = 4%nat /\ 241 <= b0 <= 244 /\ 128 <= lo /\ hi <= 191).
Proof.
  unfold utf8.first, between. intros F.
  repeat match type of F with
         | (if ?b then _ else _) = _ => destruct b eqn:?
         end; inversion F; subst; bool_hyps; lia.
Qed.

Lemma mod_shift (x m k : Z) : 0 < m -> k * m <= x < (k + 1) * m -> x mod m = x - k * m.
Proof.
  intros Hm Hx. symmetry. apply (Z.mod_unique x m k (x - k * m)); lia.
Qed.

(** Any other byte starts a rune that is not below RuneSelf: either a
    rune of two bytes, or a rune that is not below 256 (RuneError for an
    invalid byte). *)
Lemma DecodeRune_high_cases (c : ascii) (t : string) :
  utf8.RuneSelf <= byte_code c ->
  256 <= fst (utf8.DecodeRune (String c t)) \/
  (exists c1 t1,
      t = String c1 t1 /\
      194 <= byte_code c <= 223 /\ 128 <= byte_code c1 <= 191 /\
      utf8.DecodeRune (String c t) = (twoByteRune (byte_code c) (byte_code c1), 2%nat)).
Proof.
  intros H. unfold utf8.DecodeRune, utf8.RuneSelf in *.
  pose proof (byte_code_range c) as Bc.
  replace (byte_code c <? 128) with false by (symmetry; apply Z.ltb_ge; lia).
  set (b0 := byte_code c) in *.
  destruct (utf8.first b0) as [[[sz lo] hi]|] eqn:F; [|left; cbn; unfold utf8.RuneError; lia].
  apply first_cases in F.
  destruct t as [|c1 t1]; [left; cbn; unfold utf8.RuneError; lia|].
  pose proof (byte_code_range c1) as B1. set (b1 := byte_code c1) in *.
  destruct (between lo hi b1) eqn:A1; cbn [negb]; [|left; cbn; unfold utf8.RuneError; lia].
  apply between_spec in A1.
  assert (Hb1 : 0 <= utf8.cont b1) by (apply cont_nonneg; lia).
  assert (Hc1 : 128 <= b1 <= 191 -> utf8.cont b1 = b1 - 128).
  { intros R. unfold utf8.cont. change 63 with (Z.ones 6).
    rewrite land_low_bits by lia. apply (mod_shift b1 (2 ^ 6) 2); lia. }
  assert (tail2 : forall x, 256 <= x ->
             match t1 with
             | EmptyString => True
             | String c2 t2 =>
                 256 <= fst (if negb (between 128 191 (byte_code c2))
                             then (utf8.RuneError, 1%nat)
                             else (Z.lor x (utf8.cont (byte_code c2)), 3%nat))
             end).
  { intros x Hx. destruct t1 as [|c2 t2]; [exact I|].
    pose proof (byte_code_range c2) as B2.
    destruct (between 128 191 (byte_code c2)); cbn [negb fst]; [|unfold utf8.RuneError; lia].
    pose proof (lor_lower x (utf8.cont (byte_code c2))).
    pose proof (cont_nonneg (byte_code c2)). lia. }
  assert (tail3 : forall x, 256 <= x ->
             256 <= fst match t1 with
                        | EmptyString => (utf8.RuneError, 1%nat)
                        | String c2 t2 =>
                            if negb (between 128 191 (byte_code c2))
                            then (utf8.RuneError, 1%nat)
                            else
                              match t2 with
                              | EmptyString => (utf8.RuneError, 1%nat)
                              | String c3 _ =>
                                  if negb (between 128 191 (byte_code c3))
                                  then (utf8.RuneError, 1%nat)
                                  else
                                    (Z.lor (Z.lor x (Z.shiftl (utf8.cont (byte_code c2)) 6))
                                           (utf8.cont (byte_code c3)), 4%nat)
                              end
                        end).
  { intros x Hx.
    destruct t1 as [|c2 t2]; [cbn; unfold utf8.RuneError; lia|].
    pose proof (byte_code_range c2) as B2.
    destruct (between 128 191 (byte_code c2)); cbn [negb]; [|cbn; unfold utf8.RuneError; lia].
    destruct t2 as [|c3 t3]; [cbn; unfold utf8.RuneError; lia|].
    pose proof (byte_code_range c3) as B3.
    destruct (between 128 191 (byte_code c3)); cbn [negb]; [|cbn; unfold utf8.RuneError; lia].
    cbn [fst].
    pose proof (cont_nonneg (byte_code c2)). pose proof (cont_nonneg (byte_code c3)).
    assert (0 <= Z.shiftl (utf8.cont (byte_code c2)) 6) by (apply Z.shiftl_nonneg; lia).
    pose proof (lor_lower x (Z.shiftl (utf8.cont (byte_code c2)) 6)).
    pose proof (lor_lower (Z.lor x (Z.shiftl (utf8.cont (byte_code c2)) 6))
                  (utf8.cont (byte_code c3))).
    lia. }
  destruct F as [F | [F | [F | [F | F]]]]; destruct F as (-> & Hb0 & Hlo & Hhi).
  - right. exists c1, t1. cbn [Nat.leb]. fold b1.
    repeat split; try lia.
  - left. cbn [Nat.leb].
    destruct t1 as [|c2 t2]; [cbn; unfold utf8.RuneError; lia|].
    apply (tail2 (Z.lor (Z.shiftl (Z.land b0 15) 12) (Z.shiftl (utf8.cont b1) 6))).
    rewrite Z.lor_comm, Hc1 by lia.
    rewrite !Z.shiftl_mul_pow2 by lia.
    assert (0 <= Z.land b0 15) by (apply Z.land_nonneg; now right).
    pose proof (lor_lower ((b1 - 128) * 2 ^ 6) (Z.land b0 15 * 2 ^ 12)). lia.
  - left. cbn [Nat.leb].
    destruct t1 as [|c2 t2]; [cbn; unfold utf8.RuneError; lia|].
    apply (tail2 (Z.lor (Z.shiftl (Z.land b0 15) 12) (Z.shiftl (utf8.cont b1) 6))).
    change 15 with (Z.ones 4). rewrite land_low_bits by lia.
    rewrite (mod_shift b0 (2 ^ 4) 14) by lia.
    rewrite !Z.shiftl_mul_pow2 by lia.
    pose proof (lor_lower ((b0 - 14 * 2 ^ 4) * 2 ^ 12) (utf8.cont b1 * 2 ^ 6)). lia.
  - left. cbn [Nat.leb]. apply tail3.
    rewrite Z.lor_comm, Hc1 by lia.
    rewrite !Z.shiftl_mul_pow2 by lia.
    assert (0 <= Z.land b0 7) by (apply Z.land_nonneg; now right).
    pose proof (lor_lower ((b1 - 128) * 2 ^ 12) (Z.land b0 7 * 2 ^ 18)). lia.
  - left. cbn [Nat.leb]. apply tail3.
    change 7 with (Z.ones 3). rewrite land_low_bits by lia.
    rewrite (mod_shift b0 (2 ^ 3) 30) by lia.
    rewrite !Z.shiftl_mul_pow2 by lia.
    pose proof (lor_lower ((b0 - 30 * 2 ^ 3) * 2 ^ 18) (utf8.cont b1 * 2 ^ 12)). lia.
Qed.

Lemma twoByteRune_high (b0 b1 : Z) :
  194 <= b0 <= 223 -> 0 <= b1 -> 128 <= twoByteRune b0 b1.
Proof.
  intros H0 H1. unfold twoByteRune.
  change 31 with (Z.ones 5). rewrite land_low_bits by lia.
  rewrite (mod_shift b0 (2 ^ 5) 6) by lia.
  rewrite Z.shiftl_mul_pow2 by lia.
  pose proof (lor_lower ((b0 - 6 * 2 ^ 5) * 2 ^ 6) (utf8.cont b1)).
  pose proof (cont_nonneg b1). lia.
Qed.

Lemma DecodeRune_high (c : ascii) (t : string) :
  utf8.RuneSelf <= byte_code c ->
  utf8.RuneSelf <= fst (utf8.DecodeRune (String c t)).
Proof.
  intros H.
  destruct (DecodeRune_high_cases c t H) as [L | (c1 & t1 & -> & R0 & R1 & ->)].
  - unfold utf8.RuneSelf. lia.
  - cbn [fst]. unfold utf8.RuneSelf. apply twoByteRune_high; lia.
Qed.

Lemma cells_ascii_cons (c : ascii) (t : string) :
  byte_code c < utf8.RuneSelf ->
  cells (String c t) = mkCell (byte_code c) (String c EmptyString) :: cells t.
Proof.
  intros H. unfold cells. cbn [cells_from].
  rewrite (DecodeRune_ascii c t H). cbn [Nat.pred].
  f_equal. f_equal. cbn. now destruct t.
Qed.

Lemma cells_high_cons (c : ascii) (t : string) :
  utf8.RuneSelf <= byte_code c ->
  exists r w k, cells (String c t) = mkCell r w :: cells_from k t /\ utf8.RuneSelf <= r.
Proof.
  intros H. unfold cells. cbn [cells_from].
  pose proof (DecodeRune_high c t H) as D.
  destruct (utf8.DecodeRune (String c t)) as [r w].
  now exists r, (substring 0 w (String c t)), (Nat.pred w).
Qed.

Lemma isASCII_cons (c : ascii) (s : string) :
  isASCII (String c s) = true <-> byte_code c < utf8.RuneSelf /\ isASCII s = true.
Proof.
  unfold isASCII. cbn [bytes forallb]. rewrite andb_true_iff, Z.ltb_lt. tauto.
Qed.

Lemma cells_ascii_app (p s : string) :
  isASCII p = true -> cells (p ++ s) = (cells p ++ cells s)%list.
Proof.
  induction p as [|c p IH]; intros A; [reflexivity|].
  apply isASCII_cons in A. destruct A as [Ac Ap].
  cbn [append]. rewrite !cells_ascii_cons by assumption.
  cbn [app]. now rewrite IH.
Qed.

(** ** Matching a literal at the head of the text *)

Lemma lit_spec (c : ascii) (r : Z) : lit c r = true <-> r = byte_code c.
Proof. unfold lit, code. apply Z.eqb_eq. Qed.

Lemma substring_all_from (s : string) : substring 0 (length s) s = s.
Proof. induction s; cbn; congruence. Qed.

(** A literal of ASCII bytes matches exactly when it is a prefix of the
    text, in one way, and captures nothing. *)
Lemma run_literal (p s : string) (bot : bool) (cs : caps) :
  isASCII p = true ->
  run (literal lit p) bot (cells s) cs =
  if prefix p s
  then [(cells p, cells (substring (length p) (length s - length p) s), cs)]
  else [].
Proof.
  revert s bot. induction p as [|c p IH]; intros s bot A.
  - cbn [literal run prefix length]. rewrite Nat.sub_0_r.
    destruct s; [reflexivity|].
    cbn [substring length]. now rewrite substring_all_from.
  - apply isASCII_cons in A. destruct A as [Ac Ap].
    cbn [literal run prefix].
    destruct s as [|c' s]; [reflexivity|].
    cbn [prefix].
    destruct (Z_lt_ge_dec (byte_code c') utf8.RuneSelf) as [L|G].
    + rewrite (cells_ascii_cons c' s L). cbn [cell_rune].
      destruct (lit c (byte_code c')) eqn:E.
      * apply lit_spec, byte_code_inj in E. subst c'.
        destruct (ascii_dec c c) as [_|N]; [|contradiction].
        cbn [flat_map is_nil]. rewrite andb_false_r, IH by assumption.
        rewrite app_nil_r.
        destruct (prefix p s); [|reflexivity].
        cbn [map app length substring Nat.sub].
        now rewrite (cells_ascii_cons c p Ac).
      * destruct (ascii_dec c c') as [->|N]; [|reflexivity].
        assert (lit c' (byte_code c') = true) by now apply lit_spec.
        congruence.
    + destruct (cells_high_cons c' s) as (r & w & k & -> & Hr); [lia|].
      cbn [cell_rune].
      destruct (lit c r) eqn:E.
      * apply lit_spec in E. lia.
      * destruct (ascii_dec c c') as [->|N]; [lia | reflexivity].
Qed.

(** A pattern that starts with ^ matches nowhere but at the start. *)
Lemma search_anchored (r : syntax) (inp : list cell) :
  search (OpConcat OpBeginText r) false inp = None.
Proof. induction inp as [|c inp IH]; cbn; [reflexivity|]. now rewrite IH. Qed.

Lemma Match_anchored (r : syntax) (src : string) :
  Match (OpConcat OpBeginText r) src = negb (is_nil (run r true (cells src) noCaps)).
Proof.
  unfold Match.
  destruct (cells src) as [|c inp] eqn:E.
  - cbn. rewrite app_nil_r. now destruct (run r true [] noCaps).
  - cbn [search]. rewrite search_anchored.
    cbn [run flat_map is_nil andb]. rewrite app_nil_r.
    now destruct (run r true (c :: inp) noCaps).
Qed.

(** [^literal] is the test for a prefix. *)
Lemma Match_anchored_literal (p src : string) :
  isASCII p = true ->
  Match (concat [OpBeginText; literal lit p]) src = prefix p src.
Proof.
  intros A. cbn [concat]. rewrite Match_anchored.
  cbn [run]. rewrite run_literal by assumption.
  destruct (prefix p src); [|reflexivity].
  cbn [flat_map run map app is_nil negb]. reflexivity.
Qed.

(** ** The SDK version and the shape of the script *)

Lemma GetSdkVersion_prefix (src : string) :
  GetSdkVersion src =
  if prefix "var _acxj" src then Version175
  else if prefix "(function" src then Version2
  else Version17.
Proof.
  unfold GetSdkVersion, version175expr, version2expr.
  now rewrite !Match_anchored_literal by reflexivity.
Qed.

(** C4, as stated, fails on the third tag: for a source that starts with
    the 2.0 marker the function returns the constant Version2, and the
    value of that constant is the string [2], not [2.0]. *)
Lemma GetSdkVersion_tag_counterexample :
  GetSdkVersion "(function(){})" = "2" /\
  ~ In (GetSdkVersion "(function(){})") ["1.7"; "1.75"; "2.0"].
Proof.
  split; [reflexivity|].
  vm_compute. intros [H | [H | [H | []]]]; discriminate H.
Qed.

(** C4, amended: GetSdkVersion returns one of exactly three tags, [1.7],
    [1.75] and [2] (the constant Version2, which stands for Akamai 2.0):
    [1.75] when the source matches the 1.75 pattern, otherwise [2] when it
    matches the 2.0 pattern, otherwise the oldest version, [1.7].  Each of
    the two patterns is the test for a prefix of the source. *)
Theorem GetSdkVersion_spec (src : string) :
  Match version175expr src = prefix "var _acxj" src /\
  Match version2expr src = prefix "(function" src /\
  GetSdkVersion src =
    (if Match version175expr src then "1.75"
     else if Match version2expr src then "2"
     else "1.7") /\
  In (GetSdkVersion src) ["1.7"; "1.75"; "2"] /\
  NoDup ["1.7"; "1.75"; "2"].
Proof.
  split; [|split; [|split; [|split]]].
  - apply Match_anchored_literal. reflexivity.
  - apply Match_anchored_literal. reflexivity.
  - reflexivity.
  - unfold GetSdkVersion.
    destruct (Match version175expr src); [cbn; auto|].
    destruct (Match version2expr src); cbn; auto.
  - repeat constructor; cbn; intuition discriminate.
Qed.

Lemma star_not_nil (g : bool) (p : class) (inp : list cell) : star g p inp <> [].
Proof.
  destruct inp as [|c t]; cbn; [discriminate|].
  destruct (p (cell_rune c)); [|discriminate].
  destruct g; [|discriminate].
  destruct (map _ (star true p t)); discriminate.
Qed.

Lemma word_ascii (r : Z) : word r = true -> r < utf8.RuneSelf.
Proof.
  unfold word, between, utf8.RuneSelf. intros H.
  repeat (apply orb_true_iff in H; destruct H as [H|H]); bool_hyps; lia.
Qed.

(** The head of the text is a word character, seen through the cells. *)
Lemma head_word (s : string) :
  match cells s with
  | c :: _ => word (cell_rune c)
  | [] => false
  end =
  match s with
  | String c _ => word (byte_code c)
  | EmptyString => false
  end.
Proof.
  destruct s as [|c t]; [reflexivity|].
  destruct (Z_lt_ge_dec (byte_code c) utf8.RuneSelf) as [L|G].
  - now rewrite cells_ascii_cons.
  - destruct (cells_high_cons c t) as (r & w & k & -> & Hr); [lia|].
    cbn [cell_rune].
    destruct (word r) eqn:Wr; [apply word_ascii in Wr; lia|].
    destruct (word (byte_code c)) eqn:Wc; [apply word_ascii in Wc; lia|].
    reflexivity.
Qed.

(** The static shape: the source starts with [(function ] and a word
    character follows. *)
Lemma IsScriptStatic_spec (src : string) :
  IsScriptStatic src =
  prefix "(function " src &&
  match substring 10 (length src - 10) src with
  | String c _ => word (byte_code c)
  | EmptyString => false
  end.
Proof.
  unfold IsScriptStatic, staticScriptExpr. cbn [concat].
  rewrite Match_anchored. cbn [run].
  rewrite run_literal by reflexivity.
  destruct (prefix "(function " src); [|reflexivity].
  cbn [flat_map andb]. rewrite app_nil_r.
  change (length "(function ") with 10%nat.
  rewrite <- head_word.
  destruct (cells (substring 10 (length src - 10) src)) as [|c t]; [reflexivity|].
  cbn [flat_map].
  destruct (word (cell_rune c)); [|reflexivity].
  pose proof (star_not_nil false word t) as N.
  destruct (star false word t) as [|x xs]; [contradiction|].
  reflexivity.
Qed.

Lemma prefix_trans_app (p p' s : string) :
  prefix (p ++ p') s = true -> prefix p s = true.
Proof.
  revert s. induction p as [|c p IH]; intros s H; [now destruct s|].
  destruct s as [|c' s]; [discriminate|].
  cbn in *. destruct (ascii_dec c c'); [now apply IH | discriminate].
Qed.

(** C9: a script of the static shape is classified as Version2: a source
    that matches the static pattern starts with the 2.0 marker and not
    with the 1.75 marker. *)
Theorem IsScriptStatic_Version2 (src : string) :
  IsScriptStatic src = true ->
  Match version2expr src = true /\
  Match version175expr src = false /\
  GetSdkVersion src = Version2.
Proof.
  intros H. rewrite IsScriptStatic_spec in H.
  apply andb_true_iff in H. destruct H as [P _].
  assert (P2 : prefix "(function" src = true)
    by (apply (prefix_trans_app "(function" " "); exact P).
  assert (P175 : prefix "var _acxj" src = false).
  { destruct src as [|c s]; [reflexivity|].
    cbn [prefix] in P2 |- *.
    destruct (ascii_dec "(" c) as [<-|]; [|discriminate].
    destruct (ascii_dec "v" "(") as [E|]; [discriminate E | reflexivity]. }
  rewrite GetSdkVersion_prefix.
  unfold version2expr, version175expr.
  rewrite !Match_anchored_literal by reflexivity.
  rewrite P2, P175. auto.
Qed.

Lemma IsScriptStatic_Version2_witness :
  IsScriptStatic "(function a(){})" = true /\
  GetSdkVersion "(function a(){})" = Version2.
Proof.
  split; [reflexivity|].
  apply (IsScriptStatic_Version2 "(function a(){})"). reflexivity.
Defined.

(** ** The ways a pattern matches *)

Lemma DecodeRune_width (c : ascii) (t : string) :
  (1 <= snd (utf8.DecodeRune (String c t)))%nat.
Proof.
  unfold utf8.DecodeRune.
  destruct (byte_code c <? utf8.RuneSelf); [cbn; lia|].
  destruct (utf8.first (byte_code c)) as [[[sz lo] hi]|]; [|cbn; lia].
  destruct t as [|c1 t1]; [cbn; lia|].
  destruct (negb (between lo hi (byte_code c1))); [cbn; lia|].
  destruct (sz <=? 2)%nat; [cbn; lia|].
  destruct t1 as [|c2 t2]; [cbn; lia|].
  destruct (negb (between 128 191 (byte_code c2))); [cbn; lia|].
  destruct (sz <=? 3)%nat; [cbn; lia|].
  destruct t2 as [|c3 t3]; [cbn; lia|].
  destruct (negb (between 128 191 (byte_code c3))); cbn; lia.
Qed.

Lemma cells_from_ok (s : string) (k : nat) : Forall cell_ok (cells_from k s).
Proof.
  revert k. induction s as [|c t IH]; intros k; [constructor|].
  destruct k as [|k]; [|apply IH].
  cbn [cells_from].
  pose proof (DecodeRune_width c t) as W.
  destruct (Z_lt_ge_dec (byte_code c) utf8.RuneSelf) as [L|G].
  - rewrite (DecodeRune_ascii c t L). constructor; [|apply IH].
    split; cbn [cell_raw cell_rune substring]; [discriminate|].
    intros _. rewrite byte_of_code. now destruct t.
  - apply Z.ge_le in G. pose proof (DecodeRune_high c t G) as D.
    destruct (utf8.DecodeRune (String c t)) as [r w]. cbn [fst snd] in *.
    constructor; [|apply IH].
    split; cbn [cell_raw cell_rune]; [|lia].
    destruct w as [|w]; [lia|]. discriminate.
Qed.

Lemma cells_ok (s : string) : Forall cell_ok (cells s).
Proof. apply cells_from_ok. Qed.

Lemma star_app (g : bool) (p : class) (inp m rest : list cell) :
  In (m, rest) (star g p inp) ->
  inp = (m ++ rest)%list /\ Forall (fun c => p (cell_rune c) = true) m.
Proof.
  revert m rest. induction inp as [|c t IH]; intros m rest H; cbn in H.
  - destruct H as [H|[]]. inversion H. now split.
  - destruct (p (cell_rune c)) eqn:Pc.
    + assert (H' : In (m, rest) (map (fun mr => (c :: fst mr, snd mr)) (star g p t))
                   \/ (m, rest) = ([], c :: t)).
      { destruct g; [apply in_app_or in H|]; cbn in H; intuition (auto; congruence). }
      destruct H' as [H'|H'].
      * apply in_map_iff in H'. destruct H' as ([m' r'] & E & I).
        cbn in E. inversion E; subst.
        destruct (IH _ _ I) as [-> F]. split; [reflexivity | now constructor].
      * inversion H'. now split.
    + destruct H as [H|[]]. inversion H. now split.
Qed.

Lemma run_concat_in (a b : syntax) (bot : bool) (inp : list cell) (cs : caps) (th : thread) :
  In th (run (OpConcat a b) bot inp cs) ->
  exists m1 r1 c1 m2 r2 c2,
    In (m1, r1, c1) (run a bot inp cs) /\
    In (m2, r2, c2) (run b (bot && is_nil m1) r1 c1) /\
    th = ((m1 ++ m2)%list, r2, c2).
Proof.
  cbn [run]. intros H. apply in_flat_map in H.
  destruct H as ([[m1 r1] c1] & I1 & H).
  apply in_map_iff in H. destruct H as ([[m2 r2] c2] & E & I2).
  exists m1, r1, c1, m2, r2, c2. now repeat split.
Qed.

Lemma run_capture_in (i : nat) (a : syntax) (bot : bool) (inp : list cell)
  (cs cs' : caps) (m rest : list cell) :
  In (m, rest, cs') (run (OpCapture i a) bot inp cs) ->
  exists c0, In (m, rest, c0) (run a bot inp cs) /\ cs' = setCap c0 i (raw m).
Proof.
  cbn [run]. intros H. apply in_map_iff in H.
  destruct H as ([[m0 r0] c0] & E & I). inversion E; subst.
  now exists c0.
Qed.

Lemma run_plus_in (g : bool) (p : class) (bot : bool) (inp : list cell)
  (cs cs' : caps) (m rest : list cell) :
  In (m, rest, cs') (run (OpPlus g p) bot inp cs) ->
  cs' = cs /\ inp = (m ++ rest)%list /\ m <> [] /\
  Forall (fun c => p (cell_rune c) = true) m.
Proof.
  cbn [run]. destruct inp as [|c t]; [intros []|].
  destruct (p (cell_rune c)) eqn:Pc; [|intros []].
  intros H. apply in_map_iff in H. destruct H as ([m' r'] & E & I).
  cbn in E. inversion E; subst.
  destruct (star_app _ _ _ _ _ I) as [-> F].
  repeat split; [discriminate | now constructor].
Qed.

(** What a way of matching consumed is a prefix of the text it started
    from. *)
Lemma run_app (r : syntax) (bot : bool) (inp : list cell) (cs cs' : caps)
  (m rest : list cell) :
  In (m, rest, cs') (run r bot inp cs) -> inp = (m ++ rest)%list.
Proof.
  revert bot inp cs cs' m rest.
  induction r as [| | p | a IHa b IHb | i a IHa | g p | g p | g p];
    intros bot inp cs cs' m rest H.
  - cbn in H. destruct H as [H|[]]. now inversion H.
  - cbn in H. destruct bot; [|destruct H]. destruct H as [H|[]]. now inversion H.
  - cbn in H. destruct inp as [|c t]; [destruct H|].
    destruct (p (cell_rune c)); [|destruct H].
    destruct H as [H|[]]. now inversion H.
  - apply run_concat_in in H.
    destruct H as (m1 & r1 & c1 & m2 & r2 & c2 & I1 & I2 & E).
    inversion E; subst.
    rewrite (IHa _ _ _ _ _ _ I1), (IHb _ _ _ _ _ _ I2).
    now rewrite app_assoc.
  - apply run_capture_in in H. destruct H as (c0 & I & _). eauto.
  - cbn in H. apply in_map_iff in H. destruct H as ([m' r'] & E & I).
    inversion E; subst. now apply star_app in I.
  - now apply run_plus_in in H.
  - cbn in H. destruct inp as [|c t].
    + destruct H as [H|[]]. now inversion H.
    + destruct (p (cell_rune c)); [destruct g|]; cbn in H;
        intuition (try match goal with E : (_, _, _) = (_, _, _) |- _ => now inversion E end).
Qed.

(** A pattern without groups leaves the captures as they are. *)
Lemma run_frame (r : syntax) (bot : bool) (inp : list cell) (cs cs' : caps)
  (m rest : list cell) :
  captureFree r = true ->
  In (m, rest, cs') (run r bot inp cs) -> cs' = cs.
Proof.
  revert bot inp cs cs' m rest.
  induction r as [| | p | a IHa b IHb | i a IHa | g p | g p | g p];
    intros bot inp cs cs' m rest F H.
  - cbn in H. destruct H as [H|[]]. now inversion H.
  - cbn in H. destruct bot; [|destruct H]. destruct H as [H|[]]. now inversion H.
  - cbn in H. destruct inp as [|c t]; [destruct H|].
    destruct (p (cell_rune c)); [|destruct H].
    destruct H as [H|[]]. now inversion H.
  - cbn in F. apply andb_true_iff in F. destruct F as [Fa Fb].
    apply run_concat_in in H.
    destruct H as (m1 & r1 & c1 & m2 & r2 & c2 & I1 & I2 & E).
    inversion E; subst.
    rewrite (IHb _ _ _ _ _ _ Fb I2). now apply (IHa _ _ _ _ _ _ Fa I1).
  - discriminate F.
  - cbn in H. apply in_map_iff in H. destruct H as ([m' r'] & E & I).
    now inversion E.
  - now apply run_plus_in in H.
  - cbn in H. destruct inp as [|c t].
    + destruct H as [H|[]]. now inversion H.
    + destruct (p (cell_rune c)); [destruct g|]; cbn in H;
        intuition (try match goal with E : (_, _, _) = (_, _, _) |- _ => now inversion E end).
Qed.

Lemma captureFree_literal (mk : ascii -> class) (s : string) :
  captureFree (literal mk s) = true.
Proof. induction s; cbn; auto. Qed.

(** The match that a search reports is a way of matching at some place of
    the text, the place where the search started exactly when it says so. *)
Lemma search_in (r : syntax) (bot : bool) (inp : list cell) (h : bool) (th : thread) :
  search r bot inp = Some (h, th) ->
  exists bot' pre inp',
    inp = (pre ++ inp')%list /\ In th (run r bot' inp' noCaps) /\
    (h = true <-> pre = []).
Proof.
  revert bot h. induction inp as [|c t IH]; intros bot h H; cbn [search] in H.
  - destruct (run r bot [] noCaps) as [|th' ths] eqn:E; [discriminate|].
    inversion H; subst. exists bot, [], []. rewrite E.
    split; [reflexivity|]. split; [now left | tauto].
  - destruct (run r bot (c :: t) noCaps) as [|th' ths] eqn:E.
    + destruct (search r false t) as [[h' th']|] eqn:S; [|discriminate].
      inversion H; subst.
      destruct (IH _ _ S) as (bot' & pre & inp' & -> & I & _).
      exists bot', (c :: pre), inp'.
      split; [reflexivity|]. split; [exact I|]. split; discriminate.
    + inversion H; subst. exists bot, [], (c :: t). rewrite E.
      split; [reflexivity|]. split; [now left | tauto].
Qed.

(** The loop of allMatches ends before its fuel does: every turn goes on
    with a shorter text, so any fuel above the length of the text gives
    the same matches. *)
Lemma allMatches_fuel (r : syntax) (f1 : nat) :
  forall f2 bot prevEnd inp,
    (List.length inp < f1)%nat -> (List.length inp < f2)%nat ->
    allMatches f1 r bot prevEnd inp = allMatches f2 r bot prevEnd inp.
Proof.
  induction f1 as [|f1 IH]; intros f2 bot prevEnd inp L1 L2; [lia|].
  destruct f2 as [|f2]; [lia|].
  cbn [allMatches].
  destruct (search r bot inp) as [[h [[m rest] cs]]|] eqn:S; [|reflexivity].
  apply search_in in S. destruct S as (bot' & pre & inp' & E & I & Hh).
  apply run_app in I.
  destruct (h && is_nil m) eqn:B.
  - destruct inp as [|c t]; [reflexivity|].
    f_equal. apply IH; cbn [List.length] in *; lia.
  - f_equal. apply IH.
    + assert (List.length rest < List.length inp)%nat; [|lia].
      subst inp inp'. rewrite !length_app.
      destruct h.
      * destruct m; [discriminate B | cbn [List.length]; lia].
      * destruct pre; [discriminate (proj2 Hh eq_refl) | cbn [List.length]; lia].
    + assert (List.length rest < List.length inp)%nat; [|lia].
      subst inp inp'. rewrite !length_app.
      destruct h.
      * destruct m; [discriminate B | cbn [List.length]; lia].
      * destruct pre; [discriminate (proj2 Hh eq_refl) | cbn [List.length]; lia].
Qed.

Lemma raw_not_empty (m : list cell) :
  m <> [] -> Forall cell_ok m -> raw m <> EmptyString.
Proof.
  destruct m as [|c m]; [contradiction|].
  intros _ F. inversion F as [|? ? [N _] _]; subst.
  cbn [raw]. destruct (cell_raw c); [contradiction | discriminate].
Qed.

Lemma run_concat_skip (a b : syntax) (bot : bool) (inp : list cell) (cs : caps) (th : thread) :
  captureFree a = true ->
  In th (run (OpConcat a b) bot inp cs) ->
  exists bot' m1 r1 m2 r2 c2,
    inp = (m1 ++ r1)%list /\
    In (m2, r2, c2) (run b bot' r1 cs) /\
    th = ((m1 ++ m2)%list, r2, c2).
Proof.
  intros F H. apply run_concat_in in H.
  destruct H as (m1 & r1 & c1 & m2 & r2 & c2 & I1 & I2 & E).
  pose proof (run_frame _ _ _ _ _ _ _ F I1). subst c1.
  apply run_app in I1.
  now exists (bot && is_nil m1), m1, r1, m2, r2, c2.
Qed.

Lemma run_concat_last (a b : syntax) (bot : bool) (inp : list cell) (cs cs' : caps)
  (m rest : list cell) :
  captureFree b = true ->
  In (m, rest, cs') (run (OpConcat a b) bot inp cs) ->
  exists m1 r1, In (m1, r1, cs') (run a bot inp cs).
Proof.
  intros F H. apply run_concat_in in H.
  destruct H as (m1 & r1 & c1 & m2 & r2 & c2 & I1 & I2 & E).
  inversion E; subst.
  pose proof (run_frame _ _ _ _ _ _ _ F I2). subst c2.
  now exists m1, r1.
Qed.

Lemma Forall_suffix {A} (P : A -> Prop) (pre l : list A) :
  Forall P (pre ++ l)%list -> Forall P l.
Proof. intros H. now apply Forall_app in H. Qed.

Lemma Forall_prefix {A} (P : A -> Prop) (l post : list A) :
  Forall P (l ++ post)%list -> Forall P l.
Proof. intros H. now apply Forall_app in H. Qed.

(** ** The path of the SDK script *)

(** Whenever scriptPathExpr matches, its group holds at least one byte. *)
Lemma scriptPathExpr_group (bot : bool) (inp : list cell) (cs0 cs : caps)
  (m rest : list cell) :
  Forall cell_ok inp ->
  In (m, rest, cs) (run scriptPathExpr bot inp cs0) ->
  exists v, cs 1%nat = Some v /\ v <> EmptyString.
Proof.
  intros Ok H. unfold scriptPathExpr in H. cbn [concat] in H.
  apply run_concat_skip in H; [|apply captureFree_literal].
  destruct H as (b1 & m1 & r1 & m2 & r2 & c2 & -> & H & E).
  inversion E; subst; clear E. apply Forall_suffix in Ok.
  apply run_concat_skip in H; [|reflexivity].
  destruct H as (b2 & m3 & r3 & m4 & r4 & c4 & -> & H & E).
  inversion E; subst; clear E. apply Forall_suffix in Ok.
  apply run_concat_skip in H; [|apply captureFree_literal].
  destruct H as (b3 & m5 & r5 & m6 & r6 & c6 & -> & H & E).
  inversion E; subst; clear E. apply Forall_suffix in Ok.
  apply run_concat_last in H;
    [|cbn [captureFree]; now rewrite captureFree_literal].
  destruct H as (m7 & r7 & H).
  apply run_capture_in in H. destruct H as (c0 & H & ->).
  apply run_plus_in in H. destruct H as (-> & -> & N & _).
  apply Forall_prefix in Ok.
  exists (raw m7). split; [reflexivity|].
  now apply raw_not_empty.
Qed.

Lemma NumSubexp_scriptPathExpr : NumSubexp scriptPathExpr = 1%nat.
Proof. reflexivity. Qed.

(** C10: the two versions of GetScriptPath agree on every input: ok is
    true exactly when the pattern matches, which is exactly when the
    other version returns a string that is not empty, and the two paths
    are the same. *)
Theorem GetScriptPath_versions_agree (src : string) :
  fst (script_path.GetScriptPath src) = Match scriptPathExpr src /\
  fst (script_path.GetScriptPath src) = negb (String.eqb (GetScriptPath src) EmptyString) /\
  snd (script_path.GetScriptPath src) = GetScriptPath src.
Proof.
  unfold script_path.GetScriptPath, GetScriptPath, FindSubmatch, Match.
  destruct (search scriptPathExpr true (cells src)) as [[h [[m rest] cs]]|] eqn:S.
  - apply search_in in S. destruct S as (bot' & pre & inp' & E & I & _).
    pose proof (cells_ok src) as Ok. rewrite E in Ok. apply Forall_suffix in Ok.
    destruct (scriptPathExpr_group _ _ _ _ _ _ Ok I) as (v & Hv & Nv).
    unfold submatches. rewrite NumSubexp_scriptPathExpr.
    cbn [seq map List.length nth]. rewrite Hv.
    replace (2 <=? Z.of_nat 2) with true by reflexivity.
    replace (Z.of_nat 2 <? 2) with false by reflexivity.
    cbn [fst snd].
    destruct (String.eqb_spec v EmptyString) as [->|_]; [contradiction|].
    auto.
  - cbn. auto.
Qed.

(** ** Parsing a run of digits *)

Lemma digitVal_digit (c : ascii) :
  48 <= byte_code c <= 57 -> strconv.digitVal c = Some (byte_code c - 48).
Proof.
  intros H. unfold strconv.digitVal.
  now replace (between 48 57 (byte_code c)) with true
    by (symmetry; now apply between_spec).
Qed.

(** On digits the loop of ParseUint never reports a syntax error. *)
Lemma parseDigits_digits (cutoff maxVal n : Z) (s : string) :
  allDigits s -> 0 <= n ->
  (exists v, 0 <= v /\ strconv.parseDigits 10 cutoff maxVal n s = (v, None)) \/
  strconv.parseDigits 10 cutoff maxVal n s = (maxVal, Some strconv.ErrRange).
Proof.
  revert n. induction s as [|c s IH]; intros n D Hn.
  - left. now exists n.
  - inversion D as [|? ? Dc Ds]; subst.
    cbn [strconv.parseDigits]. rewrite digitVal_digit by assumption.
    replace (10 <=? byte_code c - 48) with false by (symmetry; apply Z.leb_gt; lia).
    destruct (cutoff <=? n); [now right|].
    destruct (_ || _); [now right|].
    apply IH; [assumption|].
    apply Z.mod_pos_bound. lia.
Qed.

Lemma Atoi_digits (s : string) :
  s <> EmptyString -> allDigits s ->
  (exists v, 0 <= v /\ strconv.Atoi s = (v, None)) \/
  (exists v, strconv.Atoi s = (v, Some (NumError "Atoi" s strconv.ErrRange))).
Proof.
  intros N D. destruct s as [|c s]; [contradiction|].
  unfold strconv.Atoi, strconv.ParseIntAs.
  assert (Hc : 48 <= byte_code c <= 57) by now inversion D.
  assert (Ascii.eqb c "-" = false) as ->.
  { apply Ascii.eqb_neq. intros ->. cbn in Hc. lia. }
  assert (Ascii.eqb c "+" = false) as ->.
  { apply Ascii.eqb_neq. intros ->. cbn in Hc. lia. }
  cbn [orb negb andb].
  unfold strconv.ParseUint.
  destruct (parseDigits_digits ((2 ^ 64 - 1) / 10 + 1)
              (2 ^ (if 0 =? 0 then strconv.intSize else 0) - 1) 0 (String c s) D)
    as [(v & Hv & ->) | ->]; [lia | |].
  - destruct (_ <=? v); [right | left]; eauto.
  - right. eexists. reflexivity.
Qed.

Lemma raw_digits (m : list cell) :
  Forall cell_ok m -> Forall (fun c => digit (cell_rune c) = true) m ->
  allDigits (raw m).
Proof.
  induction m as [|c m IH]; intros Ok D; [constructor|].
  inversion Ok as [|? ? [_ A] Ok']; inversion D as [|? ? Dc D']; subst.
  unfold digit in Dc. apply between_spec in Dc.
  cbn [raw]. rewrite A by (unfold utf8.RuneSelf; lia).
  cbn [append]. unfold allDigits. cbn [bytes].
  constructor; [|now apply IH].
  unfold byte_of, byte_code. rewrite Z.mod_small by lia.
  rewrite N_ascii_embedding by lia. lia.
Qed.

(** ** The HTML variable of the pixel challenge *)

(** Whenever pixelHtmlExpr matches, its group holds digits, at least one. *)
Lemma pixelHtmlExpr_group (bot : bool) (inp : list cell) (cs0 cs : caps)
  (m rest : list cell) :
  Forall cell_ok inp ->
  In (m, rest, cs) (run pixelHtmlExpr bot inp cs0) ->
  exists v, cs 1%nat = Some v /\ v <> EmptyString /\ allDigits v.
Proof.
  intros Ok H. unfold pixelHtmlExpr in H. cbn [concat] in H.
  apply run_concat_skip in H; [|apply captureFree_literal].
  destruct H as (b1 & m1 & r1 & m2 & r2 & c2 & -> & H & E).
  inversion E; subst; clear E. apply Forall_suffix in Ok.
  apply run_concat_last in H;
    [|cbn [captureFree]; now rewrite captureFree_literal].
  destruct H as (m3 & r3 & H).
  apply run_capture_in in H. destruct H as (c0 & H & ->).
  apply run_plus_in in H. destruct H as (-> & -> & N & D).
  apply Forall_prefix in Ok.
  exists (raw m3). split; [reflexivity|].
  split; [now apply raw_not_empty | now apply raw_digits].
Qed.

Lemma NumSubexp_pixelHtmlExpr : NumSubexp pixelHtmlExpr = 1%nat.
Proof. reflexivity. Qed.

(** C6, as stated, fails on its second input: the pattern asks for
    digits, so [bazadebezolkohpepadr="a"] is no match at all, and the
    result is the plain not-found error, the same as for a page without
    the attribute, with no parse failure joined to it.  And an input
    that contains [bazadebezolkohpepadr="500"] after an earlier
    occurrence of the attribute gives the value of the earlier one. *)
Lemma GetPixelChallengeHtmlVar_malformed_counterexample :
  GetPixelChallengeHtmlVar invalidInput = (0, Some ErrPixelHtmlVarNotFound) /\
  GetPixelChallengeHtmlVar invalidInput = GetPixelChallengeHtmlVar EmptyString /\
  ~ (exists cause,
        snd (GetPixelChallengeHtmlVar invalidInput)
        = errors.Join [Some ErrPixelHtmlVarNotFound; Some cause]) /\
  GetPixelChallengeHtmlVar
    ("bazadebezolkohpepadr=" ++ q ++ "7" ++ q ++ " " ++ validInput) = (7, None).
Proof.
  split; [reflexivity|]. split; [reflexivity|]. split.
  - intros [cause H]. vm_compute in H. discriminate H.
  - vm_compute. reflexivity.
Qed.

(** ** The decoder of the hexadecimal escapes *)

Lemma range_forallb (P : Z -> bool) (lo : Z) (n : nat) :
  forallb P (range lo n) = true ->
  forall x, lo <= x < lo + Z.of_nat n -> P x = true.
Proof.
  intros H x Hx. rewrite forallb_forall in H. apply H.
  unfold range. apply in_map_iff. exists (Z.to_nat (x - lo)).
  split; [lia|]. apply in_seq. lia.
Qed.

Lemma string_app_assoc (a b c : string) : (a ++ b) ++ c = a ++ (b ++ c).
Proof. induction a as [|x a IH]; cbn; congruence. Qed.

Lemma string_app_nil_r (a : string) : a ++ EmptyString = a.
Proof. induction a as [|x a IH]; cbn; congruence. Qed.

Lemma hexCheck_all (x upper : bool) (r : Z) :
  0 <= r < 256 -> hexCheck x upper r = true.
Proof.
  intros H. apply (range_forallb (hexCheck x upper) 0 256); [|lia].
  destruct x, upper; vm_compute; reflexivity.
Qed.

(** Splitting after a part that holds no separator. *)
Lemma Split_app_without (sep : ascii) (p s : string) :
  without sep p = true ->
  strings.Split (p ++ s) sep
  = (p ++ hd EmptyString (strings.Split s sep)) :: tl (strings.Split s sep).
Proof.
  induction p as [|c p IH]; intros W.
  - cbn [append]. pose proof (Split_not_nil s sep).
    now destruct (strings.Split s sep).
  - cbn [without] in W. apply andb_true_iff in W. destruct W as [Wc Wp].
    apply negb_true_iff in Wc.
    cbn [append strings.Split]. rewrite Wc, (IH Wp). reflexivity.
Qed.

Lemma Split_hexEscape (x upper : bool) (rs : list Z) :
  Forall (fun r => 0 <= r < 256) rs ->
  strings.Split (hexEscape x upper rs) backslash
  = EmptyString :: map (hexPart x upper) rs.
Proof.
  induction rs as [|r rs IH]; intros F; [reflexivity|].
  inversion F as [|? ? Hr F']; subst.
  pose proof (hexCheck_all x upper r Hr) as C. unfold hexCheck in C.
  apply andb_true_iff in C. destruct C as [W _].
  cbn [hexEscape hexEscapeRune append strings.Split map].
  rewrite Ascii.eqb_refl.
  rewrite (Split_app_without _ _ _ W), (IH F').
  cbn [hd tl]. now rewrite string_app_nil_r.
Qed.

Lemma rune_of_int64_small (r : Z) : 0 <= r < 256 -> utf8.rune_of_int64 r = r.
Proof.
  intros H. unfold utf8.rune_of_int64. rewrite Z.mod_small; lia.
Qed.

Lemma decodeParts_hexParts (x upper : bool) (rs : list Z) (builder : string) :
  Forall (fun r => 0 <= r < 256) rs ->
  internal.decodeParts (map (hexPart x upper) rs) builder
  = (builder ++ utf8.EncodeRunes rs, None).
Proof.
  revert builder. induction rs as [|r rs IH]; intros builder F.
  - cbn. now rewrite string_app_nil_r.
  - inversion F as [|? ? Hr F']; subst.
    pose proof (hexCheck_all x upper r Hr) as C. unfold hexCheck in C.
    apply andb_true_iff in C. destruct C as [_ C].
    cbn [map internal.decodeParts].
    destruct (strconv.ParseInt _ 16 64) as [v [e|]]; [discriminate|].
    apply Z.eqb_eq in C. subst v.
    rewrite rune_of_int64_small by assumption.
    rewrite (IH _ F'). cbn [utf8.EncodeRunes]. now rewrite string_app_assoc.
Qed.

(** The round trip on a sequence of characters: the decoder gives back
    the string made of these characters. *)
Lemma FromHexString_hexEscape (x upper : bool) (rs : list Z) :
  Forall (fun r => 0 <= r < 256) rs ->
  internal.FromHexString (hexEscape x upper rs) = (utf8.EncodeRunes rs, None).
Proof.
  intros F. unfold internal.FromHexString.
  rewrite Split_hexEscape by assumption. cbn [tl].
  now rewrite decodeParts_hexParts.
Qed.

(** The characters of a string, encoded again, are the string. *)

Lemma twoByteCheck_all (b0 b1 : Z) :
  194 <= b0 <= 223 -> 128 <= b1 <= 191 -> twoByteCheck b0 b1 = true.
Proof.
  intros H0 H1.
  apply (range_forallb (fun y => twoByteCheck b0 y) 128 64); [|lia].
  apply (range_forallb (fun x => forallb (fun y => twoByteCheck x y) (range 128 64)) 194 30);
    [vm_compute; reflexivity | lia].
Qed.

Lemma EncodeRune_ascii (c : ascii) :
  byte_code c < utf8.RuneSelf -> utf8.EncodeRune (byte_code c) = String c EmptyString.
Proof.
  intros H. pose proof (byte_code_range c) as B. unfold utf8.RuneSelf in H.
  unfold utf8.EncodeRune. rewrite Z.mod_small by lia.
  replace (byte_code c <=? 127) with true by (symmetry; apply Z.leb_le; lia).
  now rewrite byte_of_code.
Qed.

Lemma cells_from_encode (s : string) (k : nat) :
  Forall (fun c => cell_rune c < 256 -> utf8.EncodeRune (cell_rune c) = cell_raw c)
         (cells_from k s).
Proof.
  revert k. induction s as [|c t IH]; intros k; [constructor|].
  destruct k as [|k]; [|apply IH].
  cbn [cells_from].
  destruct (Z_lt_ge_dec (byte_code c) utf8.RuneSelf) as [L|G].
  - rewrite (DecodeRune_ascii c t L). constructor; [|apply IH].
    cbn [cell_rune cell_raw substring]. intros _.
    rewrite EncodeRune_ascii by assumption. now destruct t.
  - apply Z.ge_le in G.
    destruct (DecodeRune_high_cases c t G) as [D | (c1 & t1 & -> & R0 & R1 & ->)].
    + destruct (utf8.DecodeRune (String c t)) as [r w]. cbn [fst] in D.
      constructor; [|apply IH]. cbn [cell_rune]. lia.
    + constructor; [|apply IH].
      cbn [cell_rune cell_raw substring]. intros _.
      pose proof (twoByteCheck_all _ _ R0 R1) as C.
      unfold twoByteCheck in C. apply String.eqb_eq in C.
      rewrite C, !byte_of_code. now destruct t1.
Qed.

Lemma take_drop (n : nat) (s : string) :
  substring 0 n s ++ substring n (length s - n) s = s.
Proof.
  revert n. induction s as [|c s IH]; intros n.
  - now destruct n.
  - destruct n as [|n]; cbn [substring length Nat.sub append].
    + now rewrite substring_all_from.
    + now rewrite IH.
Qed.

Lemma substring_cons_width (w : nat) (c : ascii) (t : string) :
  (1 <= w)%nat ->
  substring 0 w (String c t) = String c (substring 0 (Nat.pred w) t).
Proof. destruct w; [lia | reflexivity]. Qed.

(** The cells of a text cut it into pieces: put together again, their
    bytes are the text. *)
Lemma raw_cells_from (s : string) (k : nat) :
  raw (cells_from k s) = substring k (length s - k) s.
Proof.
  revert k. induction s as [|c t IH]; intros k; [now destruct k|].
  destruct k as [|k]; [|apply IH].
  cbn [cells_from].
  pose proof (DecodeRune_width c t) as W.
  destruct (utf8.DecodeRune (String c t)) as [r w]. cbn [snd] in W.
  cbn [raw cell_raw]. rewrite IH, substring_cons_width by assumption.
  cbn [append length Nat.sub substring].
  now rewrite take_drop, substring_all_from.
Qed.

Lemma raw_cells (s : string) : raw (cells s) = s.
Proof.
  unfold cells. rewrite raw_cells_from, Nat.sub_0_r.
  destruct s as [|c s]; [reflexivity|].
  cbn [substring length]. now rewrite substring_all_from.
Qed.

Lemma EncodeRunes_runes (s : string) :
  Forall (fun r => r < 256) (runes s) -> utf8.EncodeRunes (runes s) = s.
Proof.
  intros F. rewrite <- (raw_cells s) at 2.
  unfold runes in *. pose proof (cells_from_encode s 0) as E. fold (cells s) in E.
  induction (cells s) as [|c cs IH]; [reflexivity|].
  inversion F; inversion E; subst.
  cbn [map utf8.EncodeRunes raw]. f_equal; auto.
Qed.

Lemma cells_from_nonneg (s : string) (k : nat) :
  Forall (fun c => 0 <= cell_rune c) (cells_from k s).
Proof.
  revert k. induction s as [|c t IH]; intros k; [constructor|].
  destruct k as [|k]; [|apply IH].
  cbn [cells_from].
  destruct (Z_lt_ge_dec (byte_code c) utf8.RuneSelf) as [L|G].
  - rewrite (DecodeRune_ascii c t L). constructor; [|apply IH].
    cbn. pose proof (byte_code_range c). lia.
  - apply Z.ge_le in G. pose proof (DecodeRune_high c t G) as D.
    destruct (utf8.DecodeRune (String c t)) as [r w]. cbn [fst] in D.
    constructor; [|apply IH]. cbn. unfold utf8.RuneSelf in D. lia.
Qed.

(** C5: the round trip.  For every string whose characters all have a
    code of two hexadecimal digits, writing each character as a backslash
    and the two digits of its code (with or without the letter x after
    the backslash, in upper or in lower case) and decoding the result
    with FromHexString gives back the string, and no error. *)
Theorem FromHexString_roundtrip (x upper : bool) (s : string) :
  Forall (fun r => r < 256) (runes s) ->
  internal.FromHexString (hexEscape x upper (runes s)) = (s, None).
Proof.
  intros F. rewrite FromHexString_hexEscape.
  - now rewrite EncodeRunes_runes.
  - pose proof (cells_from_nonneg s 0) as P. fold (cells s) in P.
    unfold runes in *. rewrite Forall_map in *.
    rewrite Forall_forall in *. intros c I. split; [apply P | apply F]; exact I.
Qed.

Lemma FromHexString_roundtrip_witness :
  internal.FromHexString "\x63\x61\x66\xe9\x2f\x31" = ("café/1", None).
Proof.
  apply (FromHexString_roundtrip true false "café/1").
  vm_compute. repeat constructor.
Defined.

(** Read on bytes instead of characters the round trip would stop at
    0x80: the decoder writes the code back as a rune, of two bytes. *)
Example FromHexString_high_byte :
  bytes (fst (internal.FromHexString "\xe9")) = [195; 169].
Proof. vm_compute. reflexivity. Qed.

(** ** Runs of Generate *)

Lemma runs_Panic (msg : string) (tr : list call) (res : result) :
  runs (Ret (Panic msg)) tr res <-> tr = [] /\ res = Panicked msg.
Proof.
  unfold runs. split.
  - intros (tr0 & o & [-> ->] & H). exact H.
  - intros [-> ->]. exists [], (Panic msg). cbn. auto.
Qed.

Lemma runs_Return (err : option error) (tr : list call) (res : result) :
  runs (Ret (Return err)) tr res <-> tr = [] /\ res = Returned err.
Proof.
  unfold runs. split.
  - intros (tr0 & o & [-> ->] & H). exact H.
  - intros [-> ->]. exists [], (Return err). cbn. auto.
Qed.

Section Validation.

Variable url_Parse : string -> url.URL + error.
Variables userAgent pageUrl : string.

(** X21: Generate panics when doHttpReq is nil, when getCookie is nil
    and when maxTries is not positive; otherwise it returns the error of
    url.Parse when the page URL does not parse, and ErrInvalidPageURL
    when it parses to a URL for which IsAbs is false, one without a
    scheme.  In each of these cases the run of the call is empty: no
    request was made. *)
Theorem Generate_validation (doHttpReq getCookie : funcValue) (maxTries : Z) :
  let g := Generate url_Parse userAgent pageUrl doHttpReq getCookie maxTries in
  (doHttpReq = nilFunc \/ getCookie = nilFunc \/ maxTries <= 0 ->
   exists msg, forall tr res, runs g tr res <-> tr = [] /\ res = Panicked msg) /\
  (doHttpReq = someFunc -> getCookie = someFunc -> 0 < maxTries ->
   (forall e, url_Parse pageUrl = inr e ->
              forall tr res, runs g tr res <-> tr = [] /\ res = Returned (Some e)) /\
   (forall u, url_Parse pageUrl = inl u -> url.IsAbs u = false ->
              forall tr res,
                runs g tr res <-> tr = [] /\ res = Returned (Some ErrInvalidPageURL))).
Proof.
  cbn zeta. unfold Generate. split.
  - intros V.
    destruct doHttpReq; cbn [isNil];
      [eexists; intros; apply runs_Panic|].
    destruct getCookie; cbn [isNil];
      [eexists; intros; apply runs_Panic|].
    destruct V as [V | [V | V]]; try discriminate.
    replace (maxTries <=? 0) with true by (symmetry; now apply Z.leb_le).
    eexists; intros; apply runs_Panic.
  - intros -> -> M. cbn [isNil].
    replace (maxTries <=? 0) with false by (symmetry; apply Z.leb_gt; lia).
    split.
    + intros e ->. intros. apply runs_Return.
    + intros u -> ->. cbn [negb]. intros. apply runs_Return.
Qed.

(** C8: when the GET of the page fails, or answers with a status other
    than 200, Generate returns at once: the request is the only call of
    the run, and the result joins HttpOpError{Op: OpGetPage} with the
    cause, the error of the request or a BadStatusCodeError with the
    status. *)
Theorem Generate_page_fetch_fatal (u : url.URL) (maxTries : Z) :
  url_Parse pageUrl = inl u -> url.IsAbs u = true -> 0 < maxTries ->
  let g := Generate url_Parse userAgent pageUrl someFunc someFunc maxTries in
  (forall tr res,
      runs g tr res ->
      exists statusCode body err rest,
        tr = HttpCall OpGetPage pageUrl MethodGet None (statusCode, body, err) :: rest /\
        (forall e, err = Some e ->
                   rest = [] /\
                   res = Returned (Some (joinError [HttpOpError OpGetPage; e]))) /\
        (err = None -> statusCode <> StatusOK ->
         rest = [] /\
         res = Returned (Some (joinError [HttpOpError OpGetPage;
                                          BadStatusCodeError statusCode])))) /\
  (forall statusCode body e,
      runs g [HttpCall OpGetPage pageUrl MethodGet None (statusCode, body, Some e)]
           (Returned (Some (joinError [HttpOpError OpGetPage; e])))) /\
  (forall statusCode body,
      statusCode <> StatusOK ->
      runs g [HttpCall OpGetPage pageUrl MethodGet None (statusCode, body, None)]
           (Returned (Some (joinError [HttpOpError OpGetPage;
                                       BadStatusCodeError statusCode])))).
Proof.
  intros P A M. cbn zeta. unfold Generate. cbn [isNil].
  replace (maxTries <=? 0) with false by (symmetry; apply Z.leb_gt; lia).
  rewrite P, A. cbn [negb].
  split; [|split].
  - intros tr res (tr0 & o & E & H).
    cbn in E. destruct E as ([[statusCode body] err] & tr' & -> & E).
    exists statusCode, body, err.
    destruct err as [e|].
    + cbn in E. destruct E as [-> ->]. destruct H as [-> ->].
      exists []. split; [reflexivity|]. split.
      * intros e' [= <-]. auto.
      * discriminate.
    + destruct (statusCode =? StatusOK) eqn:S; cbn in E; destruct E as [-> ->].
      * apply Z.eqb_eq in S.
        destruct H as (tp & ts & ti & _ & _ & _ & -> & _).
        exists ti. split; [reflexivity|]. split; [discriminate | contradiction].
      * destruct H as [-> ->].
        exists []. split; [reflexivity|]. split; [discriminate | auto].
  - intros statusCode body e.
    exists [HttpCall OpGetPage pageUrl MethodGet None (statusCode, body, Some e)],
      (Return (errors.Join [Some (HttpOpError OpGetPage); Some e])).
    split; [|now split].
    cbn. exists (statusCode, body, Some e), []. cbn. auto.
  - intros statusCode body S.
    exists [HttpCall OpGetPage pageUrl MethodGet None (statusCode, body, None)],
      (Return (errors.Join [Some (HttpOpError OpGetPage);
                            Some (BadStatusCodeError statusCode)])).
    split; [|now split].
    cbn. exists (statusCode, body, None), [].
    split; [reflexivity|]. cbn.
    apply Z.eqb_neq in S. rewrite S. cbn. auto.
Qed.

(** When the page is fetched with status 200, the two goroutines start
    on its body. *)
Lemma Generate_fork (u : url.URL) (maxTries : Z) (pageBody : string) :
  url_Parse pageUrl = inl u -> url.IsAbs u = true -> 0 < maxTries ->
  exec (Generate url_Parse userAgent pageUrl someFunc someFunc maxTries)
       [HttpCall OpGetPage pageUrl MethodGet None (StatusOK, pageBody, None)]
       (Fork (pixelBranch userAgent pageBody)
             (sensorBranch userAgent pageUrl u maxTries pageBody)).
Proof.
  intros P A M. unfold Generate. cbn [isNil].
  replace (maxTries <=? 0) with false by (symmetry; apply Z.leb_gt; lia).
  rewrite P, A. cbn.
  exists (StatusOK, pageBody, None), []. cbn. auto.
Qed.

(** X10: on a page without the pixel challenge and without the SDK
    script the call succeeds, and the GET of the page is its only call. *)
Lemma Generate_plain_page (u : url.URL) (maxTries : Z) (pageBody : string) :
  url_Parse pageUrl = inl u -> url.IsAbs u = true -> 0 < maxTries ->
  fst (fst (GetPixelChallengeScriptURL pageBody)) = false ->
  GetScriptPath pageBody = EmptyString ->
  forall tr res,
    runs (Generate url_Parse userAgent pageUrl someFunc someFunc maxTries) tr res ->
    hd_error tr = Some (HttpCall OpGetPage pageUrl MethodGet None (StatusOK, pageBody, None)) ->
    tl tr = [] /\ res = Returned None.
Proof.
  intros P A M NoPixel NoScript tr res (tr0 & o & E & H) Hd.
  unfold Generate in E. cbn [isNil] in E.
  replace (maxTries <=? 0) with false in E by (symmetry; apply Z.leb_gt; lia).
  rewrite P, A in E. cbn in E.
  destruct E as ([[st body] err] & tr' & -> & E).
  destruct err as [e|].
  - cbn in E. destruct E as [-> ->]. destruct H as [-> _]. cbn in Hd. discriminate Hd.
  - destruct (st =? StatusOK) eqn:S; cbn in E; destruct E as [-> ->].
    + destruct H as (tp & ts & ti & Ep & Es & Il & -> & ->).
      cbn in Hd. inversion Hd; subst. clear Hd.
      unfold pixelBranch in Ep.
      destruct (GetPixelChallengeScriptURL pageBody) as [[ok su] pu].
      cbn in NoPixel. subst ok. cbn in Ep. destruct Ep as [-> _].
      unfold sensorBranch in Es. rewrite NoScript in Es. cbn in Es.
      destruct Es as [-> _].
      inversion Il; subst. auto.
    + destruct H as [-> _]. cbn in Hd. inversion Hd; subst.
      apply Z.eqb_neq in S. contradiction.
Qed.

End Validation.

Lemma Generate_validation_witness :
  (exists msg, forall tr res,
      runs (Generate sampleParse "Mozilla/5.0" "https://www.very.co.uk/" nilFunc someFunc 2)
           tr res <-> tr = [] /\ res = Panicked msg) /\
  (forall tr res,
      runs (Generate sampleParse "Mozilla/5.0" "%" someFunc someFunc 2) tr res
      <-> tr = [] /\ res = Returned (Some (errorString "parse: invalid URL escape"))) /\
  (forall tr res,
      runs (Generate sampleParse "Mozilla/5.0" "/index.html" someFunc someFunc 2) tr res
      <-> tr = [] /\ res = Returned (Some ErrInvalidPageURL)).
Proof.
  split; [|split].
  - apply (Generate_validation sampleParse "Mozilla/5.0" "https://www.very.co.uk/"
             nilFunc someFunc 2).
    left. reflexivity.
  - apply (Generate_validation sampleParse "Mozilla/5.0" "%" someFunc someFunc 2);
      [reflexivity | reflexivity | lia | reflexivity].
  - apply (Generate_validation sampleParse "Mozilla/5.0" "/index.html" someFunc someFunc 2)
      with (u := url.mk EmptyString EmptyString);
      [reflexivity | reflexivity | lia | reflexivity | reflexivity].
Defined.

Lemma Generate_page_fetch_fatal_witness :
  runs (Generate sampleParse "Mozilla/5.0" "https://www.very.co.uk/" someFunc someFunc 2)
       [HttpCall OpGetPage "https://www.very.co.uk/" MethodGet None (403, "denied", None)]
       (Returned (Some (joinError [HttpOpError OpGetPage; BadStatusCodeError 403]))).
Proof.
  apply (Generate_page_fetch_fatal sampleParse "Mozilla/5.0" "https://www.very.co.uk/"
           (url.mk "https" "www.very.co.uk/") 2);
    [reflexivity | reflexivity | lia | discriminate].
Defined.

(** ** The pixel branch *)

Lemma Forall_middle {A} (P : A -> Prop) (l pre post : list A) (x : A) :
  Forall P l -> l = (pre ++ x :: post)%list -> P x.
Proof.
  intros F ->. apply Forall_app in F. destruct F as [_ F]. now inversion F.
Qed.

Lemma exec_addError (e : error) (tr : list call) :
  exec (addError e) tr tt <-> tr = [ErrorAdded e].
Proof.
  cbn. split.
  - intros (r & tr' & -> & -> & _). reflexivity.
  - intros ->. exists tt, []. auto.
Qed.

(** After the script is fetched the branch does not fetch it again. *)
Lemma pixel_after_fetch (ua : string) (htmlVar : Z) (postUrl : string)
  (r : Z * string * option error) (tr : list call) :
  exec
    (let '(statusCode, scriptBody, err) := r in
     match err with
     | Some e => addError e
     | None =>
         let (scriptVar, err) := GetPixelChallengeScriptVar scriptBody in
         match err with
         | Some e => addError e
         | None =>
             response <- trigger (GeneratePixelPayload
                           (PixelSolveRequest.mk ua htmlVar scriptVar)) ;;
             match response with
             | inr e => addError e
             | inl response =>
                 '(_, _, err) <-
                   trigger (DoHttpReq OpPostPixelPayload postUrl MethodPost
                              (Some (PixelSolveResponse.Payload response))) ;;
                 match err with
                 | Some e => addError e
                 | None => Ret tt
                 end
             end
         end
     end) tr tt ->
  Forall notScriptFetch tr.
Proof.
  destruct r as [[statusCode scriptBody] [e|]].
  - intros E. apply exec_addError in E. subst. repeat constructor.
  - destruct (GetPixelChallengeScriptVar scriptBody) as [scriptVar [e|]].
    + intros E. apply exec_addError in E. subst. repeat constructor.
    + cbn. intros (resp & tr1 & -> & E).
      constructor; [exact I|].
      destruct resp as [resp|e].
      * destruct E as ([[s1 b1] e1] & tr2 & -> & E).
        constructor; [cbn; discriminate|].
        destruct e1 as [e1|].
        -- destruct E as (r & tr' & -> & -> & _). repeat constructor.
        -- destruct E as [-> _]. constructor.
      * destruct E as (r & tr' & -> & -> & _). repeat constructor.
Qed.

(** C2: in the pixel branch, when the GET of the challenge script is
    answered with status 404 and no error, the branch ends there: the
    request is the last call of the run and no error was appended.  When
    it is answered with any other status than 200, the branch appends a
    BadStatusCodeError with the status and ends.  On a page with the
    challenge and its HTML variable both runs exist. *)
Theorem pixelBranch_script_status (ua pageBody : string) :
  (forall tr,
      exec (pixelBranch ua pageBody) tr tt ->
      forall pre requestUrl requestMethod requestBody statusCode body post,
        tr = (pre ++ HttpCall OpGetPixelChallengeScript requestUrl requestMethod
                       requestBody (statusCode, body, None) :: post)%list ->
        (statusCode = StatusNotFound -> post = [] /\ collected tr = []) /\
        (statusCode <> StatusOK -> statusCode <> StatusNotFound ->
         post = [ErrorAdded (BadStatusCodeError statusCode)] /\
         collected tr = [BadStatusCodeError statusCode])) /\
  (forall scriptUrl postUrl htmlVar,
      GetPixelChallengeScriptURL pageBody = (true, scriptUrl, postUrl) ->
      GetPixelChallengeHtmlVar pageBody = (htmlVar, None) ->
      forall body,
        exec (pixelBranch ua pageBody)
             [HttpCall OpGetPixelChallengeScript scriptUrl MethodGet None
                (StatusNotFound, body, None)] tt /\
        (forall statusCode,
            statusCode <> StatusOK -> statusCode <> StatusNotFound ->
            exec (pixelBranch ua pageBody)
                 [HttpCall OpGetPixelChallengeScript scriptUrl MethodGet None
                    (statusCode, body, None);
                  ErrorAdded (BadStatusCodeError statusCode)] tt)).
Proof.
  split.
  - intros tr. unfold pixelBranch.
    destruct (GetPixelChallengeScriptURL pageBody) as [[ok scriptUrl] postUrl].
    destruct ok; cbn [negb].
    + destruct (GetPixelChallengeHtmlVar pageBody) as [htmlVar [e|]].
      * intros E. apply exec_addError in E. subst.
        intros pre url m b statusCode body post D.
        destruct pre as [|c [|c' pre]]; discriminate D.
      * cbn. intros ([[st' body'] err'] & tr' & -> & E).
        intros pre url m b statusCode body post D.
        destruct pre as [|c pre].
        -- cbn in D. inversion D; subst. clear D.
           split.
           ++ intros ->. cbn in E. destruct E as [-> _]. auto.
           ++ intros N1 N2.
              apply Z.eqb_neq in N1, N2. rewrite N1, N2 in E. cbn [negb] in E.
              apply exec_addError in E. subst. auto.
        -- exfalso. cbn in D. inversion D; subst. clear D.
           assert (F : Forall notScriptFetch
                         (pre ++ HttpCall OpGetPixelChallengeScript url m b
                                   (statusCode, body, None) :: post)).
           { destruct err' as [e'|].
             - apply exec_addError in E. rewrite E. repeat constructor.
             - destruct (negb (st' =? StatusOK)) eqn:S.
               + destruct (st' =? StatusNotFound).
                 * destruct E as [-> _]. constructor.
                 * apply exec_addError in E. rewrite E. repeat constructor.
               + apply (pixel_after_fetch ua htmlVar postUrl (st', body', None)).
                 exact E. }
           apply (Forall_middle _ _ _ _ _ F eq_refl). reflexivity.
    + cbn. intros [-> _] pre url m b statusCode body post D.
      destruct pre; discriminate D.
  - intros scriptUrl postUrl htmlVar U V body. unfold pixelBranch. rewrite U, V.
    cbn [negb]. split.
    + cbn. exists (StatusNotFound, body, None), []. cbn. auto.
    + intros statusCode N1 N2. cbn.
      exists (statusCode, body, None), [ErrorAdded (BadStatusCodeError statusCode)].
      split; [reflexivity|].
      apply Z.eqb_neq in N1, N2. rewrite N1, N2. cbn [negb].
      now apply exec_addError.
Qed.

Lemma pixelBranch_script_status_witness :
  exec (pixelBranch "Mozilla/5.0" pixelPage)
       [HttpCall OpGetPixelChallengeScript "https://x.example/akam/12/abcDEF" MethodGet None
          (StatusNotFound, EmptyString, None)] tt /\
  (@nil call = [] /\ collected
     [HttpCall OpGetPixelChallengeScript "https://x.example/akam/12/abcDEF" MethodGet None
        (StatusNotFound, EmptyString, None)] = []).
Proof.
  assert (U : GetPixelChallengeScriptURL pixelPage
              = (true, "https://x.example/akam/12/abcDEF",
                 "https://x.example/akam/12/pixel_abcDEF"))
    by (vm_compute; reflexivity).
  assert (V : GetPixelChallengeHtmlVar pixelPage = (500, None))
    by (vm_compute; reflexivity).
  pose proof (proj2 (pixelBranch_script_status "Mozilla/5.0" pixelPage) _ _ _ U V EmptyString)
    as [E _].
  split; [exact E|].
  pose proof (proj1 (pixelBranch_script_status "Mozilla/5.0" pixelPage) _ E
                [] _ _ _ _ _ [] eq_refl) as [H _].
  exact (H eq_refl).
Defined.

(** ** The sensor branch *)

Lemma sensorLoop_posts (ua pageUrl : string) (u : url.URL)
  (scriptUrl : string) (version : Version) (scriptValues : string) (n : nat) :
  forall i tr prev,
    exec (sensorLoop ua pageUrl u scriptUrl version scriptValues n i) tr tt ->
    postsVerbatim scriptUrl prev tr.
Proof.
  induction n as [|n IH]; intros i tr prev E.
  - cbn in E. destruct E as [-> _]. exact I.
  - cbn [sensorLoop] in E. cbn in E.
    destruct E as (abck & tr1 & -> & E).
    split; [exact I|].
    destruct (String.eqb version Version2); cbn in E.
    + destruct E as (bmSz & tr2 & -> & E). split; [exact I|].
      destruct E as (resp & tr3 & -> & E). split; [exact I|].
      destruct resp as [resp|e].
      * destruct E as ([[st b] err] & tr4 & -> & E).
        split;
          [intros _;
           now exists (GenerateRequest.mk ua version pageUrl abck bmSz scriptValues), resp|].
        destruct err as [e|].
        -- apply exec_addError in E. subst. cbn. auto.
        -- destruct E as (abck' & tr5 & -> & E). split; [exact I|].
           destruct (IsCookieValid abck' i).
           ++ destruct E as [-> _]. exact I.
           ++ now apply (IH (i + 1)).
      * apply exec_addError in E. subst. cbn. auto.
    + destruct E as (resp & tr3 & -> & E). split; [exact I|].
      destruct resp as [resp|e].
      * destruct E as ([[st b] err] & tr4 & -> & E).
        split;
          [intros _;
           now exists (GenerateRequest.mk ua version pageUrl abck EmptyString scriptValues),
             resp|].
        destruct err as [e|].
        -- apply exec_addError in E. subst. cbn. auto.
        -- destruct E as (abck' & tr5 & -> & E). split; [exact I|].
           destruct (IsCookieValid abck' i).
           ++ destruct E as [-> _]. exact I.
           ++ now apply (IH (i + 1)).
      * apply exec_addError in E. subst. cbn. auto.
Qed.

Lemma postsVerbatim_middle (scriptUrl : string) (pre : list call) :
  forall prev tr requestUrl requestMethod requestBody answer post,
    postsVerbatim scriptUrl prev tr ->
    tr = (pre ++ HttpCall OpPostSensorData requestUrl requestMethod requestBody answer
              :: post)%list ->
    exists req resp,
      ((pre = [] /\ prev = Some (SensorDataCall req (inl resp))) \/
       (exists pre', pre = (pre' ++ [SensorDataCall req (inl resp)])%list)) /\
      requestUrl = scriptUrl /\ requestMethod = MethodPost /\
      requestBody = Some (sensorBody (GenerateResponse.Payload resp)).
Proof.
  induction pre as [|c pre IH]; intros prev tr url m b ans post V ->.
  - cbn in V. destruct V as [V _].
    destruct (V eq_refl) as (req & resp & P & R).
    exists req, resp. auto.
  - cbn [app postsVerbatim] in V. destruct V as [_ V].
    destruct (IH _ _ _ _ _ _ _ V eq_refl) as (req & resp & L & R).
    exists req, resp. split; [|exact R]. right.
    destruct L as [[-> [= ->]] | (pre' & ->)].
    + now exists [].
    + now exists (c :: pre').
Qed.

Lemma sensorBranch_posts (ua pageUrl : string) (u : url.URL) (maxTries : Z)
  (pageBody : string) (tr : list call) :
  exec (sensorBranch ua pageUrl u maxTries pageBody) tr tt ->
  postsVerbatim (url.Scheme u ++ "://" ++ url.Host u ++ GetScriptPath pageBody) None tr.
Proof.
  unfold sensorBranch.
  destruct (String.eqb (GetScriptPath pageBody) EmptyString).
  - cbn. intros [-> _]. exact I.
  - cbn. intros ([[st body] err] & tr1 & -> & E).
    split; [discriminate|].
    destruct err as [e|].
    + apply exec_addError in E. subst. cbn. auto.
    + destruct (negb (st =? StatusOK)).
      * apply exec_addError in E. subst. cbn. auto.
      * destruct (String.eqb (GetSdkVersion body) Version2 && negb (IsScriptStatic body)).
        -- cbn in E. destruct E as (resp & tr2 & -> & E). split; [exact I|].
           destruct resp as [resp|e].
           ++ now apply (sensorLoop_posts _ _ _ _ _ _ _ _ _
                           (Some (ScriptValuesCall body (inl resp)))) in E.
           ++ apply exec_addError in E. subst. cbn. auto.
        -- now apply (sensorLoop_posts _ _ _ _ _ _ _ _ _
                        (Some (HttpCall OpGetSdkScript
                                 (url.Scheme u ++ "://" ++ url.Host u ++ GetScriptPath pageBody)
                                 MethodGet None (st, body, None)))) in E.
Qed.

(** The template of the body: sixteen bytes (an opening brace, the key
    sensor_data between double quotes, a colon, a double quote), the
    payload as it is, and two bytes (a double quote, a closing brace). *)
Lemma sensorBody_bytes (payload : string) :
  bytes (sensorBody payload) =
  ([123; 34; 115; 101; 110; 115; 111; 114; 95; 100; 97; 116; 97; 34; 58; 34]
     ++ bytes payload ++ [34; 125])%list.
Proof.
  unfold sensorBody. cbn [q append bytes app]. do 16 f_equal.
  induction payload as [|c p IH]; [reflexivity|].
  cbn [append bytes app]. now rewrite IH.
Qed.

(** C3: in every run of the sensor branch, each POST of sensor data
    comes right after an answer of the remote API to GenerateSensorData,
    goes to the script URL, and its body is that answer's payload, byte
    for byte, between the sixteen bytes that open the template and the
    two that close it: nothing in the payload is escaped or encoded. *)
Theorem sensorBranch_post_body (ua pageUrl : string) (u : url.URL) (maxTries : Z)
  (pageBody : string) (tr : list call) :
  exec (sensorBranch ua pageUrl u maxTries pageBody) tr tt ->
  forall pre requestUrl requestMethod requestBody answer post,
    tr = (pre ++ HttpCall OpPostSensorData requestUrl requestMethod requestBody answer
              :: post)%list ->
    exists pre' req resp body,
      pre = (pre' ++ [SensorDataCall req (inl resp)])%list /\
      requestUrl = url.Scheme u ++ "://" ++ url.Host u ++ GetScriptPath pageBody /\
      requestMethod = MethodPost /\
      requestBody = Some body /\
      body = sensorBody (GenerateResponse.Payload resp) /\
      bytes body =
      ([123; 34; 115; 101; 110; 115; 111; 114; 95; 100; 97; 116; 97; 34; 58; 34]
         ++ bytes (GenerateResponse.Payload resp) ++ [34; 125])%list.
Proof.
  intros E pre url m b ans post D.
  apply sensorBranch_posts in E.
  destruct (postsVerbatim_middle _ _ _ _ _ _ _ _ _ E D)
    as (req & resp & [[_ [=]] | (pre' & ->)] & -> & -> & ->).
  exists pre', req, resp, (sensorBody (GenerateResponse.Payload resp)).
  repeat split. apply sensorBody_bytes.
Qed.

Ltac answer :=
  cbn [bind trigger exec record]; do 2 eexists; (split; [reflexivity|]); cbn [bind].

Lemma sensorBranch_post_body_witness :
  exec (sensorBranch "Mozilla/5.0" "https://a.example/" sampleURL 2 sensorPage) sampleRun tt /\
  exists pre' req resp body,
    (sampleRunStart ++ [sampleRunAnswer])%list
    = (pre' ++ [SensorDataCall req (inl resp)])%list /\
    sampleScriptUrl
    = url.Scheme sampleURL ++ "://" ++ url.Host sampleURL ++ GetScriptPath sensorPage /\
    MethodPost = MethodPost /\
    Some (sensorBody samplePayload) = Some body /\
    body = sensorBody (GenerateResponse.Payload resp) /\
    bytes body =
    ([123; 34; 115; 101; 110; 115; 111; 114; 95; 100; 97; 116; 97; 34; 58; 34]
       ++ bytes (GenerateResponse.Payload resp) ++ [34; 125])%list.
Proof.
  assert (E : exec (sensorBranch "Mozilla/5.0" "https://a.example/" sampleURL 2 sensorPage)
                sampleRun tt).
  { assert (P : GetScriptPath sensorPage = "/static/sdk-1") by (vm_compute; reflexivity).
    assert (V : GetSdkVersion "var _acxj=1;" = Version175) by (vm_compute; reflexivity).
    assert (C1 : IsCookieValid "c1~-1~x" 0 = false) by (vm_compute; reflexivity).
    assert (C2 : IsCookieValid "c2~0~x" (0 + 1) = true) by (vm_compute; reflexivity).
    unfold sensorBranch. rewrite P.
    cbn [String.eqb Ascii.eqb Bool.eqb]. answer.
    cbn [negb Z.eqb StatusOK Pos.eqb]. rewrite V.
    change (String.eqb Version175 Version2) with false. cbn [andb].
    change (Z.to_nat 2) with 2%nat.
    cbn [sensorLoop]. change (String.eqb Version175 Version2) with false.
    answer. answer. answer. answer. rewrite C1.
    change (String.eqb Version175 Version2) with false.
    answer. answer. answer. answer. rewrite C2.
    split; reflexivity. }
  split; [exact E|].
  exact (sensorBranch_post_body "Mozilla/5.0" "https://a.example/" sampleURL 2 sensorPage
           sampleRun E (sampleRunStart ++ [sampleRunAnswer])%list
           sampleScriptUrl MethodPost (Some (sensorBody samplePayload))
           (201, EmptyString, None) [CookieCall sampleURL "_abck" "c2~0~x"] eq_refl).
Defined.

(** * Further properties *)

(** ** The stop signal and the number of requests *)

(** X1: IsCookieValid is monotone in the request count: a cookie that
    is accepted after n requests is accepted after any larger number. *)
Theorem IsCookieValid_monotone (value : string) (n n' : Z) :
  IsCookieValid value n = true -> n <= n' -> IsCookieValid value n' = true.
Proof.
  rewrite !IsCookieValid_fields.
  destruct (nth_error (strings.Split value "~") 1) as [field|]; [|discriminate].
  destruct (strconv.Atoi field) as [t [e|]]; [discriminate|].
  intros H L. apply andb_true_iff in H. destruct H as [H1 H2].
  apply andb_true_iff. split; [exact H1|].
  apply Z.leb_le in H2. apply Z.leb_le. lia.
Qed.

Lemma IsCookieValid_monotone_witness : IsCookieValid "abc~1~def" 5 = true.
Proof.
  apply (IsCookieValid_monotone "abc~1~def" 1 5); [reflexivity | lia].
Defined.

(** ** The shape of a static script *)

Lemma prefix_decompose (p s : string) :
  prefix p s = true -> s = p ++ substring (length p) (length s - length p) s.
Proof.
  revert s. induction p as [|c p IH]; intros s H.
  - cbn. rewrite Nat.sub_0_r.
    destruct s; [reflexivity|]. cbn [substring length]. now rewrite substring_all_from.
  - destruct s as [|c' s]; [discriminate|].
    cbn in H. destruct (ascii_dec c c') as [->|]; [|discriminate].
    cbn [append length substring Nat.sub]. f_equal. now apply IH.
Qed.

Lemma prefix_of_app (p s : string) : prefix p (p ++ s) = true.
Proof.
  induction p as [|c p IH]; cbn; [now destruct s|].
  destruct (ascii_dec c c); [assumption | contradiction].
Qed.

Lemma substring_skip_app (p s : string) :
  substring (length p) (length (p ++ s) - length p) (p ++ s) = s.
Proof.
  induction p as [|c p IH].
  - cbn. rewrite Nat.sub_0_r. destruct s; [reflexivity|].
    cbn. now rewrite substring_all_from.
  - cbn [append length substring Nat.sub]. exact IH.
Qed.

(** X2: IsScriptStatic holds exactly of the sources that start with the
    nine bytes of the version 2 marker and a space, followed by a byte of
    a word: an ASCII letter, a digit or an underscore. *)
Theorem IsScriptStatic_shape (src : string) :
  IsScriptStatic src = true <->
  exists c rest, src = "(function " ++ String c rest /\ word (byte_code c) = true.
Proof.
  rewrite IsScriptStatic_spec. split.
  - intros H. apply andb_true_iff in H. destruct H as [P W].
    apply prefix_decompose in P. change (length "(function ") with 10%nat in P.
    destruct (substring 10 (length src - 10) src) as [|c rest]; [discriminate|].
    now exists c, rest.
  - intros (c & rest & -> & W).
    rewrite prefix_of_app.
    pose proof (substring_skip_app "(function " (String c rest)) as E.
    change (length "(function ") with 10%nat in E. rewrite E. exact W.
Qed.

Lemma IsScriptStatic_shape_witness : IsScriptStatic "(function _0x1(a){})" = true.
Proof.
  apply (proj2 (IsScriptStatic_shape "(function _0x1(a){})")).
  exists "_"%char, "0x1(a){})". split; reflexivity.
Defined.

(** X3: FromHexString drops what stands before the first backslash; in
    particular a string without a backslash decodes to the empty string,
    without error. *)
Theorem FromHexString_leading_text (p s : string) :
  without backslash p = true ->
  internal.FromHexString (p ++ s) = internal.FromHexString s /\
  internal.FromHexString p = (EmptyString, None).
Proof.
  intros W. unfold internal.FromHexString. split.
  - now rewrite (Split_app_without _ _ _ W).
  - rewrite <- (string_app_nil_r p), (Split_app_without _ _ _ W). reflexivity.
Qed.

Lemma FromHexString_leading_text_witness :
  internal.FromHexString "abc\x41" = internal.FromHexString "\x41" /\
  internal.FromHexString "abc" = (EmptyString, None).
Proof.
  apply (FromHexString_leading_text "abc" "\x41"). reflexivity.
Defined.

(** ** Failures of the decoder *)

(** The loop of ParseUint fails with one of the two errors of the package. *)
Lemma parseDigits_error (base cutoff maxVal : Z) (s : string) :
  forall n v e,
    strconv.parseDigits base cutoff maxVal n s = (v, Some e) ->
    e = strconv.ErrSyntax \/ e = strconv.ErrRange.
Proof.
  induction s as [|c s IH]; intros n v e H; cbn [strconv.parseDigits] in H.
  - discriminate H.
  - destruct (strconv.digitVal c) as [d|]; [|inversion H; auto].
    destruct (base <=? d); [inversion H; auto|].
    destruct (cutoff <=? n); [inversion H; auto|].
    destruct (_ || _); [inversion H; auto|].
    now apply IH in H.
Qed.

Lemma ParseUint_error (s : string) (base bitSize v : Z) (e : error) :
  strconv.ParseUint s base bitSize = (v, Some e) ->
  e = strconv.ErrSyntax \/ e = strconv.ErrRange.
Proof.
  unfold strconv.ParseUint. destruct s; [intros H; inversion H; auto|].
  apply parseDigits_error.
Qed.

(** The error of ParseInt and Atoi is a NumError for the input, with one of
    the two errors of the package inside. *)
Lemma ParseIntAs_error (fn s : string) (base bitSize v : Z) (e : error) :
  strconv.ParseIntAs fn s base bitSize = (v, Some e) ->
  e = NumError fn s strconv.ErrSyntax \/ e = NumError fn s strconv.ErrRange.
Proof.
  unfold strconv.ParseIntAs. destruct s as [|c s]; [intros H; inversion H; auto|].
  set (digits := if (Ascii.eqb c "+" || Ascii.eqb c "-")%bool then s else String c s).
  destruct (strconv.ParseUint digits base bitSize) as [un [err|]] eqn:P.
  - destruct (ParseUint_error _ _ _ _ _ P) as [-> | ->].
    + intros H. inversion H. auto.
    + cbn [strconv.ErrRange errors.New].
      destruct (_ && _); [intros H; inversion H; auto|].
      destruct (_ && _); [intros H; inversion H; auto|].
      discriminate.
  - destruct (_ && _); [intros H; inversion H; auto|].
    destruct (_ && _); [intros H; inversion H; auto|].
    discriminate.
Qed.

Lemma decodeParts_error (parts : list string) :
  forall builder v e,
    internal.decodeParts parts builder = (v, Some e) ->
    v = EmptyString /\
    exists part,
      In part parts /\
      (e = NumError "ParseInt" (strings.RemoveFirst part "x") strconv.ErrSyntax \/
       e = NumError "ParseInt" (strings.RemoveFirst part "x") strconv.ErrRange).
Proof.
  induction parts as [|p parts IH]; intros builder v e H; cbn [internal.decodeParts] in H.
  - discriminate H.
  - destruct (strconv.ParseInt (strings.RemoveFirst p "x") 16 64) as [i [err|]] eqn:P.
    + inversion H; subst. split; [reflexivity|].
      exists p. split; [now left|].
      now apply ParseIntAs_error in P.
    + destruct (IH _ _ _ H) as [-> (part & I & E)].
      split; [reflexivity|]. exists part. split; [now right | exact E].
Qed.

(** X4: when FromHexString fails, the string it returns is empty, and
    the error is the NumError of ParseInt for a part of the input that
    follows a backslash, with its first x removed: a syntax error, or a
    range error when the digits do not fit 64 bits. *)
Theorem FromHexString_error (s v : string) (e : error) :
  internal.FromHexString s = (v, Some e) ->
  v = EmptyString /\
  exists part,
    In part (tl (strings.Split s backslash)) /\
    (e = NumError "ParseInt" (strings.RemoveFirst part "x") strconv.ErrSyntax \/
     e = NumError "ParseInt" (strings.RemoveFirst part "x") strconv.ErrRange).
Proof. apply decodeParts_error. Qed.

Lemma FromHexString_error_witness :
  EmptyString = EmptyString /\
  exists part,
    In part (tl (strings.Split "\x41\zz" backslash)) /\
    (NumError "ParseInt" "zz" strconv.ErrSyntax
     = NumError "ParseInt" (strings.RemoveFirst part "x") strconv.ErrSyntax \/
     NumError "ParseInt" "zz" strconv.ErrSyntax
     = NumError "ParseInt" (strings.RemoveFirst part "x") strconv.ErrRange).
Proof.
  apply (FromHexString_error "\x41\zz" EmptyString (NumError "ParseInt" "zz" strconv.ErrSyntax)).
  vm_compute. reflexivity.
Defined.

(** ** Decoding one escape after the other *)

Lemma Split_app_sep (a b : string) (sep : ascii) :
  strings.Split (a ++ String sep b) sep
  = (strings.Split a sep ++ strings.Split b sep)%list.
Proof.
  induction a as [|c a IH]; cbn [append strings.Split].
  - now rewrite Ascii.eqb_refl.
  - rewrite IH. destruct (Ascii.eqb c sep); [reflexivity|].
    pose proof (Split_not_nil a sep).
    destruct (strings.Split a sep); [contradiction | reflexivity].
Qed.

Lemma decodeParts_builder (parts : list string) :
  forall builder,
    internal.decodeParts parts builder =
    match internal.decodeParts parts EmptyString with
    | (v, None) => (builder ++ v, None)
    | (_, Some e) => (EmptyString, Some e)
    end.
Proof.
  induction parts as [|p parts IH]; intros builder; cbn [internal.decodeParts].
  - now rewrite string_app_nil_r.
  - destruct (strconv.ParseInt _ 16 64) as [i [err|]]; [reflexivity|].
    rewrite (IH (builder ++ _)), (IH (EmptyString ++ _)).
    destruct (internal.decodeParts parts EmptyString) as [v [e|]]; [reflexivity|].
    cbn [append]. now rewrite string_app_assoc.
Qed.

Lemma decodeParts_app (l1 l2 : list string) :
  forall builder v1,
    internal.decodeParts l1 builder = (v1, None) ->
    internal.decodeParts (l1 ++ l2) builder = internal.decodeParts l2 v1.
Proof.
  induction l1 as [|p l1 IH]; intros builder v1 H; cbn [internal.decodeParts app] in *.
  - now inversion H.
  - destruct (strconv.ParseInt _ 16 64) as [i [err|]]; [discriminate|].
    now apply IH.
Qed.

(** X5: FromHexString decodes its input group by group: for a string
    followed by one more group, which starts with a backslash, the result
    is the result for the string followed by the result for the group. *)
Theorem FromHexString_app (a b va vb : string) :
  internal.FromHexString a = (va, None) ->
  internal.FromHexString (String backslash b) = (vb, None) ->
  internal.FromHexString (a ++ String backslash b) = (va ++ vb, None).
Proof.
  unfold internal.FromHexString. intros Ha Hb.
  rewrite Split_app_sep.
  cbn [strings.Split] in Hb. rewrite Ascii.eqb_refl in Hb. cbn [tl] in Hb.
  pose proof (Split_not_nil a backslash) as N.
  destruct (strings.Split a backslash) as [|f fs]; [contradiction|].
  cbn [tl app] in *.
  rewrite (decodeParts_app _ _ _ _ Ha), decodeParts_builder, Hb. reflexivity.
Qed.

Lemma FromHexString_app_witness :
  internal.FromHexString ("\x61\x6b" ++ String backslash "x61\x6d") = ("ak" ++ "am", None).
Proof.
  apply (FromHexString_app "\x61\x6b" "x61\x6d" "ak" "am"); vm_compute; reflexivity.
Defined.

(** ** The variable of the pixel challenge script *)

Lemma submatches_length (r : syntax) (th : thread) :
  List.length (submatches r th) = S (NumSubexp r).
Proof.
  destruct th as [[m rest] cs]. unfold submatches.
  cbn [List.length]. now rewrite length_map, length_seq.
Qed.

Lemma allMatches_lengths (r : syntax) (fuel : nat) :
  forall bot prevEnd inp,
    Forall (fun e => List.length e = S (NumSubexp r)) (allMatches fuel r bot prevEnd inp).
Proof.
  induction fuel as [|fuel IH]; intros bot prevEnd inp; cbn [allMatches]; [constructor|].
  destruct (search r bot inp) as [[here [[m rest] cs]]|]; [|constructor].
  destruct (here && is_nil m).
  - assert (F : Forall (fun e => List.length e = S (NumSubexp r))
                  (if prevEnd then [] else [submatches r (m, rest, cs)])).
    { destruct prevEnd; repeat constructor. apply submatches_length. }
    destruct inp as [|c t]; [exact F|].
    apply Forall_app. split; [exact F | apply IH].
  - constructor; [apply submatches_length | apply IH].
Qed.

Lemma FindSubmatch_cases (r : syntax) (b : string) :
  FindSubmatch r b = [] \/
  exists th bot' pre inp',
    FindSubmatch r b = submatches r th /\
    cells b = (pre ++ inp')%list /\
    In th (run r bot' inp' noCaps).
Proof.
  unfold FindSubmatch.
  destruct (search r true (cells b)) as [[h th]|] eqn:S; [|now left].
  apply search_in in S. destruct S as (bot' & pre & inp' & E & I & _).
  right. now exists th, bot', pre, inp'.
Qed.

Lemma len_submatches (r : syntax) (th : thread) :
  len (submatches r th) = Z.of_nat (S (NumSubexp r)).
Proof. unfold len. now rewrite submatches_length. Qed.

Lemma nth1_submatches (r : syntax) (m rest : list cell) (cs : caps) (v : string) :
  NumSubexp r = 1%nat -> cs 1%nat = Some v ->
  nth 1 (submatches r (m, rest, cs)) EmptyString = v.
Proof. intros N H. unfold submatches. rewrite N. cbn. now rewrite H. Qed.

(** Whenever pixelScriptVarExpr matches, its group holds digits, at least
    one. *)
Lemma pixelScriptVarExpr_group (bot : bool) (inp : list cell) (cs0 cs : caps)
  (m rest : list cell) :
  Forall cell_ok inp ->
  In (m, rest, cs) (run pixelScriptVarExpr bot inp cs0) ->
  exists v, cs 1%nat = Some v /\ v <> EmptyString /\ allDigits v.
Proof.
  intros Ok H. unfold pixelScriptVarExpr in H. cbn [concat] in H.
  apply run_concat_skip in H; [|apply captureFree_literal].
  destruct H as (b1 & m1 & r1 & m2 & r2 & c2 & -> & H & E).
  inversion E; subst; clear E. apply Forall_suffix in Ok.
  apply run_concat_last in H;
    [|cbn [captureFree]; now rewrite captureFree_literal].
  destruct H as (m3 & r3 & H).
  apply run_capture_in in H. destruct H as (c0 & H & ->).
  apply run_plus_in in H. destruct H as (-> & -> & N & D).
  apply Forall_prefix in Ok.
  exists (raw m3). split; [reflexivity|].
  split; [now apply raw_not_empty | now apply raw_digits].
Qed.

(** X6: the outcomes of GetPixelChallengeScriptVar.  A failure returns the
    empty string and ErrPixelScriptVarNotFound joined with one cause: no
    index expression in the script, an index that does not fit an int, no
    declaration of the array, an index that is not below the number of
    strings, or a string whose escapes do not parse.  The check of the
    length of the entry found never fails. *)
Theorem GetPixelChallengeScriptVar_outcomes (src : string) :
  (exists v, GetPixelChallengeScriptVar src = (v, None)) \/
  exists cause,
    GetPixelChallengeScriptVar src
    = (EmptyString, Some (joinError [ErrPixelScriptVarNotFound; cause])) /\
    (cause = errorString "len(index) expected 2, got: 0" \/
     (exists digits,
         allDigits digits /\ cause = NumError "Atoi" digits strconv.ErrRange) \/
     cause = errorString "len(arrayDeclaration) expected 2, got: 0" \/
     (exists i n,
         0 <= n <= i /\
         cause = errorString ("string index out of range: " ++ strconv.Itoa i
                              ++ " >= " ++ strconv.Itoa n)) \/
     (exists part,
         cause = NumError "ParseInt" part strconv.ErrSyntax \/
         cause = NumError "ParseInt" part strconv.ErrRange)).
Proof.
  unfold GetPixelChallengeScriptVar. cbv zeta.
  destruct (FindSubmatch_cases pixelScriptVarExpr src)
    as [-> | ([[m rest] cs] & bot' & pre & inp' & -> & E & I)].
  { right. eexists. split; [reflexivity|]. left. reflexivity. }
  pose proof (cells_ok src) as Ok. rewrite E in Ok. apply Forall_suffix in Ok.
  destruct (pixelScriptVarExpr_group _ _ _ _ _ _ Ok I) as (v & Hv & Nv & Dv).
  rewrite !len_submatches, (nth1_submatches pixelScriptVarExpr _ _ _ v eq_refl Hv).
  change (negb (Z.of_nat (S (NumSubexp pixelScriptVarExpr)) =? 2)) with false.
  cbv iota.
  destruct (Atoi_digits v Nv Dv) as [(x & Hx & ->) | (x & ->)].
  2:{ right. eexists. split; [reflexivity|]. right. left. now exists v. }
  destruct (FindSubmatch_cases pixelScriptStringArrayExpr src)
    as [-> | (th' & _ & _ & _ & -> & _ & _)].
  { right. eexists. split; [reflexivity|]. right. right. left. reflexivity. }
  rewrite !len_submatches.
  change (Z.of_nat (S (NumSubexp pixelScriptStringArrayExpr)) <? 2) with false.
  cbv iota.
  set (rawStrings := FindAllSubmatch pixelScriptStringsExpr (nth 1 (submatches _ th') _)).
  destruct (len rawStrings <=? x) eqn:L.
  { right. eexists. split; [reflexivity|]. right. right. right. left.
    exists x, (len rawStrings). apply Z.leb_le in L. unfold len in *.
    split; [lia | reflexivity]. }
  apply Z.leb_gt in L.
  assert (F : Forall (fun e => List.length e = 2%nat) rawStrings)
    by (unfold rawStrings, FindAllSubmatch; apply (allMatches_lengths pixelScriptStringsExpr)).
  assert (N : len (nth (Z.to_nat x) rawStrings []) = 2).
  { unfold len. rewrite Forall_forall in F. rewrite (F (nth (Z.to_nat x) rawStrings []));
      [reflexivity|]. apply nth_In. unfold len in L. lia. }
  rewrite !N. change (negb (2 =? 2)) with false. cbv iota.
  destruct (internal.FromHexString _) as [s [e|]] eqn:D.
  - right. apply decodeParts_error in D. destruct D as (_ & part & _ & C).
    eexists. split; [reflexivity|]. do 4 right. eauto.
  - left. now exists s.
Qed.

(** ** The URLs of the pixel challenge *)

(** The bytes of a rune that is not below RuneSelf are not below it
    either. *)
Lemma DecodeRune_high_raw (c : ascii) (t : string) :
  utf8.RuneSelf <= byte_code c ->
  Forall (fun b => 128 <= b)
    (bytes (substring 0 (snd (utf8.DecodeRune (String c t))) (String c t))).
Proof.
  intros H. unfold utf8.RuneSelf in H.
  assert (One : Forall (fun b => 128 <= b) (bytes (substring 0 1 (String c t)))).
  { cbn [substring]. destruct t; cbn [substring bytes]; repeat constructor; exact H. }
  unfold utf8.DecodeRune.
  destruct (byte_code c <? utf8.RuneSelf); [exact One|].
  destruct (utf8.first (byte_code c)) as [[[sz lo] hi]|] eqn:F; [|exact One].
  assert (Lo : 128 <= lo).
  { apply first_cases in F. intuition lia. }
  destruct t as [|c1 t1]; [exact One|].
  destruct (between lo hi (byte_code c1)) eqn:B1; cbn [negb]; [|exact One].
  apply between_spec in B1.
  destruct (sz <=? 2)%nat.
  { cbn [snd substring]. destruct t1; cbn [substring bytes]; repeat constructor; lia. }
  destruct t1 as [|c2 t2]; [exact One|].
  destruct (between 128 191 (byte_code c2)) eqn:B2; cbn [negb]; [|exact One].
  apply between_spec in B2.
  destruct (sz <=? 3)%nat.
  { cbn [snd substring]. destruct t2; cbn [substring bytes]; repeat constructor; lia. }
  destruct t2 as [|c3 t3]; [exact One|].
  destruct (between 128 191 (byte_code c3)) eqn:B3; cbn [negb]; [|exact One].
  apply between_spec in B3.
  cbn [snd substring]. destruct t3; cbn [substring bytes]; repeat constructor; lia.
Qed.

Lemma cells_from_high (s : string) (k : nat) : Forall cell_high (cells_from k s).
Proof.
  revert k. induction s as [|c t IH]; intros k; [constructor|].
  destruct k as [|k]; [|apply IH].
  cbn [cells_from].
  destruct (Z_lt_ge_dec (byte_code c) utf8.RuneSelf) as [L|G].
  - rewrite (DecodeRune_ascii c t L). constructor; [|apply IH].
    pose proof (byte_code_range c). split; cbn [cell_rune]; lia.
  - apply Z.ge_le in G. pose proof (DecodeRune_high_raw c t G) as D.
    pose proof (DecodeRune_high c t G) as R.
    destruct (utf8.DecodeRune (String c t)) as [r w]. cbn [fst snd] in D, R.
    constructor; [|apply IH].
    split; cbn [cell_rune cell_raw]; [unfold utf8.RuneSelf in R; lia | intros _; exact D].
Qed.

Lemma cells_high (s : string) : Forall cell_high (cells s).
Proof. apply cells_from_high. Qed.

Lemma without_app (c : ascii) (a b : string) :
  without c (a ++ b) = without c a && without c b.
Proof.
  induction a as [|x a IH]; [reflexivity|].
  cbn [append without]. now rewrite IH, andb_assoc.
Qed.

Lemma raw_app (a b : list cell) : raw (a ++ b) = raw a ++ raw b.
Proof.
  induction a as [|c a IH]; [reflexivity|].
  cbn [app raw]. now rewrite IH, string_app_assoc.
Qed.

Lemma without_high (c : ascii) (s : string) :
  byte_code c < 128 -> Forall (fun b => 128 <= b) (bytes s) -> without c s = true.
Proof.
  intros L. induction s as [|x s IH]; intros F; [reflexivity|].
  inversion F; subst. cbn [without]. rewrite IH by assumption.
  destruct (Ascii.eqb_spec x c) as [->|N]; [lia | reflexivity].
Qed.

(** A run of word characters, folded or not, holds no slash. *)
Lemma raw_word_no_slash (m : list cell) :
  Forall cell_ok m -> Forall cell_high m ->
  Forall (fun c => wordFold (cell_rune c) = true) m ->
  without "/" (raw m) = true.
Proof.
  induction m as [|c m IH]; intros Ok Hi W; [reflexivity|].
  inversion Ok as [|? ? [_ A] Ok']; inversion Hi as [|? ? [_ Hc] Hi'];
    inversion W as [|? ? Wc W']; subst.
  cbn [raw]. rewrite without_app, IH by assumption. rewrite andb_true_r.
  destruct (Z_lt_ge_dec (cell_rune c) utf8.RuneSelf) as [L|G].
  - rewrite (A L). cbn [without]. rewrite andb_true_r.
    apply negb_true_iff, Ascii.eqb_neq. intros E.
    assert (R : cell_rune c = 47).
    { unfold wordFold, word, between, utf8.RuneSelf in *.
      assert (0 <= cell_rune c < 128) as B.
      { repeat (apply orb_true_iff in Wc; destruct Wc as [Wc|Wc]);
          bool_hyps; lia. }
      apply (f_equal byte_code) in E.
      unfold byte_of, byte_code in E. rewrite Z.mod_small in E by lia.
      rewrite N_ascii_embedding in E by lia. cbn in E. lia. }
    rewrite R in Wc. discriminate Wc.
  - apply without_high; [cbn; lia|]. apply Hc. lia.
Qed.

(** *** Split, Join and the prefix of the last part *)

Lemma Split_without (sep : ascii) (s : string) :
  without sep s = true -> strings.Split s sep = [s].
Proof.
  induction s as [|c s IH]; [reflexivity|].
  cbn [without strings.Split]. intros W. apply andb_true_iff in W. destruct W as [N W].
  apply negb_true_iff in N. rewrite N, (IH W). reflexivity.
Qed.

Lemma prefixLast_last (p x : string) (l : list string) :
  prefixLast p (l ++ [x]) = (l ++ [(p ++ x)%string])%list.
Proof.
  induction l as [|a l IH]; [reflexivity|].
  cbn [app]. cbn [prefixLast]. rewrite IH.
  now destruct l.
Qed.

Lemma Join_last (sep x : string) (l : list string) :
  l <> [] -> strings.Join (l ++ [x]) sep = strings.Join l sep ++ sep ++ x.
Proof.
  induction l as [|a l IH]; [contradiction|]. intros _.
  destruct l as [|b l]; [reflexivity|].
  change (strings.Join ((a :: b :: l) ++ [x]) sep)
    with (a ++ sep ++ strings.Join ((b :: l) ++ [x]) sep).
  rewrite IH by discriminate.
  change (strings.Join (a :: b :: l) sep) with (a ++ sep ++ strings.Join (b :: l) sep).
  now rewrite !string_app_assoc.
Qed.

Lemma Join_Split (s : string) (sep : ascii) :
  strings.Join (strings.Split s sep) (String sep EmptyString) = s.
Proof.
  induction s as [|c s IH]; [reflexivity|].
  cbn [strings.Split].
  pose proof (Split_not_nil s sep) as N.
  destruct (Ascii.eqb_spec c sep) as [->|_].
  - destruct (strings.Split s sep) as [|f fs]; [contradiction|].
    change (strings.Join (EmptyString :: f :: fs) (String sep EmptyString))
      with (String sep (strings.Join (f :: fs) (String sep EmptyString))).
    now rewrite IH.
  - destruct (strings.Split s sep) as [|f fs]; [contradiction|].
    rewrite <- IH. now destruct fs.
Qed.

(** The post URL: pixel_ goes in front of what follows the last slash. *)
Lemma postUrl_last_part (dir name : string) :
  without "/" name = true ->
  strings.Join (prefixLast "pixel_" (strings.Split (dir ++ "/" ++ name) "/")) "/"
  = dir ++ "/pixel_" ++ name.
Proof.
  intros W. change (dir ++ "/" ++ name) with (dir ++ String "/" name).
  rewrite Split_app_sep, (Split_without _ _ W), prefixLast_last.
  rewrite Join_last by apply Split_not_nil.
  now rewrite Join_Split.
Qed.

(** ** What a match is made of *)

(** The cells that a literal of ASCII bytes matches hold the literal. *)
Lemma run_literal_raw (s : string) :
  isASCII s = true ->
  forall bot inp cs m rest cs',
    Forall cell_ok inp ->
    In (m, rest, cs') (run (literal lit s) bot inp cs) ->
    raw m = s.
Proof.
  induction s as [|c s IH]; intros A bot inp cs m rest cs' Ok H.
  - cbn in H. destruct H as [H|[]]. now inversion H.
  - apply isASCII_cons in A. destruct A as [Ac As].
    cbn [literal] in H. apply run_concat_in in H.
    destruct H as (m1 & r1 & c1 & m2 & r2 & c2 & I1 & I2 & E).
    inversion E; subst; clear E.
    cbn [run] in I1. destruct inp as [|x inp]; [destruct I1|].
    destruct (lit c (cell_rune x)) eqn:L; [|destruct I1].
    destruct I1 as [I1|[]]. inversion I1; subst; clear I1.
    inversion Ok as [|? ? [_ R] Ok']; subst.
    apply lit_spec in L. rewrite L in R. cbn [app raw].
    rewrite (R Ac), byte_of_code. cbn [append]. f_equal.
    exact (IH As _ _ _ _ _ _ Ok' I2).
Qed.

(** A pattern that starts with a literal: the literal, then the rest. *)
Lemma run_concat_literal (s : string) (b : syntax) (bot : bool) (inp : list cell)
  (cs : caps) (th : thread) :
  isASCII s = true -> Forall cell_ok inp ->
  In th (run (OpConcat (literal lit s) b) bot inp cs) ->
  exists bot' m1 r1 m2 r2 c2,
    inp = (m1 ++ r1)%list /\ raw m1 = s /\
    In (m2, r2, c2) (run b bot' r1 cs) /\
    th = ((m1 ++ m2)%list, r2, c2).
Proof.
  intros A Ok H. apply run_concat_in in H.
  destruct H as (m1 & r1 & c1 & m2 & r2 & c2 & I1 & I2 & E).
  pose proof (run_frame _ _ _ _ _ _ _ (captureFree_literal lit s) I1). subst c1.
  pose proof (run_literal_raw s A _ _ _ _ _ _ Ok I1) as R.
  apply run_app in I1.
  now exists (bot && is_nil m1), m1, r1, m2, r2, c2.
Qed.

(** ** The path of the SDK script, found in the page *)

Lemma raw_no_newline (m : list cell) :
  Forall cell_ok m -> Forall cell_high m ->
  Forall (fun c => anyCharNotNL (cell_rune c) = true) m ->
  without newline (raw m) = true.
Proof.
  induction m as [|c m IH]; intros Ok Hi W; [reflexivity|].
  inversion Ok as [|? ? [_ A] Ok']; inversion Hi as [|? ? [Pos Hc] Hi'];
    inversion W as [|? ? Wc W']; subst.
  cbn [raw]. rewrite without_app, IH by assumption. rewrite andb_true_r.
  destruct (Z_lt_ge_dec (cell_rune c) utf8.RuneSelf) as [L|G].
  - rewrite (A L). cbn [without]. rewrite andb_true_r.
    apply negb_true_iff, Ascii.eqb_neq. intros E.
    unfold anyCharNotNL in Wc. apply negb_true_iff, Z.eqb_neq in Wc.
    apply (f_equal byte_code) in E.
    unfold byte_of, byte_code, utf8.RuneSelf in *. rewrite Z.mod_small in E by lia.
    rewrite N_ascii_embedding in E by lia. cbn in E. lia.
  - apply without_high; [cbn; lia|]. apply Hc. lia.
Qed.

(** Whenever scriptPathExpr matches, the text it matches is the opening
    of the tag, a stretch without a line feed, the attribute src with the
    group as its value, and the end of the tag. *)
Lemma scriptPathExpr_match (bot : bool) (inp : list cell) (cs0 cs : caps)
  (m rest : list cell) :
  Forall cell_ok inp -> Forall cell_high inp ->
  In (m, rest, cs) (run scriptPathExpr bot inp cs0) ->
  exists mid path,
    cs 1%nat = Some path /\
    raw m = "<script type=" ++ q ++ "text/javascript" ++ q ++ mid
            ++ " src=" ++ q ++ path ++ q ++ ">" /\
    without newline mid = true.
Proof.
  intros Ok Hi H. unfold scriptPathExpr in H. cbn [concat] in H.
  apply run_concat_literal in H; [|reflexivity | assumption].
  destruct H as (b1 & m1 & r1 & m2 & r2 & c2 & -> & R1 & H & E).
  inversion E; subst; clear E. apply Forall_suffix in Ok. apply Forall_suffix in Hi.
  apply run_concat_in in H.
  destruct H as (ms & rs & c_s & m3 & r3 & c3 & Hs & H & E).
  inversion E; subst; clear E.
  cbn [run] in Hs. apply in_map_iff in Hs. destruct Hs as ([ms' rs'] & E & Hs).
  cbn [fst snd] in E. inversion E; subst; clear E.
  apply star_app in Hs. destruct Hs as [-> Fs].
  pose proof (Forall_prefix _ _ _ Ok) as Oks. pose proof (Forall_prefix _ _ _ Hi) as His.
  apply Forall_suffix in Ok. apply Forall_suffix in Hi.
  apply run_concat_literal in H; [|reflexivity | assumption].
  destruct H as (b3 & m4 & r4 & m5 & r5 & c5 & -> & R2 & H & E).
  inversion E; subst; clear E. apply Forall_suffix in Ok. apply Forall_suffix in Hi.
  apply run_concat_in in H.
  destruct H as (mg & rg & cg & m6 & r6 & c6 & Hg & H & E).
  inversion E; subst; clear E.
  apply run_capture_in in Hg. destruct Hg as (c0 & Hg & ->).
  apply run_plus_in in Hg. destruct Hg as (-> & -> & _ & _).
  apply Forall_suffix in Ok.
  apply run_concat_literal in H; [|reflexivity | assumption].
  destruct H as (b5 & m7 & r7 & m8 & r8 & c8 & -> & R3 & H & E).
  inversion E; subst; clear E.
  cbn [run] in H. destruct H as [H|[]]. inversion H; subst; clear H.
  exists (raw ms), (raw mg). split; [reflexivity|]. split.
  - rewrite !raw_app, R1, R2, R3. cbn [raw]. rewrite string_app_nil_r.
    rewrite !string_app_assoc. reflexivity.
  - now apply raw_no_newline.
Qed.

(** X8: a path that GetScriptPath returns stands in the page between
    the attribute name src, led by a space and followed by the equals sign
    and a double quote, and a double quote followed by the closing angle
    bracket; before it, with no line feed in between, stands the opening of
    a script tag of type text/javascript.  Nothing more ties the attribute
    to that tag: the stretch in between may hold angle brackets, and on
    [imgPage], where the script tag is closed at once and an img tag
    follows on the line, the path returned is the src of the img tag. *)
Theorem GetScriptPath_found :
  (forall src,
      GetScriptPath src <> EmptyString ->
      exists pre mid post,
        src = pre ++ "<script type=" ++ q ++ "text/javascript" ++ q ++ mid
              ++ " src=" ++ q ++ GetScriptPath src ++ q ++ ">" ++ post /\
        without newline mid = true) /\
  GetScriptPath imgPage = "/logo".
Proof.
  split; [|vm_compute; reflexivity].
  intros src. unfold GetScriptPath, FindSubmatch.
  destruct (search scriptPathExpr true (cells src)) as [[h [[m rest] cs]]|] eqn:S;
    [|intros N; now contradiction N].
  intros _.
  apply search_in in S. destruct S as (bot' & pre & inp' & E & I & _).
  pose proof (cells_ok src) as Ok. rewrite E in Ok. apply Forall_suffix in Ok.
  pose proof (cells_high src) as Hi. rewrite E in Hi. apply Forall_suffix in Hi.
  destruct (scriptPathExpr_match _ _ _ _ _ _ Ok Hi I) as (mid & path & Hv & R & W).
  unfold submatches. rewrite NumSubexp_scriptPathExpr.
  cbn [seq map List.length nth]. rewrite Hv.
  replace (Z.of_nat 2 <? 2) with false by reflexivity.
  exists (raw pre), mid, (raw rest). split; [|exact W].
  rewrite <- (raw_cells src) at 1. rewrite E, (run_app _ _ _ _ _ _ _ I).
  rewrite !raw_app, R. rewrite !string_app_assoc. reflexivity.
Qed.

Lemma GetScriptPath_found_witness :
  exists pre mid post,
    sensorPage = pre ++ "<script type=" ++ q ++ "text/javascript" ++ q ++ mid
                 ++ " src=" ++ q ++ GetScriptPath sensorPage ++ q ++ ">" ++ post /\
    without newline mid = true.
Proof.
  apply (proj1 GetScriptPath_found sensorPage). vm_compute. discriminate.
Defined.

(** ** The HTML variable, found in the page *)

Lemma pixelHtmlExpr_match (bot : bool) (inp : list cell) (cs0 cs : caps)
  (m rest : list cell) :
  Forall cell_ok inp ->
  In (m, rest, cs) (run pixelHtmlExpr bot inp cs0) ->
  exists digits,
    cs 1%nat = Some digits /\
    raw m = "bazadebezolkohpepadr=" ++ q ++ digits ++ q /\
    digits <> EmptyString /\ allDigits digits.
Proof.
  intros Ok H. unfold pixelHtmlExpr in H. cbn [concat] in H.
  apply run_concat_literal in H; [|reflexivity | assumption].
  destruct H as (b1 & m1 & r1 & m2 & r2 & c2 & -> & R1 & H & E).
  inversion E; subst; clear E. apply Forall_suffix in Ok.
  apply run_concat_in in H.
  destruct H as (mg & rg & cg & m6 & r6 & c6 & Hg & H & E).
  inversion E; subst; clear E.
  apply run_capture_in in Hg. destruct Hg as (c0 & Hg & ->).
  apply run_plus_in in Hg. destruct Hg as (-> & -> & N & D).
  pose proof (Forall_prefix _ _ _ Ok) as Okg. apply Forall_suffix in Ok.
  apply run_concat_literal in H; [|reflexivity | assumption].
  destruct H as (b5 & m7 & r7 & m8 & r8 & c8 & -> & R3 & H & E).
  inversion E; subst; clear E.
  cbn [run] in H. destruct H as [H|[]]. inversion H; subst; clear H.
  exists (raw mg). split; [reflexivity|]. split; [|split].
  - rewrite !raw_app, R1, R3. cbn [raw]. rewrite string_app_nil_r.
    rewrite !string_app_assoc. reflexivity.
  - now apply raw_not_empty.
  - now apply raw_digits.
Qed.

(** X9: a value that GetPixelChallengeHtmlVar returns without error is
    the number written in decimal digits as the value of the attribute
    bazadebezolkohpepadr somewhere in the page, and it is not negative. *)
Theorem GetPixelChallengeHtmlVar_found (src : string) (v : Z) :
  GetPixelChallengeHtmlVar src = (v, None) ->
  exists pre digits post,
    src = pre ++ "bazadebezolkohpepadr=" ++ q ++ digits ++ q ++ post /\
    digits <> EmptyString /\ allDigits digits /\
    strconv.Atoi digits = (v, None) /\ 0 <= v.
Proof.
  unfold GetPixelChallengeHtmlVar, FindSubmatch.
  destruct (search pixelHtmlExpr true (cells src)) as [[h [[m rest] cs]]|] eqn:S;
    [|discriminate].
  apply search_in in S. destruct S as (bot' & pre & inp' & E & I & _).
  pose proof (cells_ok src) as Ok. rewrite E in Ok. apply Forall_suffix in Ok.
  destruct (pixelHtmlExpr_match _ _ _ _ _ _ Ok I) as (digits & Hv & R & N & D).
  unfold submatches. rewrite NumSubexp_pixelHtmlExpr.
  cbn [seq map List.length nth]. rewrite Hv.
  replace (Z.of_nat 2 <? 2) with false by reflexivity.
  destruct (Atoi_digits digits N D) as [(x & Hx & A) | (x & A)]; rewrite A;
    [|discriminate].
  intros [= <-].
  exists (raw pre), digits, (raw rest). repeat split; auto.
  rewrite <- (raw_cells src) at 1. rewrite E, (run_app _ _ _ _ _ _ _ I).
  rewrite !raw_app, R. rewrite !string_app_assoc. reflexivity.
Qed.

Lemma GetPixelChallengeHtmlVar_found_witness :
  exists pre digits post,
    pixelPage = pre ++ "bazadebezolkohpepadr=" ++ q ++ digits ++ q ++ post /\
    digits <> EmptyString /\ allDigits digits /\
    strconv.Atoi digits = (500, None) /\ 0 <= 500.
Proof.
  apply (GetPixelChallengeHtmlVar_found pixelPage 500). vm_compute. reflexivity.
Defined.

(** * Further properties of the runs *)

(** ** One iteration of the loop *)

Lemma app_cons_not_in {A} (l pre rest tail : list A) (x : A) :
  (pre ++ x :: rest)%list = (l ++ tail)%list -> ~ In x l ->
  exists pre', pre = (l ++ pre')%list /\ (pre' ++ x :: rest)%list = tail.
Proof.
  revert pre. induction l as [|c l IH]; intros pre E N.
  - exists pre. auto.
  - destruct pre as [|p pre]; cbn in E; inversion E; subst.
    + exfalso. apply N. now left.
    + destruct (IH pre H1) as (pre' & -> & <-).
      * intros I. apply N. now right.
      * exists pre'. auto.
Qed.

(** One iteration of the loop. *)
Lemma sensorLoop_step (ua pageUrl : string) (u : url.URL)
  (scriptUrl : string) (version : Version) (scriptValues : string)
  (n : nat) (i : Z) (tr : list call) :
  exec (sensorLoop ua pageUrl u scriptUrl version scriptValues (S n) i) tr tt ->
  exists abck bmSz answer tail,
    (String.eqb version Version2 = false -> bmSz = EmptyString) /\
    tr = (cookieReads u version abck bmSz
            ++ SensorDataCall
                 (GenerateRequest.mk ua version pageUrl abck bmSz scriptValues) answer
            :: tail)%list /\
    match answer with
    | inr e => tail = [ErrorAdded e]
    | inl resp =>
        exists st body err tail',
          tail = HttpCall OpPostSensorData scriptUrl MethodPost
                   (Some (sensorBody (GenerateResponse.Payload resp))) (st, body, err)
                 :: tail' /\
          match err with
          | Some e => tail' = [ErrorAdded e]
          | None =>
              exists v tail'',
                tail' = CookieCall u "_abck" v :: tail'' /\
                if IsCookieValid v i then tail'' = []
                else exec (sensorLoop ua pageUrl u scriptUrl version scriptValues n (i + 1))
                          tail'' tt
          end
    end.
Proof.
  cbn [sensorLoop]. cbn [bind trigger exec record].
  intros (abck & tr1 & -> & E).
  assert (T : forall bmSz tr3,
             exec (response <- trigger (GenerateSensorData
                      (GenerateRequest.mk ua version pageUrl abck bmSz scriptValues)) ;;
                   match response with
                   | inr e => addError e
                   | inl response =>
                       '(_, _, err) <-
                         trigger (DoHttpReq OpPostSensorData scriptUrl MethodPost
                                    (Some (sensorBody (GenerateResponse.Payload response)))) ;;
                       match err with
                       | Some e => addError e
                       | None =>
                           abck <- trigger (GetCookie u "_abck") ;;
                           if IsCookieValid abck i then Ret tt
                           else sensorLoop ua pageUrl u scriptUrl version scriptValues n (i + 1)
                       end
                   end) tr3 tt ->
             exists answer tail,
               tr3 = SensorDataCall
                       (GenerateRequest.mk ua version pageUrl abck bmSz scriptValues) answer
                     :: tail /\
               match answer with
               | inr e => tail = [ErrorAdded e]
               | inl resp =>
                   exists st body err tail',
                     tail = HttpCall OpPostSensorData scriptUrl MethodPost
                              (Some (sensorBody (GenerateResponse.Payload resp)))
                              (st, body, err)
                            :: tail' /\
                     match err with
                     | Some e => tail' = [ErrorAdded e]
                     | None =>
                         exists v tail'',
                           tail' = CookieCall u "_abck" v :: tail'' /\
                           if IsCookieValid v i then tail'' = []
                           else exec (sensorLoop ua pageUrl u scriptUrl version scriptValues
                                        n (i + 1)) tail'' tt
                     end
               end).
  { intros bmSz tr3. cbn [bind trigger exec record].
    intros (resp & tr4 & -> & E'). exists resp, tr4. split; [reflexivity|].
    destruct resp as [resp|e].
    - cbn [bind trigger exec record] in E'.
      destruct E' as ([[st b] err] & tr5 & -> & E').
      exists st, b, err, tr5. split; [reflexivity|].
      destruct err as [e|].
      + now apply exec_addError in E'.
      + cbn [bind trigger exec record] in E'.
        destruct E' as (v & tr6 & -> & E'). exists v, tr6. split; [reflexivity|].
        destruct (IsCookieValid v i); [now destruct E' | exact E'].
    - now apply exec_addError in E'. }
  unfold cookieReads.
  destruct (String.eqb version Version2); cbn [bind trigger exec record] in E.
  - destruct E as (bmSz & tr2 & -> & E).
    destruct (T bmSz tr2 E) as (answer & tail & -> & R).
    exists abck, bmSz, answer, tail. split; [discriminate|]. split; [reflexivity | exact R].
  - destruct (T EmptyString tr1 E) as (answer & tail & -> & R).
    exists abck, EmptyString, answer, tail. split; [reflexivity|].
    split; [reflexivity | exact R].
Qed.

(** ** The requests of a call *)

Lemma countOp_app (op : HttpReqOp) (a b : list call) :
  countOp op (a ++ b) = (countOp op a + countOp op b)%nat.
Proof. unfold countOp. now rewrite filter_app, length_app. Qed.

Lemma countOp_cookieReads (op : HttpReqOp) (u : url.URL) (version : Version)
  (abck bmSz : string) :
  countOp op (cookieReads u version abck bmSz) = 0%nat.
Proof. unfold cookieReads. now destruct (String.eqb version Version2). Qed.

Lemma countOp_cons (op : HttpReqOp) (c : call) (tr : list call) :
  countOp op (c :: tr) = (Nat.b2n (isHttpOp op c) + countOp op tr)%nat.
Proof. unfold countOp. cbn [filter]. now destruct (isHttpOp op c). Qed.

Lemma countOp_interleave (op : HttpReqOp) (tp ts ti : list call) :
  interleave tp ts ti -> countOp op ti = (countOp op tp + countOp op ts)%nat.
Proof.
  induction 1 as [|x l r m _ IH|x l r m _ IH]; [reflexivity| |];
    rewrite !countOp_cons, IH; lia.
Qed.

Lemma sensorLoop_budget (ua pageUrl : string) (u : url.URL)
  (scriptUrl : string) (version : Version) (scriptValues : string)
  (op : HttpReqOp) (n : nat) :
  forall i tr,
    exec (sensorLoop ua pageUrl u scriptUrl version scriptValues n i) tr tt ->
    (countOp op tr <= n * Nat.b2n (Z.eqb OpPostSensorData op))%nat.
Proof.
  induction n as [|n IH]; intros i tr E.
  - destruct E as [-> _]. cbn. lia.
  - apply sensorLoop_step in E.
    destruct E as (abck & bmSz & answer & tail & _ & -> & R).
    rewrite countOp_app, countOp_cookieReads, countOp_cons. cbn [isHttpOp Nat.b2n].
    destruct answer as [resp|e].
    + destruct R as (st & body & err & tail' & -> & R).
      rewrite countOp_cons. cbn [isHttpOp].
      destruct err as [e|].
      * subst. cbn. lia.
      * destruct R as (v & tail'' & -> & R). rewrite countOp_cons. cbn [isHttpOp Nat.b2n].
        destruct (IsCookieValid v i).
        -- subst. cbn. lia.
        -- apply IH in R. lia.
    + subst. cbn. lia.
Qed.

Lemma sensorBranch_budget (ua pageUrl : string) (u : url.URL) (maxTries : Z)
  (pageBody : string) (op : HttpReqOp) (tr : list call) :
  exec (sensorBranch ua pageUrl u maxTries pageBody) tr tt ->
  (countOp op tr
   <= Nat.b2n (Z.eqb OpGetSdkScript op) + Z.to_nat maxTries * Nat.b2n (Z.eqb OpPostSensorData op))%nat.
Proof.
  unfold sensorBranch.
  destruct (String.eqb (GetScriptPath pageBody) EmptyString).
  - intros [-> _]. cbn. lia.
  - cbn [bind trigger exec record]. intros ([[st body] err] & tr1 & -> & E).
    rewrite countOp_cons. cbn [isHttpOp].
    destruct err as [e|].
    + apply exec_addError in E. subst. cbn. lia.
    + destruct (negb (st =? StatusOK)).
      * apply exec_addError in E. subst. cbn. lia.
      * destruct (String.eqb (GetSdkVersion body) Version2 && negb (IsScriptStatic body)).
        -- cbn [bind trigger exec record] in E. destruct E as (resp & tr2 & -> & E).
           rewrite countOp_cons. cbn [isHttpOp Nat.b2n].
           destruct resp as [resp|e].
           ++ apply (sensorLoop_budget _ _ _ _ _ _ op) in E. lia.
           ++ apply exec_addError in E. subst. cbn. lia.
        -- apply (sensorLoop_budget _ _ _ _ _ _ op) in E. lia.
Qed.

Lemma pixelBranch_budget (ua pageBody : string) (op : HttpReqOp) (tr : list call) :
  exec (pixelBranch ua pageBody) tr tt ->
  (countOp op tr
   <= Nat.b2n (Z.eqb OpGetPixelChallengeScript op) + Nat.b2n (Z.eqb OpPostPixelPayload op))%nat.
Proof.
  unfold pixelBranch.
  destruct (GetPixelChallengeScriptURL pageBody) as [[ok scriptUrl] postUrl].
  destruct ok; cbn [negb].
  - destruct (GetPixelChallengeHtmlVar pageBody) as [htmlVar [e|]].
    + intros E. apply exec_addError in E. subst. cbn. lia.
    + cbn [bind trigger exec record]. intros ([[st body] err] & tr1 & -> & E).
      rewrite countOp_cons. cbn [isHttpOp].
      assert (A : forall err' tr',
                 exec (match err' with
                       | Some e => addError e
                       | None =>
                           let (scriptVar, err) := GetPixelChallengeScriptVar body in
                           match err with
                           | Some e => addError e
                           | None =>
                               response <- trigger (GeneratePixelPayload
                                             (PixelSolveRequest.mk ua htmlVar scriptVar)) ;;
                               match response with
                               | inr e => addError e
                               | inl response =>
                                   '(_, _, err) <-
                                     trigger (DoHttpReq OpPostPixelPayload postUrl MethodPost
                                                (Some (PixelSolveResponse.Payload response))) ;;
                                   match err with
                                   | Some e => addError e
                                   | None => Ret tt
                                   end
                               end
                           end
                       end) tr' tt ->
                 (countOp op tr' <= Nat.b2n (Z.eqb OpPostPixelPayload op))%nat).
      { intros [e|] tr' E'.
        - apply exec_addError in E'. subst. cbn. lia.
        - destruct (GetPixelChallengeScriptVar body) as [scriptVar [e|]].
          + apply exec_addError in E'. subst. cbn. lia.
          + cbn [bind trigger exec record] in E'. destruct E' as (resp & tr2 & -> & E').
            rewrite countOp_cons. cbn [isHttpOp Nat.b2n].
            destruct resp as [resp|e].
            * cbn [bind trigger exec record] in E'.
              destruct E' as ([[s1 b1] e1] & tr3 & -> & E').
              rewrite countOp_cons. cbn [isHttpOp].
              destruct e1 as [e1|].
              -- apply exec_addError in E'. subst. cbn. lia.
              -- destruct E' as [-> _]. cbn. lia.
            * apply exec_addError in E'. subst. cbn. lia. }
      destruct err as [e|].
      * apply (A (Some e)) in E. lia.
      * destruct (negb (st =? StatusOK)).
        -- destruct (st =? StatusNotFound).
           ++ destruct E as [-> _]. cbn. lia.
           ++ apply (A (Some (BadStatusCodeError st))) in E. lia.
        -- apply (A None) in E. lia.
  - intros [-> _]. cbn. lia.
Qed.

(** X11: a call of Generate makes at most one GET of the page, one GET
    of the SDK script, one GET of the pixel challenge script and one POST
    of the pixel payload, and at most maxTries POSTs of sensor data. *)
Theorem Generate_request_budget (url_Parse : string -> url.URL + error)
  (userAgent pageUrl : string) (doHttpReq getCookie : funcValue) (maxTries : Z)
  (tr : list call) (res : result) :
  runs (Generate url_Parse userAgent pageUrl doHttpReq getCookie maxTries) tr res ->
  (countOp OpGetPage tr <= 1)%nat /\
  (countOp OpGetSdkScript tr <= 1)%nat /\
  (countOp OpPostSensorData tr <= Z.to_nat maxTries)%nat /\
  (countOp OpGetPixelChallengeScript tr <= 1)%nat /\
  (countOp OpPostPixelPayload tr <= 1)%nat.
Proof.
  intros (tr0 & o & E & H).
  assert (B : forall op,
             (countOp op tr
              <= Nat.b2n (Z.eqb OpGetPage op) + Nat.b2n (Z.eqb OpGetSdkScript op)
                 + Z.to_nat maxTries * Nat.b2n (Z.eqb OpPostSensorData op)
                 + Nat.b2n (Z.eqb OpGetPixelChallengeScript op)
                 + Nat.b2n (Z.eqb OpPostPixelPayload op))%nat).
  { intros op. unfold Generate in E.
    destruct (isNil doHttpReq); [destruct E as [-> ->]; destruct H as [-> _]; cbn; lia|].
    destruct (isNil getCookie); [destruct E as [-> ->]; destruct H as [-> _]; cbn; lia|].
    destruct (maxTries <=? 0); [destruct E as [-> ->]; destruct H as [-> _]; cbn; lia|].
    destruct (url_Parse pageUrl) as [u|e];
      [|destruct E as [-> ->]; destruct H as [-> _]; cbn; lia].
    destruct (negb (url.IsAbs u)); [destruct E as [-> ->]; destruct H as [-> _]; cbn; lia|].
    cbn [bind trigger exec record] in E.
    destruct E as ([[st body] err] & tr' & -> & E).
    destruct err as [e|].
    - destruct E as [-> ->]. destruct H as [-> _]. rewrite countOp_cons. cbn. lia.
    - destruct (negb (st =? StatusOK)); destruct E as [-> ->].
      + destruct H as [-> _]. rewrite countOp_cons. cbn. lia.
      + destruct H as (tp & ts & ti & Ep & Es & Il & -> & _).
        cbn [app]. rewrite countOp_cons, (countOp_interleave op _ _ _ Il). cbn [isHttpOp].
        apply (pixelBranch_budget _ _ op) in Ep.
        apply (sensorBranch_budget _ _ _ _ _ op) in Es. lia. }
  pose proof (B OpGetPage) as B0. pose proof (B OpGetSdkScript) as B1.
  pose proof (B OpPostSensorData) as B2. pose proof (B OpGetPixelChallengeScript) as B3.
  pose proof (B OpPostPixelPayload) as B4.
  cbn in B0, B1, B2, B3, B4. repeat split; lia.
Qed.

(** The runs of the pixel branch, read off its code. *)
Lemma pixelBranch_runs (ua pageBody : string) (tr : list call) :
  exec (pixelBranch ua pageBody) tr tt ->
  let '(ok, scriptUrl, postUrl) := GetPixelChallengeScriptURL pageBody in
  if negb ok then tr = []
  else
    let (htmlVar, err) := GetPixelChallengeHtmlVar pageBody in
    match err with
    | Some e => tr = [ErrorAdded e]
    | None =>
        exists st body err tail,
          tr = HttpCall OpGetPixelChallengeScript scriptUrl MethodGet None (st, body, err)
               :: tail /\
          match err with
          | Some e => tail = [ErrorAdded e]
          | None =>
              if negb (st =? StatusOK) then
                if st =? StatusNotFound then tail = []
                else tail = [ErrorAdded (BadStatusCodeError st)]
              else
                let (scriptVar, err) := GetPixelChallengeScriptVar body in
                match err with
                | Some e => tail = [ErrorAdded e]
                | None =>
                    exists answer tail',
                      tail = PixelPayloadCall (PixelSolveRequest.mk ua htmlVar scriptVar) answer
                             :: tail' /\
                      match answer with
                      | inr e => tail' = [ErrorAdded e]
                      | inl resp =>
                          exists st' body' err',
                            tail' = HttpCall OpPostPixelPayload postUrl MethodPost
                                      (Some (PixelSolveResponse.Payload resp))
                                      (st', body', err')
                                    :: match err' with
                                       | Some e => [ErrorAdded e]
                                       | None => []
                                       end
                      end
                end
          end
    end.
Proof.
  unfold pixelBranch.
  destruct (GetPixelChallengeScriptURL pageBody) as [[ok scriptUrl] postUrl].
  destruct (negb ok); [now intros [-> _]|].
  destruct (GetPixelChallengeHtmlVar pageBody) as [htmlVar [e|]].
  - intros E. now apply exec_addError in E.
  - cbn [bind trigger exec record]. intros ([[st body] err] & tr1 & -> & E).
    exists st, body, err, tr1. split; [reflexivity|].
    destruct err as [e|]; [now apply exec_addError in E|].
    destruct (negb (st =? StatusOK)).
    + destruct (st =? StatusNotFound); [now destruct E | now apply exec_addError in E].
    + destruct (GetPixelChallengeScriptVar body) as [scriptVar [e|]];
        [now apply exec_addError in E|].
      cbn [bind trigger exec record] in E. destruct E as (answer & tr2 & -> & E).
      exists answer, tr2. split; [reflexivity|].
      destruct answer as [resp|e]; [|now apply exec_addError in E].
      cbn [bind trigger exec record] in E.
      destruct E as ([[st' body'] err'] & tr3 & -> & E).
      exists st', body', err'. destruct err' as [e|].
      * apply exec_addError in E. now subst.
      * now destruct E as [-> _].
Qed.

(** ** At most one error for each branch *)

Lemma collected_app (a b : list call) :
  collected (a ++ b) = (collected a ++ collected b)%list.
Proof.
  induction a as [|c a IH]; [reflexivity|].
  destruct c; cbn [app collected]; now rewrite IH.
Qed.

Lemma errorLast_nil : errorLast [].
Proof. now left. Qed.

Lemma errorLast_error (e : error) : errorLast [ErrorAdded e].
Proof. right. now exists [], e. Qed.

Lemma errorLast_app (pre tr : list call) :
  collected pre = [] -> errorLast tr -> errorLast (pre ++ tr).
Proof.
  intros P [N | (tr' & e & -> & N)].
  - left. now rewrite collected_app, P, N.
  - right. exists (pre ++ tr')%list, e. split; [now rewrite app_assoc|].
    now rewrite collected_app, P, N.
Qed.

Lemma errorLast_cons (c : call) (tr : list call) :
  collected [c] = [] -> errorLast tr -> errorLast (c :: tr).
Proof. intros P L. now apply (errorLast_app [c]). Qed.

Lemma errorLast_length (tr : list call) :
  errorLast tr -> (List.length (collected tr) <= 1)%nat.
Proof.
  intros [N | (tr' & e & -> & N)].
  - rewrite N. cbn. lia.
  - rewrite collected_app, N. cbn. lia.
Qed.

Lemma collected_cookieReads (u : url.URL) (version : Version) (abck bmSz : string) :
  collected (cookieReads u version abck bmSz) = [].
Proof. unfold cookieReads. now destruct (String.eqb version Version2). Qed.

Ltac error_last :=
  repeat (apply errorLast_cons; [reflexivity|]);
  first [apply errorLast_nil | apply errorLast_error].

Lemma pixelBranch_errorLast (ua pageBody : string) (tr : list call) :
  exec (pixelBranch ua pageBody) tr tt -> errorLast tr.
Proof.
  intros E. apply pixelBranch_runs in E.
  destruct (GetPixelChallengeScriptURL pageBody) as [[ok scriptUrl] postUrl].
  destruct (negb ok); [subst; error_last|].
  destruct (GetPixelChallengeHtmlVar pageBody) as [htmlVar [e|]]; [subst; error_last|].
  destruct E as (st & body & err & tail & -> & E).
  destruct err as [e|]; [subst; error_last|].
  destruct (negb (st =? StatusOK)).
  - destruct (st =? StatusNotFound); subst; error_last.
  - destruct (GetPixelChallengeScriptVar body) as [scriptVar [e|]]; [subst; error_last|].
    destruct E as (answer & tail' & -> & E).
    destruct answer as [resp|e]; [|subst; error_last].
    destruct E as (st' & body' & err' & ->).
    destruct err'; error_last.
Qed.

Lemma sensorLoop_errorLast (ua pageUrl : string) (u : url.URL)
  (scriptUrl : string) (version : Version) (scriptValues : string) (n : nat) :
  forall i tr,
    exec (sensorLoop ua pageUrl u scriptUrl version scriptValues n i) tr tt ->
    errorLast tr.
Proof.
  induction n as [|n IH]; intros i tr E.
  - destruct E as [-> _]. error_last.
  - apply sensorLoop_step in E.
    destruct E as (abck & bmSz & answer & tail & _ & -> & R).
    apply errorLast_app; [apply collected_cookieReads|].
    destruct answer as [resp|e]; [|subst; error_last].
    destruct R as (st & body & err & tail' & -> & R).
    destruct err as [e|]; [subst; error_last|].
    destruct R as (v & tail'' & -> & R).
    do 3 (apply errorLast_cons; [reflexivity|]).
    destruct (IsCookieValid v i); [subst; error_last | now apply IH in R].
Qed.

Lemma sensorBranch_errorLast (ua pageUrl : string) (u : url.URL) (maxTries : Z)
  (pageBody : string) (tr : list call) :
  exec (sensorBranch ua pageUrl u maxTries pageBody) tr tt -> errorLast tr.
Proof.
  unfold sensorBranch.
  destruct (String.eqb (GetScriptPath pageBody) EmptyString).
  - intros [-> _]. error_last.
  - cbn [bind trigger exec record]. intros ([[st body] err] & tr1 & -> & E).
    apply errorLast_cons; [reflexivity|].
    destruct err as [e|]; [apply exec_addError in E; subst; error_last|].
    destruct (negb (st =? StatusOK)); [apply exec_addError in E; subst; error_last|].
    destruct (String.eqb (GetSdkVersion body) Version2 && negb (IsScriptStatic body)).
    + cbn [bind trigger exec record] in E. destruct E as (resp & tr2 & -> & E).
      apply errorLast_cons; [reflexivity|].
      destruct resp as [resp|e]; [|apply exec_addError in E; subst; error_last].
      now apply sensorLoop_errorLast in E.
    + now apply sensorLoop_errorLast in E.
Qed.

(** X12: a goroutine of Generate appends at most one error to errs, and
    the append is its last call: after an error the goroutine makes no
    further request. *)
Theorem branch_error_last (ua pageUrl : string) (u : url.URL) (maxTries : Z)
  (pageBody : string) (tr : list call) :
  exec (pixelBranch ua pageBody) tr tt \/
  exec (sensorBranch ua pageUrl u maxTries pageBody) tr tt ->
  collected tr = [] \/
  exists tr' e, tr = (tr' ++ [ErrorAdded e])%list /\ collected tr' = [].
Proof.
  intros [E | E].
  - now apply pixelBranch_errorLast in E.
  - now apply sensorBranch_errorLast in E.
Qed.

(** ** The result of Generate *)

Lemma collected_interleave (tp ts ti : list call) :
  interleave tp ts ti ->
  List.length (collected ti)
  = (List.length (collected tp) + List.length (collected ts))%nat.
Proof.
  induction 1 as [|x l r m _ IH|x l r m _ IH]; [reflexivity| |];
    destruct x; cbn [collected List.length]; lia.
Qed.

Lemma nonNil_Some (l : list error) : errors.nonNil (map Some l) = l.
Proof. induction l as [|e l IH]; [reflexivity|]. cbn. now rewrite IH. Qed.

Lemma Join_Some (l : list error) :
  errors.Join (map Some l) = match l with [] => None | _ => Some (joinError l) end.
Proof. unfold errors.Join. rewrite nonNil_Some. now destruct l. Qed.

(** A run that went past the GET of the page. *)
Lemma runs_fork_inv (url_Parse : string -> url.URL + error)
  (ua pageUrl : string) (doHttpReq getCookie : funcValue) (maxTries : Z)
  (op : HttpReqOp) (requestUrl requestMethod : string) (requestBody : option string)
  (pageBody : string) (rest : list call) (res : result) :
  runs (Generate url_Parse ua pageUrl doHttpReq getCookie maxTries)
       (HttpCall op requestUrl requestMethod requestBody (StatusOK, pageBody, None) :: rest)
       res ->
  exists u tp ts,
    url_Parse pageUrl = inl u /\ url.IsAbs u = true /\ 0 < maxTries /\
    exec (pixelBranch ua pageBody) tp tt /\
    exec (sensorBranch ua pageUrl u maxTries pageBody) ts tt /\
    interleave tp ts rest /\
    res = Returned (errors.Join (map Some (collected rest))).
Proof.
  intros (tr0 & o & E & H). unfold Generate in E.
  destruct (isNil doHttpReq); [destruct E as [-> ->]; now destruct H|].
  destruct (isNil getCookie); [destruct E as [-> ->]; now destruct H|].
  destruct (maxTries <=? 0) eqn:M; [destruct E as [-> ->]; now destruct H|].
  destruct (url_Parse pageUrl) as [u|e]; [|destruct E as [-> ->]; now destruct H].
  destruct (url.IsAbs u) eqn:A; cbn [negb] in E; [|destruct E as [-> ->]; now destruct H].
  cbn [bind trigger exec record] in E.
  destruct E as ([[st body] err] & tr' & -> & E).
  destruct err as [e|].
  - destruct E as [-> ->]. destruct H as [D _]. discriminate D.
  - destruct (st =? StatusOK) eqn:S; cbn [negb] in E; destruct E as [-> ->].
    + destruct H as (tp & ts & ti & Ep & Es & Il & D & ->).
      cbn [app] in D. inversion D; subst.
      exists u, tp, ts. apply Z.leb_gt in M. repeat split; auto.
    + destruct H as [D _]. inversion D; subst. discriminate S.
Qed.

Lemma runs_fork (url_Parse : string -> url.URL + error)
  (ua pageUrl : string) (u : url.URL) (maxTries : Z) (pageBody : string)
  (tp ts ti : list call) :
  url_Parse pageUrl = inl u -> url.IsAbs u = true -> 0 < maxTries ->
  exec (pixelBranch ua pageBody) tp tt ->
  exec (sensorBranch ua pageUrl u maxTries pageBody) ts tt ->
  interleave tp ts ti ->
  runs (Generate url_Parse ua pageUrl someFunc someFunc maxTries)
       (HttpCall OpGetPage pageUrl MethodGet None (StatusOK, pageBody, None) :: ti)
       (Returned (errors.Join (map Some (collected ti)))).
Proof.
  intros P A M Ep Es Il.
  exists [HttpCall OpGetPage pageUrl MethodGet None (StatusOK, pageBody, None)],
    (Fork (pixelBranch ua pageBody) (sensorBranch ua pageUrl u maxTries pageBody)).
  split; [now apply Generate_fork|].
  exists tp, ts, ti. auto.
Qed.

(** X13: once the page is fetched with status 200, Generate returns the
    join of the errors the two goroutines appended, in the order of the
    appends: nil exactly when neither appended one, and never more than
    two errors. *)
Theorem Generate_joins_errors (url_Parse : string -> url.URL + error)
  (ua pageUrl : string) (doHttpReq getCookie : funcValue) (maxTries : Z)
  (op : HttpReqOp) (requestUrl requestMethod : string) (requestBody : option string)
  (pageBody : string) (rest : list call) (res : result) :
  runs (Generate url_Parse ua pageUrl doHttpReq getCookie maxTries)
       (HttpCall op requestUrl requestMethod requestBody (StatusOK, pageBody, None) :: rest)
       res ->
  (res = Returned None <-> collected rest = []) /\
  (collected rest <> [] -> res = Returned (Some (joinError (collected rest)))) /\
  (List.length (collected rest) <= 2)%nat.
Proof.
  intros R. apply runs_fork_inv in R.
  destruct R as (u & tp & ts & _ & _ & _ & Ep & Es & Il & ->).
  rewrite Join_Some. split; [|split].
  - destruct (collected rest); split; intros H; congruence.
  - destruct (collected rest); congruence.
  - rewrite (collected_interleave _ _ _ Il).
    apply pixelBranch_errorLast, errorLast_length in Ep.
    apply sensorBranch_errorLast, errorLast_length in Es. lia.
Qed.

(** The runs of the sensor branch up to the loop, read off its code. *)
Lemma sensorBranch_runs (ua pageUrl : string) (u : url.URL) (maxTries : Z)
  (pageBody : string) (tr : list call) :
  exec (sensorBranch ua pageUrl u maxTries pageBody) tr tt ->
  let scriptUrl := url.Scheme u ++ "://" ++ url.Host u ++ GetScriptPath pageBody in
  if String.eqb (GetScriptPath pageBody) EmptyString then tr = []
  else
    exists st body err tail,
      tr = HttpCall OpGetSdkScript scriptUrl MethodGet None (st, body, err) :: tail /\
      match err with
      | Some e => tail = [ErrorAdded e]
      | None =>
          if negb (st =? StatusOK) then tail = [ErrorAdded (BadStatusCodeError st)]
          else
            let version := GetSdkVersion body in
            if String.eqb version Version2 && negb (IsScriptStatic body) then
              exists answer tail',
                tail = ScriptValuesCall body answer :: tail' /\
                match answer with
                | inr e => tail' = [ErrorAdded e]
                | inl resp =>
                    exec (sensorLoop ua pageUrl u scriptUrl version
                            (if DynamicScriptResponse.Success resp
                             then DynamicScriptResponse.ScriptValues resp
                             else EmptyString)
                            (Z.to_nat maxTries) 0) tail' tt
                end
            else
              exec (sensorLoop ua pageUrl u scriptUrl version EmptyString
                      (Z.to_nat maxTries) 0) tail tt
      end.
Proof.
  unfold sensorBranch. cbn zeta.
  destruct (String.eqb (GetScriptPath pageBody) EmptyString); [now intros [-> _]|].
  cbn [bind trigger exec record]. intros ([[st body] err] & tr1 & -> & E).
  exists st, body, err, tr1. split; [reflexivity|].
  destruct err as [e|]; [now apply exec_addError in E|].
  destruct (negb (st =? StatusOK)); [now apply exec_addError in E|].
  destruct (String.eqb (GetSdkVersion body) Version2 && negb (IsScriptStatic body)).
  - cbn [bind trigger exec record] in E. destruct E as (answer & tr2 & -> & E).
    exists answer, tr2. split; [reflexivity|].
    destruct answer as [resp|e]; [exact E | now apply exec_addError in E].
  - exact E.
Qed.

Lemma app_cons_single {A} (pre rest : list A) (x c : A) :
  (pre ++ x :: rest)%list = [c] -> pre = [] /\ x = c /\ rest = [].
Proof.
  destruct pre as [|p pre]; cbn; intros E; inversion E; subst; auto.
  now destruct pre.
Qed.

Lemma app_cons_cons {A} (pre rest tail : list A) (x c : A) :
  (pre ++ x :: rest)%list = c :: tail ->
  (pre = [] /\ x = c /\ rest = tail) \/
  (exists pre', pre = c :: pre' /\ (pre' ++ x :: rest)%list = tail).
Proof.
  destruct pre as [|p pre]; cbn; intros E; inversion E; subst; [now left|].
  right. now exists pre.
Qed.

Lemma not_in_cookieReads (u : url.URL) (version : Version) (abck bmSz : string)
  (c : call) :
  (forall cu name v, c <> CookieCall cu name v) ->
  ~ In c (cookieReads u version abck bmSz).
Proof.
  intros N. unfold cookieReads.
  destruct (String.eqb version Version2); cbn; intros H;
    repeat (destruct H as [H | H]; [symmetry in H; now apply N in H|]); exact H.
Qed.

(** ** The stop signal in the loop *)

Lemma sensorLoop_nil (ua pageUrl : string) (u : url.URL)
  (scriptUrl : string) (version : Version) (scriptValues : string) (n : nat) (i : Z) :
  exec (sensorLoop ua pageUrl u scriptUrl version scriptValues n i) [] tt <-> n = 0%nat.
Proof.
  destruct n as [|n]; cbn [sensorLoop bind trigger exec record].
  - split; auto.
  - split; [|discriminate]. intros (r & tr' & D & _). discriminate D.
Qed.

Lemma sensorLoop_stop (ua pageUrl : string) (u : url.URL)
  (scriptUrl : string) (version : Version) (scriptValues : string) (n : nat) :
  forall i pre requestUrl requestMethod requestBody st body rest0,
    exec (sensorLoop ua pageUrl u scriptUrl version scriptValues n i)
         (pre ++ HttpCall OpPostSensorData requestUrl requestMethod requestBody
                   (st, body, None)
              :: rest0) tt ->
    exists v rest,
      rest0 = CookieCall u "_abck" v :: rest /\
      (rest = [] <->
       IsCookieValid v (i + Z.of_nat (countOp OpPostSensorData pre)) = true \/
       (n <= countOp OpPostSensorData pre + 1)%nat).
Proof.
  induction n as [|n IH]; intros i pre url m b st body rest0 E.
  - destruct E as [D _]. now destruct pre.
  - apply sensorLoop_step in E.
    destruct E as (abck & bmSz & answer & tail & _ & D & R).
    destruct (app_cons_not_in _ _ _ _ _ D) as (pre1 & -> & D');
      [apply not_in_cookieReads; intros; discriminate|].
    clear D. rename D' into D.
    rewrite countOp_app, countOp_cookieReads. cbn [Nat.add].
    apply app_cons_cons in D. destruct D as [(_ & D & _) | (pre2 & -> & D)];
      [discriminate D|].
    rewrite countOp_cons. cbn [isHttpOp Nat.b2n Nat.add].
    destruct answer as [resp|e].
    2:{ rewrite R in D. apply app_cons_single in D. destruct D as (_ & D & _). discriminate D. }
    destruct R as (st0 & body0 & err0 & tail' & -> & R).
    apply app_cons_cons in D. destruct D as [(-> & D & <-) | (pre3 & -> & D)].
    + inversion D; subst. clear D.
      destruct R as (v0 & tail'' & -> & R).
      exists v0, tail''. split; [reflexivity|].
      cbn [countOp filter List.length Z.of_nat]. rewrite Z.add_0_r.
      destruct (IsCookieValid v0 i).
      * subst. split; auto.
      * split.
        -- intros ->. right. apply sensorLoop_nil in R. subst n. cbn. lia.
        -- intros [H | H]; [discriminate H|].
           destruct n as [|n]; [now destruct R | cbn in H; lia].
    + rewrite countOp_cons. cbn [isHttpOp].
      change (OpPostSensorData =? OpPostSensorData) with true. cbn [Nat.b2n].
      destruct err0 as [e|].
      { rewrite R in D. apply app_cons_single in D. destruct D as (_ & D & _). discriminate D. }
      destruct R as (v0 & tail'' & -> & R).
      apply app_cons_cons in D. destruct D as [(_ & D & _) | (pre4 & -> & D)];
        [discriminate D|].
      rewrite countOp_cons. cbn [isHttpOp Nat.b2n Nat.add].
      destruct (IsCookieValid v0 i).
      { rewrite R in D. now destruct pre4. }
      subst tail''. apply IH in R. destruct R as (v & rest & -> & R).
      exists v, rest. split; [reflexivity|].
      rewrite Nat2Z.inj_succ, <- Z.add_1_l, Z.add_assoc. rewrite R.
      split; (intros [H | H]; [now left | right; lia]).
Qed.

Ltac single D :=
  apply app_cons_single in D; destruct D as (_ & D & _); discriminate D.

(** X14: the stop signal.  In the sensor goroutine every POST that
    returned no error is followed by a read of the cookie _abck, and the
    goroutine ends there exactly when IsCookieValid accepts the value for
    the number of POSTs made before this one, or when this was the POST of
    the last try; otherwise it goes on with the next try. *)
Theorem sensorBranch_stop (ua pageUrl : string) (u : url.URL) (maxTries : Z)
  (pageBody : string) (pre : list call) (requestUrl requestMethod : string)
  (requestBody : option string) (st : Z) (body : string) (rest0 : list call) :
  exec (sensorBranch ua pageUrl u maxTries pageBody)
       (pre ++ HttpCall OpPostSensorData requestUrl requestMethod requestBody
                 (st, body, None)
            :: rest0) tt ->
  exists v rest,
    rest0 = CookieCall u "_abck" v :: rest /\
    (rest = [] <->
     IsCookieValid v (Z.of_nat (countOp OpPostSensorData pre)) = true \/
     (Z.to_nat maxTries <= countOp OpPostSensorData pre + 1)%nat).
Proof.
  intros E. apply sensorBranch_runs in E. cbn zeta in E.
  destruct (String.eqb (GetScriptPath pageBody) EmptyString);
    [now destruct pre|].
  destruct E as (st0 & body0 & err0 & tail & D & R).
  apply app_cons_cons in D. destruct D as [(_ & D & _) | (pre1 & -> & D)];
    [inversion D|].
  rewrite countOp_cons. cbn [isHttpOp].
  change (OpGetSdkScript =? OpPostSensorData) with false. cbn [Nat.b2n Nat.add].
  destruct err0 as [e|]; [rewrite R in D; single D|].
  destruct (negb (st0 =? StatusOK)); [rewrite R in D; single D|].
  destruct (String.eqb (GetSdkVersion body0) Version2 && negb (IsScriptStatic body0)).
  - destruct R as (answer & tail' & -> & R).
    apply app_cons_cons in D. destruct D as [(_ & D & _) | (pre2 & -> & D)];
      [discriminate D|].
    rewrite countOp_cons. cbn [isHttpOp Nat.b2n Nat.add].
    destruct answer as [resp|e]; [|rewrite R in D; single D].
    subst tail'. apply sensorLoop_stop in R. destruct R as (v & rest & -> & R).
    rewrite Z.add_0_l in R. now exists v, rest.
  - subst tail. apply sensorLoop_stop in R. destruct R as (v & rest & -> & R).
    rewrite Z.add_0_l in R. now exists v, rest.
Qed.

(** ** The requests to the API *)

Lemma sensorLoop_request (ua pageUrl : string) (u : url.URL)
  (scriptUrl : string) (version : Version) (scriptValues : string) (n : nat) :
  forall i pre req answer rest,
    exec (sensorLoop ua pageUrl u scriptUrl version scriptValues n i)
         (pre ++ SensorDataCall req answer :: rest) tt ->
    exists pre' abck bmSz,
      pre = (pre' ++ cookieReads u version abck bmSz)%list /\
      req = GenerateRequest.mk ua version pageUrl abck bmSz scriptValues /\
      (String.eqb version Version2 = false -> bmSz = EmptyString).
Proof.
  induction n as [|n IH]; intros i pre req answer rest E.
  - destruct E as [D _]. now destruct pre.
  - apply sensorLoop_step in E.
    destruct E as (abck & bmSz & answer0 & tail & B & D & R).
    destruct (app_cons_not_in _ _ _ _ _ D) as (pre1 & -> & D');
      [apply not_in_cookieReads; intros; discriminate|].
    clear D. rename D' into D.
    apply app_cons_cons in D. destruct D as [(-> & D & _) | (pre2 & -> & D)].
    + inversion D; subst. exists [], abck, bmSz.
      rewrite app_nil_r. cbn [app]. auto.
    + destruct answer0 as [resp|e]; [|rewrite R in D; single D].
      destruct R as (st0 & body0 & err0 & tail' & -> & R).
      apply app_cons_cons in D. destruct D as [(_ & D & _) | (pre3 & -> & D)];
        [discriminate D|].
      destruct err0 as [e|]; [rewrite R in D; single D|].
      destruct R as (v0 & tail'' & -> & R).
      apply app_cons_cons in D. destruct D as [(_ & D & _) | (pre4 & -> & D)];
        [discriminate D|].
      destruct (IsCookieValid v0 i); [rewrite R in D; now destruct pre4|].
      subst tail''. apply IH in R.
      destruct R as (pre' & abck' & bmSz' & -> & -> & B').
      eexists (cookieReads u version abck bmSz ++ _ :: _ :: _ :: pre')%list, abck', bmSz'.
      split; [now rewrite <- app_assoc|]. split; [reflexivity | exact B'].
Qed.

(** X15: each request to GenerateSensorData is built anew from the cookies
    as they are read right before it: _abck always, bm_sz only when the
    script is of version 2 (the field is empty otherwise), together with
    the user agent and the page URL of the call and the version detected
    in the body of the SDK script, which was fetched with status 200 from
    scheme://host followed by the path found in the page. *)
Theorem sensorBranch_request (ua pageUrl : string) (u : url.URL) (maxTries : Z)
  (pageBody : string) (pre : list call) (req : GenerateRequest.t)
  (answer : GenerateResponse.t + error) (rest : list call) :
  exec (sensorBranch ua pageUrl u maxTries pageBody)
       (pre ++ SensorDataCall req answer :: rest) tt ->
  exists scriptBody mid,
    pre = (HttpCall OpGetSdkScript
             (url.Scheme u ++ "://" ++ url.Host u ++ GetScriptPath pageBody)
             MethodGet None (StatusOK, scriptBody, None)
           :: mid
           ++ cookieReads u (GetSdkVersion scriptBody)
                (GenerateRequest.Abck req) (GenerateRequest.BmSz req))%list /\
    GenerateRequest.UserAgent req = ua /\
    GenerateRequest.PageURL req = pageUrl /\
    GenerateRequest.Version req = GetSdkVersion scriptBody /\
    (GetSdkVersion scriptBody <> Version2 -> GenerateRequest.BmSz req = EmptyString).
Proof.
  intros E. apply sensorBranch_runs in E. cbn zeta in E.
  destruct (String.eqb (GetScriptPath pageBody) EmptyString);
    [now destruct pre|].
  destruct E as (st0 & body0 & err0 & tail & D & R).
  apply app_cons_cons in D. destruct D as [(_ & D & _) | (pre1 & -> & D)];
    [discriminate D|].
  destruct err0 as [e|]; [rewrite R in D; single D|].
  destruct (st0 =? StatusOK) eqn:S; cbn [negb] in R; [|rewrite R in D; single D].
  apply Z.eqb_eq in S. subst st0.
  assert (V : forall bmSz,
             (String.eqb (GetSdkVersion body0) Version2 = false -> bmSz = EmptyString) ->
             GetSdkVersion body0 <> Version2 -> bmSz = EmptyString).
  { intros bmSz B N. apply B. now apply String.eqb_neq. }
  destruct (String.eqb (GetSdkVersion body0) Version2 && negb (IsScriptStatic body0)).
  - destruct R as (answer0 & tail' & -> & R).
    apply app_cons_cons in D. destruct D as [(_ & D & _) | (pre2 & -> & D)];
      [discriminate D|].
    destruct answer0 as [resp|e]; [|rewrite R in D; single D].
    subst tail'. apply sensorLoop_request in R.
    destruct R as (pre' & abck & bmSz & -> & -> & B).
    exists body0, (ScriptValuesCall body0 (inl resp) :: pre'). cbn.
    repeat split. now apply V.
  - subst tail. apply sensorLoop_request in R.
    destruct R as (pre' & abck & bmSz & -> & -> & B).
    exists body0, pre'. cbn. repeat split. now apply V.
Qed.

Lemma sensorLoop_carries (ua pageUrl : string) (u : url.URL)
  (scriptUrl : string) (version : Version) (scriptValues : string) (n : nat) :
  forall i tr,
    exec (sensorLoop ua pageUrl u scriptUrl version scriptValues n i) tr tt ->
    Forall (carries scriptValues) tr.
Proof.
  induction n as [|n IH]; intros i tr E.
  - destruct E as [-> _]. constructor.
  - apply sensorLoop_step in E.
    destruct E as (abck & bmSz & answer & tail & _ & -> & R).
    apply Forall_app. split.
    { unfold cookieReads. destruct (String.eqb version Version2); repeat constructor. }
    constructor; [reflexivity|].
    destruct answer as [resp|e]; [|subst; repeat constructor].
    destruct R as (st & body & err & tail' & -> & R).
    constructor; [exact I|].
    destruct err as [e|]; [subst; repeat constructor|].
    destruct R as (v & tail'' & -> & R).
    constructor; [exact I|].
    destruct (IsCookieValid v i); [subst; constructor | now apply IH in R].
Qed.

(** X16: the dynamic script values.  After the SDK script is fetched with
    status 200, GetDynamicScriptValues is called exactly when the script
    is of version 2 and not static, as the next call and on the body of the
    script; its error ends the goroutine, and otherwise every request to
    GenerateSensorData of the run carries the values of its answer when the
    answer says success, and the empty string when it does not.  For every
    other script the API is never asked for values, and every request
    carries the empty string. *)
Theorem sensorBranch_script_values (ua pageUrl : string) (u : url.URL) (maxTries : Z)
  (pageBody : string) (op : HttpReqOp) (requestUrl requestMethod : string)
  (requestBody : option string) (scriptBody : string) (rest : list call) :
  exec (sensorBranch ua pageUrl u maxTries pageBody)
       (HttpCall op requestUrl requestMethod requestBody (StatusOK, scriptBody, None)
        :: rest) tt ->
  if String.eqb (GetSdkVersion scriptBody) Version2 && negb (IsScriptStatic scriptBody)
  then
    exists answer loop,
      rest = ScriptValuesCall scriptBody answer :: loop /\
      match answer with
      | inl resp =>
          Forall (carries (if DynamicScriptResponse.Success resp
                           then DynamicScriptResponse.ScriptValues resp
                           else EmptyString)) loop
      | inr e => loop = [ErrorAdded e]
      end
  else Forall (carries EmptyString) rest.
Proof.
  intros E. apply sensorBranch_runs in E. cbn zeta in E.
  destruct (String.eqb (GetScriptPath pageBody) EmptyString); [discriminate E|].
  destruct E as (st0 & body0 & err0 & tail & D & R).
  inversion D; subst. clear D. cbn [negb Z.eqb StatusOK Pos.eqb] in R.
  destruct (String.eqb (GetSdkVersion body0) Version2 && negb (IsScriptStatic body0)).
  - destruct R as (answer & tail' & -> & R).
    exists answer, tail'. split; [reflexivity|].
    destruct answer as [resp|e]; [now apply sensorLoop_carries in R | exact R].
  - now apply sensorLoop_carries in R.
Qed.

(** ** Failures of the script fetches *)

(** X17: when the fetch of a goroutine's script fails, the goroutine
    appends the error and ends.  An error returned by the caller's function
    is appended as it is, whatever the status code that came with it; in
    the sensor goroutine every status other than 200, 404 included, is
    appended as a BadStatusCodeError. *)
Theorem script_fetch_failure (ua pageUrl : string) (u : url.URL) (maxTries : Z)
  (pageBody : string) (op : HttpReqOp) (requestUrl requestMethod : string)
  (requestBody : option string) (st : Z) (body : string) (rest : list call) :
  (forall e,
      exec (pixelBranch ua pageBody)
           (HttpCall op requestUrl requestMethod requestBody (st, body, Some e) :: rest) tt \/
      exec (sensorBranch ua pageUrl u maxTries pageBody)
           (HttpCall op requestUrl requestMethod requestBody (st, body, Some e) :: rest) tt ->
      rest = [ErrorAdded e]) /\
  (exec (sensorBranch ua pageUrl u maxTries pageBody)
        (HttpCall op requestUrl requestMethod requestBody (st, body, None) :: rest) tt ->
   st <> StatusOK ->
   rest = [ErrorAdded (BadStatusCodeError st)]).
Proof.
  split.
  - intros e [E | E].
    + apply pixelBranch_runs in E.
      destruct (GetPixelChallengeScriptURL pageBody) as [[ok scriptUrl] postUrl].
      destruct (negb ok); [discriminate E|].
      destruct (GetPixelChallengeHtmlVar pageBody) as [htmlVar [e'|]]; [discriminate E|].
      destruct E as (st0 & body0 & err0 & tail & D & R).
      inversion D; subst. exact R.
    + apply sensorBranch_runs in E. cbn zeta in E.
      destruct (String.eqb (GetScriptPath pageBody) EmptyString); [discriminate E|].
      destruct E as (st0 & body0 & err0 & tail & D & R).
      inversion D; subst. exact R.
  - intros E N. apply sensorBranch_runs in E. cbn zeta in E.
    destruct (String.eqb (GetScriptPath pageBody) EmptyString); [discriminate E|].
    destruct E as (st0 & body0 & err0 & tail & D & R).
    inversion D; subst. apply Z.eqb_neq in N. now rewrite N in R.
Qed.

(** ** The payload of the pixel challenge *)

(** X18: a POST of the pixel branch is the third call of its run.  It
    follows the GET of the challenge script, answered with status 200, and
    the answer of GeneratePixelPayload to a request that carries the user
    agent, the HTML variable of the page and the variable of the fetched
    script; it goes to the post URL found in the page with the payload of
    that answer as its body; and after it the run only appends the error of
    the POST, if there is one. *)
Theorem pixelBranch_post (ua pageBody : string) (tr : list call)
  (requestUrl requestMethod : string) (requestBody : option string)
  (answer : Z * string * option error) :
  exec (pixelBranch ua pageBody) tr tt ->
  In (HttpCall OpPostPixelPayload requestUrl requestMethod requestBody answer) tr ->
  exists scriptUrl postUrl htmlVar scriptBody scriptVar resp,
    GetPixelChallengeScriptURL pageBody = (true, scriptUrl, postUrl) /\
    GetPixelChallengeHtmlVar pageBody = (htmlVar, None) /\
    GetPixelChallengeScriptVar scriptBody = (scriptVar, None) /\
    tr = (HttpCall OpGetPixelChallengeScript scriptUrl MethodGet None
            (StatusOK, scriptBody, None)
          :: PixelPayloadCall (PixelSolveRequest.mk ua htmlVar scriptVar) (inl resp)
          :: HttpCall OpPostPixelPayload requestUrl requestMethod requestBody answer
          :: match snd answer with
             | Some e => [ErrorAdded e]
             | None => []
             end)%list /\
    requestUrl = postUrl /\ requestMethod = MethodPost /\
    requestBody = Some (PixelSolveResponse.Payload resp).
Proof.
  intros E I. apply pixelBranch_runs in E.
  destruct (GetPixelChallengeScriptURL pageBody) as [[ok scriptUrl] postUrl].
  destruct ok; cbn [negb] in E; [|subst; destruct I].
  destruct (GetPixelChallengeHtmlVar pageBody) as [htmlVar [e|]].
  { subst. destruct I as [I | []]. discriminate I. }
  destruct E as (st & body & err & tail & -> & E).
  destruct I as [I | I]; [inversion I|].
  destruct err as [e|].
  { subst. destruct I as [I | []]. discriminate I. }
  destruct (st =? StatusOK) eqn:S; cbn [negb] in E.
  2:{ destruct (st =? StatusNotFound); subst; [destruct I|].
      destruct I as [I | []]. discriminate I. }
  apply Z.eqb_eq in S. subst st.
  destruct (GetPixelChallengeScriptVar body) as [scriptVar [e|]] eqn:V.
  { subst. destruct I as [I | []]. discriminate I. }
  destruct E as (ans & tail' & -> & E).
  destruct I as [I | I]; [discriminate I|].
  destruct ans as [resp|e].
  2:{ subst. destruct I as [I | []]. discriminate I. }
  destruct E as (st' & body' & err' & ->).
  destruct I as [I | I].
  - inversion I; subst. cbn [snd].
    exists scriptUrl, requestUrl, htmlVar, body, scriptVar, resp. repeat split; auto.
  - destruct err'; [destruct I as [I | []]; discriminate I | destruct I].
Qed.

(** ** Sample runs *)

Lemma sampleRun_exec :
  exec (sensorBranch "Mozilla/5.0" "https://a.example/" sampleURL 2 sensorPage) sampleRun tt.
Proof.
  assert (P : GetScriptPath sensorPage = "/static/sdk-1") by (vm_compute; reflexivity).
  assert (V : GetSdkVersion "var _acxj=1;" = Version175) by (vm_compute; reflexivity).
  assert (C1 : IsCookieValid "c1~-1~x" 0 = false) by (vm_compute; reflexivity).
  assert (C2 : IsCookieValid "c2~0~x" (0 + 1) = true) by (vm_compute; reflexivity).
  unfold sensorBranch. rewrite P.
  cbn [String.eqb Ascii.eqb Bool.eqb]. answer.
  cbn [negb Z.eqb StatusOK Pos.eqb]. rewrite V.
  change (String.eqb Version175 Version2) with false. cbn [andb].
  change (Z.to_nat 2) with 2%nat.
  cbn [sensorLoop]. change (String.eqb Version175 Version2) with false.
  answer. answer. answer. answer. rewrite C1.
  change (String.eqb Version175 Version2) with false.
  answer. answer. answer. answer. rewrite C2.
  split; reflexivity.
Qed.

Lemma sampleDynamicRun_exec :
  exec (sensorBranch "Mozilla/5.0" "https://a.example/" sampleURL 2 sensorPage)
       sampleDynamicRun tt.
Proof.
  assert (P : GetScriptPath sensorPage = "/static/sdk-1") by (vm_compute; reflexivity).
  assert (V : GetSdkVersion "(function(){})" = Version2) by (vm_compute; reflexivity).
  assert (S : IsScriptStatic "(function(){})" = false) by (vm_compute; reflexivity).
  assert (C : IsCookieValid "a1~0~x" 0 = true) by (vm_compute; reflexivity).
  unfold sensorBranch. rewrite P.
  cbn [String.eqb Ascii.eqb Bool.eqb]. answer.
  cbn [negb Z.eqb StatusOK Pos.eqb]. rewrite V, S.
  change (String.eqb Version2 Version2) with true. cbn [andb negb].
  answer. cbn [DynamicScriptResponse.Success DynamicScriptResponse.ScriptValues].
  change (Z.to_nat 2) with 2%nat.
  cbn [sensorLoop]. change (String.eqb Version2 Version2) with true.
  answer. answer. answer. answer. answer. rewrite C.
  split; reflexivity.
Qed.

Lemma samplePixelRun_exec : exec (pixelBranch "Mozilla/5.0" pixelPage) samplePixelRun tt.
Proof.
  assert (U : GetPixelChallengeScriptURL pixelPage
              = (true, "https://x.example/akam/12/abcDEF",
                 "https://x.example/akam/12/pixel_abcDEF"))
    by (vm_compute; reflexivity).
  assert (V : GetPixelChallengeHtmlVar pixelPage = (500, None))
    by (vm_compute; reflexivity).
  assert (S : GetPixelChallengeScriptVar samplePixelScript = ("c", None))
    by (vm_compute; reflexivity).
  unfold pixelBranch. rewrite U, V. cbn [negb]. answer.
  cbn [negb Z.eqb StatusOK Pos.eqb]. rewrite S.
  answer. answer. split; reflexivity.
Qed.

Lemma sampleFailedPixel_exec :
  exec (pixelBranch "Mozilla/5.0" bothPage)
       [HttpCall OpGetPixelChallengeScript "https://x.example/akam/12/abcDEF" MethodGet
          None (500, EmptyString, None);
        ErrorAdded (BadStatusCodeError 500)] tt.
Proof.
  assert (U : GetPixelChallengeScriptURL bothPage
              = (true, "https://x.example/akam/12/abcDEF",
                 "https://x.example/akam/12/pixel_abcDEF"))
    by (vm_compute; reflexivity).
  assert (V : GetPixelChallengeHtmlVar bothPage = (500, None))
    by (vm_compute; reflexivity).
  unfold pixelBranch. rewrite U, V. cbn [negb]. answer.
  cbn [negb Z.eqb StatusOK StatusNotFound Pos.eqb]. now apply exec_addError.
Qed.

Lemma sampleFailedSensor_exec :
  exec (sensorBranch "Mozilla/5.0" "https://a.example" sampleURL 2 bothPage)
       [HttpCall OpGetSdkScript sampleScriptUrl MethodGet None (404, EmptyString, None);
        ErrorAdded (BadStatusCodeError 404)] tt.
Proof.
  assert (P : GetScriptPath bothPage = "/static/sdk-1") by (vm_compute; reflexivity).
  unfold sensorBranch. rewrite P. cbn [String.eqb Ascii.eqb Bool.eqb]. answer.
  cbn [negb Z.eqb StatusOK Pos.eqb]. now apply exec_addError.
Qed.

Lemma sampleFailedRun_runs :
  runs (Generate sampleParse "Mozilla/5.0" "https://a.example" someFunc someFunc 2)
       (HttpCall OpGetPage "https://a.example" MethodGet None (StatusOK, bothPage, None)
        :: sampleFailedRun)
       (Returned (Some (joinError [BadStatusCodeError 404; BadStatusCodeError 500]))).
Proof.
  apply (runs_fork sampleParse "Mozilla/5.0" "https://a.example" sampleURL 2 bothPage
           _ _ sampleFailedRun eq_refl eq_refl eq_refl
           sampleFailedPixel_exec sampleFailedSensor_exec).
  repeat constructor.
Qed.

Lemma sampleRun_runs :
  runs (Generate (fun _ => inl sampleURL) "Mozilla/5.0" "https://a.example/"
          someFunc someFunc 2)
       (HttpCall OpGetPage "https://a.example/" MethodGet None (StatusOK, sensorPage, None)
        :: sampleRun)
       (Returned None).
Proof.
  assert (U : fst (fst (GetPixelChallengeScriptURL sensorPage)) = false)
    by (vm_compute; reflexivity).
  apply (runs_fork (fun _ => inl sampleURL) "Mozilla/5.0" "https://a.example/" sampleURL 2
           sensorPage [] sampleRun sampleRun eq_refl eq_refl eq_refl).
  - unfold pixelBranch.
    destruct (GetPixelChallengeScriptURL sensorPage) as [[ok su] pu].
    cbn [fst] in U. subst ok. cbn. auto.
  - exact sampleRun_exec.
  - unfold sampleRun, sampleRunStart. repeat constructor.
Qed.

(** ** The properties of the runs on the sample runs *)

Lemma Generate_request_budget_witness :
  let tr :=
    HttpCall OpGetPage "https://a.example/" MethodGet None (StatusOK, sensorPage, None)
    :: sampleRun in
  (countOp OpGetPage tr <= 1)%nat /\
  (countOp OpGetSdkScript tr <= 1)%nat /\
  (countOp OpPostSensorData tr <= Z.to_nat 2)%nat /\
  (countOp OpGetPixelChallengeScript tr <= 1)%nat /\
  (countOp OpPostPixelPayload tr <= 1)%nat.
Proof.
  exact (Generate_request_budget (fun _ => inl sampleURL) "Mozilla/5.0" "https://a.example/"
           someFunc someFunc 2 _ _ sampleRun_runs).
Defined.

Lemma branch_error_last_witness :
  collected sampleFailedRun = [BadStatusCodeError 404; BadStatusCodeError 500] /\
  exists tr' e,
    [HttpCall OpGetSdkScript sampleScriptUrl MethodGet None (404, EmptyString, None);
     ErrorAdded (BadStatusCodeError 404)] = (tr' ++ [ErrorAdded e])%list /\
    collected tr' = [].
Proof.
  split; [reflexivity|].
  destruct (branch_error_last "Mozilla/5.0" "https://a.example" sampleURL 2 bothPage _
              (or_intror sampleFailedSensor_exec)) as [N | H].
  - discriminate N.
  - exact H.
Defined.

Lemma Generate_joins_errors_witness :
  (Returned (Some (joinError [BadStatusCodeError 404; BadStatusCodeError 500]))
   = Returned None <-> collected sampleFailedRun = []) /\
  (collected sampleFailedRun <> [] ->
   Returned (Some (joinError [BadStatusCodeError 404; BadStatusCodeError 500]))
   = Returned (Some (joinError (collected sampleFailedRun)))) /\
  (List.length (collected sampleFailedRun) <= 2)%nat.
Proof.
  exact (Generate_joins_errors sampleParse "Mozilla/5.0" "https://a.example"
           someFunc someFunc 2 _ _ _ _ _ _ _ sampleFailedRun_runs).
Defined.

Lemma sensorBranch_stop_witness :
  exists v rest,
    [CookieCall sampleURL "_abck" "c2~0~x"] = CookieCall sampleURL "_abck" v :: rest /\
    (rest = [] <->
     IsCookieValid v
       (Z.of_nat (countOp OpPostSensorData (sampleRunStart ++ [sampleRunAnswer]))) = true \/
     (Z.to_nat 2 <= countOp OpPostSensorData (sampleRunStart ++ [sampleRunAnswer]) + 1)%nat).
Proof.
  exact (sensorBranch_stop "Mozilla/5.0" "https://a.example/" sampleURL 2 sensorPage
           (sampleRunStart ++ [sampleRunAnswer])%list sampleScriptUrl MethodPost
           (Some (sensorBody samplePayload)) 201 EmptyString
           [CookieCall sampleURL "_abck" "c2~0~x"] sampleRun_exec).
Defined.

Lemma sensorBranch_request_witness :
  exists scriptBody mid,
    sampleDynamicStart
    = (HttpCall OpGetSdkScript
         (url.Scheme sampleURL ++ "://" ++ url.Host sampleURL ++ GetScriptPath sensorPage)
         MethodGet None (StatusOK, scriptBody, None)
       :: mid ++ cookieReads sampleURL (GetSdkVersion scriptBody) "a0" "b0")%list /\
    "Mozilla/5.0" = "Mozilla/5.0" /\
    "https://a.example/" = "https://a.example/" /\
    Version2 = GetSdkVersion scriptBody /\
    (GetSdkVersion scriptBody <> Version2 -> "b0" = EmptyString).
Proof.
  exact (sensorBranch_request "Mozilla/5.0" "https://a.example/" sampleURL 2 sensorPage
           sampleDynamicStart sampleDynamicRequest _ _ sampleDynamicRun_exec).
Defined.

Lemma sensorBranch_script_values_witness :
  if String.eqb (GetSdkVersion "(function(){})") Version2
     && negb (IsScriptStatic "(function(){})")
  then
    exists answer loop,
      tl sampleDynamicRun = ScriptValuesCall "(function(){})" answer :: loop /\
      match answer with
      | inl resp =>
          Forall (carries (if DynamicScriptResponse.Success resp
                           then DynamicScriptResponse.ScriptValues resp
                           else EmptyString)) loop
      | inr e => loop = [ErrorAdded e]
      end
  else Forall (carries EmptyString) (tl sampleDynamicRun).
Proof.
  exact (sensorBranch_script_values "Mozilla/5.0" "https://a.example/" sampleURL 2 sensorPage
           OpGetSdkScript sampleScriptUrl MethodGet None "(function(){})"
           (tl sampleDynamicRun) sampleDynamicRun_exec).
Defined.

Lemma script_fetch_failure_witness :
  404 <> StatusOK /\
  [ErrorAdded (BadStatusCodeError 404)] = [ErrorAdded (BadStatusCodeError 404)].
Proof.
  assert (N : 404 <> StatusOK) by discriminate.
  split; [exact N|].
  exact (proj2 (script_fetch_failure "Mozilla/5.0" "https://a.example" sampleURL 2 bothPage
                  OpGetSdkScript sampleScriptUrl MethodGet None 404 EmptyString
                  [ErrorAdded (BadStatusCodeError 404)])
           sampleFailedSensor_exec N).
Defined.

Lemma pixelBranch_post_witness :
  exists scriptUrl postUrl htmlVar scriptBody scriptVar resp,
    GetPixelChallengeScriptURL pixelPage = (true, scriptUrl, postUrl) /\
    GetPixelChallengeHtmlVar pixelPage = (htmlVar, None) /\
    GetPixelChallengeScriptVar scriptBody = (scriptVar, None) /\
    samplePixelRun
    = [HttpCall OpGetPixelChallengeScript scriptUrl MethodGet None
         (StatusOK, scriptBody, None);
       PixelPayloadCall (PixelSolveRequest.mk "Mozilla/5.0" htmlVar scriptVar) (inl resp);
       HttpCall OpPostPixelPayload "https://x.example/akam/12/pixel_abcDEF" MethodPost
         (Some "a=1&b=2") (200, EmptyString, None)] /\
    "https://x.example/akam/12/pixel_abcDEF" = postUrl /\
    MethodPost = MethodPost /\
    Some "a=1&b=2" = Some (PixelSolveResponse.Payload resp).
Proof.
  exact (pixelBranch_post "Mozilla/5.0" pixelPage samplePixelRun
           "https://x.example/akam/12/pixel_abcDEF" MethodPost (Some "a=1&b=2")
           (200, EmptyString, None) samplePixelRun_exec
           (or_intror (or_intror (or_introl eq_refl)))).
Defined.

Lemma Generate_plain_page_witness :
  tl [HttpCall OpGetPage "https://a.example" MethodGet None (StatusOK, plainPage, None)] = []
  /\ Returned None = Returned None.
Proof.
  assert (U : fst (fst (GetPixelChallengeScriptURL plainPage)) = false)
    by (vm_compute; reflexivity).
  assert (P : GetScriptPath plainPage = EmptyString) by (vm_compute; reflexivity).
  assert (Ep : exec (pixelBranch "Mozilla/5.0" plainPage) [] tt).
  { unfold pixelBranch. destruct (GetPixelChallengeScriptURL plainPage) as [[ok su] pu].
    cbn [fst] in U. subst ok. cbn. auto. }
  assert (Es : exec (sensorBranch "Mozilla/5.0" "https://a.example" sampleURL 2 plainPage)
                 [] tt).
  { unfold sensorBranch. rewrite P. cbn. auto. }
  exact (Generate_plain_page sampleParse "Mozilla/5.0" "https://a.example" sampleURL 2
           plainPage eq_refl eq_refl eq_refl U P _ _
           (runs_fork sampleParse "Mozilla/5.0" "https://a.example" sampleURL 2 plainPage
              [] [] [] eq_refl eq_refl eq_refl Ep Es interleave_nil)
           eq_refl).
Defined.

(** ** The cookies that are read *)

Lemma Forall_interleave {A} (P : A -> Prop) (l r m : list A) :
  interleave l r m -> Forall P l -> Forall P r -> Forall P m.
Proof.
  induction 1 as [|x l r m _ IH|x l r m _ IH]; intros Fl Fr.
  - constructor.
  - inversion Fl; subst. constructor; auto.
  - inversion Fr; subst. constructor; auto.
Qed.

Lemma cookieOf_cookieReads (u : url.URL) (version : Version) (abck bmSz : string) :
  Forall (cookieOf u) (cookieReads u version abck bmSz).
Proof.
  unfold cookieReads.
  destruct (String.eqb version Version2);
    repeat (apply Forall_cons; [cbn; auto|]); constructor.
Qed.

Lemma sensorLoop_cookies (ua pageUrl : string) (u : url.URL)
  (scriptUrl : string) (version : Version) (scriptValues : string) (n : nat) :
  forall i tr,
    exec (sensorLoop ua pageUrl u scriptUrl version scriptValues n i) tr tt ->
    Forall (cookieOf u) tr.
Proof.
  induction n as [|n IH]; intros i tr E.
  - destruct E as [-> _]. constructor.
  - apply sensorLoop_step in E.
    destruct E as (abck & bmSz & answer & tail & _ & -> & R).
    apply Forall_app. split; [apply cookieOf_cookieReads|].
    constructor; [exact I|].
    destruct answer as [resp|e]; [|subst; repeat constructor].
    destruct R as (st & body & err & tail' & -> & R).
    constructor; [exact I|].
    destruct err as [e|]; [subst; repeat constructor|].
    destruct R as (v & tail'' & -> & R).
    constructor; [cbn; auto|].
    destruct (IsCookieValid v i); [subst; constructor | now apply IH in R].
Qed.

Lemma sensorBranch_cookies (ua pageUrl : string) (u : url.URL) (maxTries : Z)
  (pageBody : string) (tr : list call) :
  exec (sensorBranch ua pageUrl u maxTries pageBody) tr tt -> Forall (cookieOf u) tr.
Proof.
  intros E. apply sensorBranch_runs in E. cbn zeta in E.
  destruct (String.eqb (GetScriptPath pageBody) EmptyString); [subst; constructor|].
  destruct E as (st & body & err & tail & -> & R).
  constructor; [exact I|].
  destruct err as [e|]; [subst; repeat constructor|].
  destruct (negb (st =? StatusOK)); [subst; repeat constructor|].
  destruct (String.eqb (GetSdkVersion body) Version2 && negb (IsScriptStatic body)).
  - destruct R as (answer & tail' & -> & R).
    constructor; [exact I|].
    destruct answer as [resp|e]; [|subst; repeat constructor].
    now apply sensorLoop_cookies in R.
  - now apply sensorLoop_cookies in R.
Qed.

Lemma pixelBranch_cookies (ua pageBody : string) (u : url.URL) (tr : list call) :
  exec (pixelBranch ua pageBody) tr tt -> Forall (cookieOf u) tr.
Proof.
  intros E. apply pixelBranch_runs in E.
  destruct (GetPixelChallengeScriptURL pageBody) as [[ok scriptUrl] postUrl].
  destruct (negb ok); [subst; constructor|].
  destruct (GetPixelChallengeHtmlVar pageBody) as [htmlVar [e|]];
    [subst; repeat constructor|].
  destruct E as (st & body & err & tail & -> & E).
  constructor; [exact I|].
  destruct err as [e|]; [subst; repeat constructor|].
  destruct (negb (st =? StatusOK)).
  - destruct (st =? StatusNotFound); subst; repeat constructor.
  - destruct (GetPixelChallengeScriptVar body) as [scriptVar [e|]];
      [subst; repeat constructor|].
    destruct E as (answer & tail' & -> & E).
    constructor; [exact I|].
    destruct answer as [resp|e]; [|subst; repeat constructor].
    destruct E as (st' & body' & err' & ->).
    destruct err'; repeat constructor.
Qed.

(** X19: the only cookies that a call of Generate reads are _abck and
    bm_sz, and it reads them for the URL that url.Parse gave for the page
    URL, whatever URLs the scripts were fetched from. *)
Theorem Generate_cookie_reads (url_Parse : string -> url.URL + error)
  (ua pageUrl : string) (doHttpReq getCookie : funcValue) (maxTries : Z)
  (u : url.URL) (tr : list call) (res : result) :
  url_Parse pageUrl = inl u ->
  runs (Generate url_Parse ua pageUrl doHttpReq getCookie maxTries) tr res ->
  Forall (cookieOf u) tr.
Proof.
  intros P (tr0 & o & E & H). unfold Generate in E. rewrite P in E.
  destruct (isNil doHttpReq); [destruct E as [-> ->]; destruct H as [-> _]; constructor|].
  destruct (isNil getCookie); [destruct E as [-> ->]; destruct H as [-> _]; constructor|].
  destruct (maxTries <=? 0); [destruct E as [-> ->]; destruct H as [-> _]; constructor|].
  destruct (negb (url.IsAbs u)); [destruct E as [-> ->]; destruct H as [-> _]; constructor|].
  cbn [bind trigger exec record] in E.
  destruct E as ([[st body] err] & tr' & -> & E).
  destruct err as [e|].
  - destruct E as [-> ->]. destruct H as [-> _]. repeat constructor.
  - destruct (negb (st =? StatusOK)); destruct E as [-> ->].
    + destruct H as [-> _]. repeat constructor.
    + destruct H as (tp & ts & ti & Ep & Es & Il & -> & _).
      constructor; [exact I|].
      apply (Forall_interleave _ _ _ _ Il).
      * now apply (pixelBranch_cookies _ _ u) in Ep.
      * now apply sensorBranch_cookies in Es.
Qed.

Lemma Generate_cookie_reads_witness :
  Forall (cookieOf sampleURL)
    (HttpCall OpGetPage "https://a.example/" MethodGet None (StatusOK, sensorPage, None)
     :: sampleRun).
Proof.
  exact (Generate_cookie_reads (fun _ => inl sampleURL) "Mozilla/5.0" "https://a.example/"
           someFunc someFunc 2 sampleURL _ _ eq_refl sampleRun_runs).
Defined.

(** ** The requests and their operations *)

Ltac tagged :=
  repeat (apply Forall_cons;
          [first [exact I
                 | left; cbn; intuition congruence
                 | right; cbn; intuition congruence]|]);
  try apply Forall_nil.

Lemma sensorLoop_tagged (ua pageUrl : string) (u : url.URL)
  (scriptUrl : string) (version : Version) (scriptValues : string) (n : nat) :
  forall i tr,
    exec (sensorLoop ua pageUrl u scriptUrl version scriptValues n i) tr tt ->
    Forall wellTagged tr.
Proof.
  induction n as [|n IH]; intros i tr E.
  - destruct E as [-> _]. constructor.
  - apply sensorLoop_step in E.
    destruct E as (abck & bmSz & answer & tail & _ & -> & R).
    apply Forall_app. split.
    { unfold cookieReads. destruct (String.eqb version Version2); tagged. }
    destruct answer as [resp|e]; [|subst; tagged].
    destruct R as (st & body & err & tail' & -> & R).
    destruct err as [e|]; [subst; tagged|].
    destruct R as (v & tail'' & -> & R).
    destruct (IsCookieValid v i); [subst; tagged|].
    apply IH in R. tagged. exact R.
Qed.

Lemma sensorBranch_tagged (ua pageUrl : string) (u : url.URL) (maxTries : Z)
  (pageBody : string) (tr : list call) :
  exec (sensorBranch ua pageUrl u maxTries pageBody) tr tt -> Forall wellTagged tr.
Proof.
  intros E. apply sensorBranch_runs in E. cbn zeta in E.
  destruct (String.eqb (GetScriptPath pageBody) EmptyString); [subst; constructor|].
  destruct E as (st & body & err & tail & -> & R).
  destruct err as [e|]; [subst; tagged|].
  destruct (negb (st =? StatusOK)); [subst; tagged|].
  destruct (String.eqb (GetSdkVersion body) Version2 && negb (IsScriptStatic body)).
  - destruct R as (answer & tail' & -> & R).
    destruct answer as [resp|e]; [|subst; tagged].
    apply sensorLoop_tagged in R. tagged. exact R.
  - apply sensorLoop_tagged in R. tagged. exact R.
Qed.

Lemma pixelBranch_tagged (ua pageBody : string) (tr : list call) :
  exec (pixelBranch ua pageBody) tr tt -> Forall wellTagged tr.
Proof.
  intros E. apply pixelBranch_runs in E.
  destruct (GetPixelChallengeScriptURL pageBody) as [[ok scriptUrl] postUrl].
  destruct (negb ok); [subst; constructor|].
  destruct (GetPixelChallengeHtmlVar pageBody) as [htmlVar [e|]]; [subst; tagged|].
  destruct E as (st & body & err & tail & -> & E).
  destruct err as [e|]; [subst; tagged|].
  destruct (negb (st =? StatusOK)).
  - destruct (st =? StatusNotFound); subst; tagged.
  - destruct (GetPixelChallengeScriptVar body) as [scriptVar [e|]]; [subst; tagged|].
    destruct E as (answer & tail' & -> & E).
    destruct answer as [resp|e]; [|subst; tagged].
    destruct E as (st' & body' & err' & ->).
    destruct err'; tagged.
Qed.

(** X20: every request of a call of Generate is as its operation
    promises: the three fetches (page, SDK script, pixel challenge script)
    are GET requests without a body, the two posts (sensor data, pixel
    payload) are POST requests with a body. *)
Theorem Generate_requests_tagged (url_Parse : string -> url.URL + error)
  (ua pageUrl : string) (doHttpReq getCookie : funcValue) (maxTries : Z)
  (tr : list call) (res : result) :
  runs (Generate url_Parse ua pageUrl doHttpReq getCookie maxTries) tr res ->
  Forall wellTagged tr.
Proof.
  intros (tr0 & o & E & H). unfold Generate in E.
  destruct (isNil doHttpReq); [destruct E as [-> ->]; destruct H as [-> _]; constructor|].
  destruct (isNil getCookie); [destruct E as [-> ->]; destruct H as [-> _]; constructor|].
  destruct (maxTries <=? 0); [destruct E as [-> ->]; destruct H as [-> _]; constructor|].
  destruct (url_Parse pageUrl) as [u|e];
    [|destruct E as [-> ->]; destruct H as [-> _]; constructor].
  destruct (negb (url.IsAbs u)); [destruct E as [-> ->]; destruct H as [-> _]; constructor|].
  cbn [bind trigger exec record] in E.
  destruct E as ([[st body] err] & tr' & -> & E).
  destruct err as [e|].
  - destruct E as [-> ->]. destruct H as [-> _]. tagged.
  - destruct (negb (st =? StatusOK)); destruct E as [-> ->].
    + destruct H as [-> _]. tagged.
    + destruct H as (tp & ts & ti & Ep & Es & Il & -> & _).
      cbn [app]. tagged.
      apply (Forall_interleave _ _ _ _ Il).
      * now apply pixelBranch_tagged in Ep.
      * now apply sensorBranch_tagged in Es.
Qed.

Lemma Generate_requests_tagged_witness :
  Forall wellTagged
    (HttpCall OpGetPage "https://a.example/" MethodGet None (StatusOK, sensorPage, None)
     :: sampleRun).
Proof.
  exact (Generate_requests_tagged (fun _ => inl sampleURL) "Mozilla/5.0" "https://a.example/"
           someFunc someFunc 2 _ _ sampleRun_runs).
Defined.

(** * The script URL of the pixel challenge, in the page *)

(** A folded literal that ends with a byte [c] that is no letter: the
    last cell it matches holds [c]. *)
Lemma run_literal_fold_last (c : ascii) (s : string) :
  byte_code c < utf8.RuneSelf ->
  (forall r, litFold c r = true -> r = byte_code c) ->
  forall bot inp cs m rest cs',
    Forall cell_ok inp ->
    In (m, rest, cs') (run (literal litFold (s ++ String c EmptyString)) bot inp cs) ->
    exists m0 x, m = (m0 ++ [x])%list /\ cell_raw x = String c EmptyString.
Proof.
  intros A L. induction s as [|a s IH]; intros bot inp cs m rest cs' Ok H.
  - cbn [append literal] in H. apply run_concat_in in H.
    destruct H as (m1 & r1 & c1 & m2 & r2 & c2 & I1 & I2 & E).
    inversion E; subst; clear E.
    cbn [run] in I1. destruct inp as [|x t]; [destruct I1|].
    destruct (litFold c (cell_rune x)) eqn:Lx; [|destruct I1].
    destruct I1 as [I1|[]]. inversion I1; subst; clear I1.
    cbn [run] in I2. destruct I2 as [I2|[]]. inversion I2; subst; clear I2.
    inversion Ok as [|? ? [_ R] _]; subst.
    apply L in Lx. rewrite Lx in R.
    exists [], x. split; [reflexivity|]. rewrite (R A). now rewrite byte_of_code.
  - cbn [append literal] in H. apply run_concat_in in H.
    destruct H as (m1 & r1 & c1 & m2 & r2 & c2 & I1 & I2 & E).
    inversion E; subst; clear E.
    cbn [run] in I1. destruct inp as [|y t]; [destruct I1|].
    destruct (litFold a (cell_rune y)); [|destruct I1].
    destruct I1 as [I1|[]]. inversion I1; subst; clear I1.
    inversion Ok as [|? ? _ Ok']; subst.
    destruct (IH _ _ _ _ _ _ Ok' I2) as (m0 & x & -> & Rx).
    now exists (y :: m0), x.
Qed.

Lemma litFold_dquote (r : Z) : litFold dquote r = true -> r = byte_code dquote.
Proof. unfold litFold, code, between. cbn. apply Z.eqb_eq. Qed.

(** Whenever pixelScriptUrlExpr matches, the text it matches ends with a
    double quote, the group and a double quote, and the group ends with a
    slash and a name that is not empty and holds no slash. *)
Lemma pixelScriptUrlExpr_match (bot : bool) (inp : list cell) (cs0 cs : caps)
  (m rest : list cell) :
  Forall cell_ok inp -> Forall cell_high inp ->
  In (m, rest, cs) (run pixelScriptUrlExpr bot inp cs0) ->
  exists attr dir name,
    cs 1%nat = Some (dir ++ "/" ++ name) /\
    raw m = attr ++ q ++ (dir ++ "/" ++ name) ++ q /\
    name <> EmptyString /\ without "/" name = true.
Proof.
  intros Ok Hi H. unfold pixelScriptUrlExpr in H. cbn [concat] in H.
  (* the attribute and the opening quote *)
  apply run_concat_in in H.
  destruct H as (m1 & r1 & c1 & m2 & r2 & c2 & Ho & H & E).
  inversion E; subst; clear E.
  pose proof (run_frame _ _ _ _ _ _ _ (captureFree_literal litFold _) Ho). subst c1.
  pose proof (run_app _ _ _ _ _ _ _ Ho) as Ei. subst inp.
  unfold q in Ho.
  destruct (run_literal_fold_last dquote "src=" eq_refl litFold_dquote _ _ _ _ _ _ Ok Ho)
    as (attr & oq & -> & Roq).
  apply Forall_suffix in Ok. apply Forall_suffix in Hi.
  (* the group, and the closing quote *)
  apply run_concat_in in H.
  destruct H as (g & rg & cg & m3 & r3 & c3 & Hg & Hc & E).
  inversion E; subst; clear E.
  pose proof (run_app _ _ _ _ _ _ _ Hg) as Eg.
  assert (Okc : Forall cell_ok rg) by (rewrite Eg in Ok; now apply Forall_suffix in Ok).
  assert (c3 = cg) as ->.
  { apply (run_frame _ _ _ _ _ _ _ (eq_refl : captureFree
             (OpConcat (literal litFold q) OpEmptyMatch) = true) Hc). }
  apply run_concat_in in Hc.
  destruct Hc as (m4 & r4 & c4 & m5 & r5 & c5 & Hq & He & E).
  inversion E; subst; clear E.
  cbn [run] in He. destruct He as [He|[]]. inversion He; subst; clear He.
  assert (Rm4 : raw m4 = q).
  { (* the literal is one class: it matches one cell *)
    unfold q in Hq. cbn [literal] in Hq. apply run_concat_in in Hq.
    destruct Hq as (y1 & y2 & y3 & y4 & y5 & y6 & I1 & I2 & E).
    inversion E; subst; clear E.
    cbn [run] in I1. destruct rg as [|x t]; [destruct I1|].
    destruct (litFold dquote (cell_rune x)) eqn:Lx; [|destruct I1].
    destruct I1 as [I1|[]]. inversion I1; subst; clear I1.
    cbn [run] in I2. destruct I2 as [I2|[]]. inversion I2; subst; clear I2.
    inversion Okc as [|? ? [_ R] _]; subst.
    apply litFold_dquote in Lx. rewrite Lx in R.
    cbn [app raw]. now rewrite (R eq_refl). }
  apply run_capture_in in Hg. destruct Hg as (c0 & H & ->).
  assert (P : forall a b bot inp cs th,
             captureFree a = true ->
             Forall cell_ok inp -> Forall cell_high inp ->
             In th (run (OpConcat a b) bot inp cs) ->
             exists bot' m1 r1 m2 r2 c2,
               Forall cell_ok r1 /\ Forall cell_high r1 /\
               In (m2, r2, c2) (run b bot' r1 cs) /\
               th = ((m1 ++ m2)%list, r2, c2)).
  { intros a b bot0 inp0 cs1 th F Ok0 Hi0 I.
    apply run_concat_skip in I; [|exact F].
    destruct I as (bot' & x1 & y1 & x2 & y2 & z2 & -> & I & ->).
    apply Forall_suffix in Ok0. apply Forall_suffix in Hi0.
    now exists bot', x1, y1, x2, y2, z2. }
  apply P in H; [|apply captureFree_literal | assumption | assumption].
  destruct H as (b3 & x1 & y1 & g1 & rg1 & cg1 & Ok1 & Hi1 & H & E).
  inversion E; subst; clear E.
  apply P in H; [|reflexivity | assumption | assumption].
  destruct H as (b4 & x2 & y2 & g2 & rg2 & cg2 & Ok2 & Hi2 & H & E).
  inversion E; subst; clear E.
  apply P in H; [|apply captureFree_literal | assumption | assumption].
  destruct H as (b5 & x3 & y3 & g3 & rg3 & cg3 & Ok3 & Hi3 & H & E).
  inversion E; subst; clear E.
  apply P in H; [|reflexivity | assumption | assumption].
  destruct H as (b6 & x4 & y4 & g4 & rg4 & cg4 & Ok4 & Hi4 & H & E).
  inversion E; subst; clear E.
  apply P in H; [|apply captureFree_literal | assumption | assumption].
  destruct H as (b7 & x5 & y5 & g5 & rg5 & cg5 & Ok5 & Hi5 & H & E).
  inversion E; subst; clear E.
  apply P in H; [|reflexivity | assumption | assumption].
  destruct H as (b8 & x6 & y6 & g6 & rg6 & cg6 & Ok6 & Hi6 & H & E).
  inversion E; subst; clear E.
  (* the slash *)
  apply run_concat_in in H.
  destruct H as (s1 & t1 & u1 & g7 & rg7 & cg7 & Hs & H & E).
  inversion E; subst; clear E.
  cbn [literal] in Hs. apply run_concat_in in Hs.
  destruct Hs as (s2 & t2 & u2 & s3 & t3 & u3 & Hch & He & E).
  inversion E; subst; clear E.
  cbn [run] in Hch. destruct y6 as [|sl y6]; [destruct Hch|].
  destruct (litFold "/" (cell_rune sl)) eqn:Sl; [|destruct Hch].
  destruct Hch as [Hch|[]]. inversion Hch; subst; clear Hch.
  cbn [run] in He. destruct He as [He|[]]. inversion He; subst; clear He.
  inversion Ok6 as [|? ? [_ A] Ok7]; inversion Hi6 as [|? ? _ Hi7]; subst.
  assert (R : cell_rune sl = 47).
  { unfold litFold, code, between in Sl. cbn in Sl. now apply Z.eqb_eq in Sl. }
  rewrite R in A. specialize (A eq_refl). cbn in A.
  (* the name *)
  apply run_concat_in in H.
  destruct H as (w & tw & uw & e1 & e2 & e3 & Hw & He & E).
  inversion E; subst; clear E.
  cbn [run] in He. destruct He as [He|[]]. inversion He; subst; clear He.
  apply run_plus_in in Hw. destruct Hw as (-> & -> & N & W).
  apply Forall_prefix in Ok7. apply Forall_prefix in Hi7.
  assert (G : raw (x1 ++ x2 ++ x3 ++ x4 ++ x5 ++ x6 ++ ([sl] ++ []) ++ w ++ [])
              = raw (x1 ++ x2 ++ x3 ++ x4 ++ x5 ++ x6) ++ "/" ++ raw w).
  { rewrite !app_nil_r. rewrite !raw_app. cbn [raw]. rewrite A.
    rewrite !string_app_assoc. cbn [append]. reflexivity. }
  exists (raw attr), (raw (x1 ++ x2 ++ x3 ++ x4 ++ x5 ++ x6)%list), (raw w).
  split; [|split; [|split]].
  - cbn [setCap Nat.eqb]. f_equal. exact G.
  - remember (x1 ++ x2 ++ x3 ++ x4 ++ x5 ++ x6 ++ ([sl] ++ []) ++ w ++ [])%list
      as G0 eqn:EG0 in *.
    rewrite !raw_app, G, Rm4. cbn [raw]. rewrite Roq. unfold q.
    rewrite ?raw_app, !string_app_assoc. cbn [append].
    rewrite ?string_app_nil_r. reflexivity.
  - now apply raw_not_empty.
  - now apply raw_word_no_slash.
Qed.

(** X7: GetPixelChallengeScriptURL finds the URLs exactly when the
    pattern matches the page; otherwise ok is false and the two URLs are
    empty.  When it matches, the script URL stands in the page between two
    double quotes; it ends with a slash and a name that is not empty and
    holds no slash, and the post URL is the script URL with pixel_ put in
    front of that name, its last path segment. *)
Theorem GetPixelChallengeScriptURL_post_url (src : string) :
  fst (fst (GetPixelChallengeScriptURL src)) = Match pixelScriptUrlExpr src /\
  (Match pixelScriptUrlExpr src = false ->
   GetPixelChallengeScriptURL src = (false, EmptyString, EmptyString)) /\
  (Match pixelScriptUrlExpr src = true ->
   exists pre dir name post,
     src = pre ++ q ++ (dir ++ "/" ++ name) ++ q ++ post /\
     name <> EmptyString /\ without "/" name = true /\
     GetPixelChallengeScriptURL src
     = (true, dir ++ "/" ++ name, dir ++ "/pixel_" ++ name)).
Proof.
  unfold GetPixelChallengeScriptURL, FindSubmatch, Match.
  destruct (search pixelScriptUrlExpr true (cells src)) as [[h [[m rest] cs]]|] eqn:Sr.
  2:{ cbn. split; [reflexivity|]. split; [reflexivity | discriminate]. }
  apply search_in in Sr. destruct Sr as (bot' & pre & inp' & E & I & _).
  pose proof (cells_ok src) as Ok. rewrite E in Ok. apply Forall_suffix in Ok.
  pose proof (cells_high src) as Hi. rewrite E in Hi. apply Forall_suffix in Hi.
  destruct (pixelScriptUrlExpr_match _ _ _ _ _ _ Ok Hi I)
    as (attr & dir & name & Hv & Rm & N & W).
  unfold submatches.
  replace (NumSubexp pixelScriptUrlExpr) with 1%nat by reflexivity.
  cbn [seq map List.length nth]. rewrite Hv.
  replace (Z.of_nat 2 <? 2) with false by reflexivity.
  rewrite (postUrl_last_part dir name W). cbn [fst].
  split; [reflexivity|]. split; [discriminate|]. intros _.
  exists (raw pre ++ attr), dir, name, (raw rest).
  split; [|now repeat split].
  rewrite <- (raw_cells src) at 1. rewrite E, (run_app _ _ _ _ _ _ _ I).
  rewrite !raw_app, Rm. now rewrite !string_app_assoc.
Qed.

Lemma GetPixelChallengeScriptURL_post_url_witness :
  exists pre dir name post,
    pixelPage = pre ++ q ++ (dir ++ "/" ++ name) ++ q ++ post /\
    name <> EmptyString /\ without "/" name = true /\
    GetPixelChallengeScriptURL pixelPage
    = (true, dir ++ "/" ++ name, dir ++ "/pixel_" ++ name).
Proof.
  apply (proj2 (proj2 (GetPixelChallengeScriptURL_post_url pixelPage))).
  vm_compute. reflexivity.
Defined.

(** * The HTML variable: the leftmost attribute *)

(** ** Cutting a text before an ASCII byte *)

(** A rune never takes in a byte below RuneSelf that follows its first
    byte: decoding stops there as it does at the end of the text. *)
Lemma DecodeRune_app (c0 : ascii) (t0 : string) (c : ascii) (t : string) :
  byte_code c < utf8.RuneSelf ->
  utf8.DecodeRune (String c0 (t0 ++ String c t)) = utf8.DecodeRune (String c0 t0).
Proof.
  intros A. unfold utf8.RuneSelf in A. unfold utf8.DecodeRune.
  destruct (byte_code c0 <? utf8.RuneSelf); [reflexivity|].
  destruct (utf8.first (byte_code c0)) as [[[sz lo] hi]|] eqn:F; [|reflexivity].
  assert (Lo : 128 <= lo) by (apply first_cases in F; intuition lia).
  assert (N : forall l h, 128 <= l -> between l h (byte_code c) = false).
  { intros l h L. unfold between. apply andb_false_iff. left. apply Z.leb_gt. lia. }
  destruct t0 as [|c1 t1]; cbn [append].
  { now rewrite (N lo hi Lo). }
  destruct (negb (between lo hi (byte_code c1))); [reflexivity|].
  destruct (sz <=? 2)%nat; [reflexivity|].
  destruct t1 as [|c2 t2]; cbn [append].
  { now rewrite (N 128 191) by lia. }
  destruct (negb (between 128 191 (byte_code c2))); [reflexivity|].
  destruct (sz <=? 3)%nat; [reflexivity|].
  destruct t2 as [|c3 t3]; cbn [append].
  { now rewrite (N 128 191) by lia. }
  reflexivity.
Qed.

Lemma DecodeRune_le (p : string) : (snd (utf8.DecodeRune p) <= length p)%nat.
Proof.
  unfold utf8.DecodeRune. destruct p as [|c0 t0]; [cbn; lia|].
  destruct (byte_code c0 <? utf8.RuneSelf); [cbn; lia|].
  destruct (utf8.first (byte_code c0)) as [[[sz lo] hi]|]; [|cbn; lia].
  destruct t0 as [|c1 t1]; [cbn; lia|].
  destruct (negb (between lo hi (byte_code c1))); [cbn; lia|].
  destruct (sz <=? 2)%nat; [cbn; lia|].
  destruct t1 as [|c2 t2]; [cbn; lia|].
  destruct (negb (between 128 191 (byte_code c2))); [cbn; lia|].
  destruct (sz <=? 3)%nat; [cbn; lia|].
  destruct t2 as [|c3 t3]; [cbn; lia|].
  destruct (negb (between 128 191 (byte_code c3))); cbn; lia.
Qed.

Lemma substring_app_le (w : nat) (p s : string) :
  (w <= length p)%nat -> substring 0 w (p ++ s) = substring 0 w p.
Proof.
  revert w. induction p as [|c p IH]; intros w L.
  - cbn in L. assert (w = 0%nat) as -> by lia. now destruct s.
  - destruct w as [|w]; [reflexivity|].
    cbn [append substring]. rewrite IH; [reflexivity | cbn in L; lia].
Qed.

Lemma cells_from_app (c : ascii) (t : string) (p : string) :
  byte_code c < utf8.RuneSelf ->
  forall k, (k <= length p)%nat ->
    cells_from k (p ++ String c t) = (cells_from k p ++ cells (String c t))%list.
Proof.
  intros A. induction p as [|c0 t0 IH]; intros k L.
  - cbn in L. assert (k = 0%nat) as -> by lia. reflexivity.
  - cbn [append]. destruct k as [|k].
    + cbn [cells_from]. rewrite (DecodeRune_app c0 t0 c t A).
      pose proof (DecodeRune_le (String c0 t0)) as W.
      pose proof (DecodeRune_width c0 t0) as W1.
      destruct (utf8.DecodeRune (String c0 t0)) as [r w]. cbn [snd] in W, W1.
      change (String c0 (t0 ++ String c t)) with (String c0 t0 ++ String c t).
      rewrite (substring_app_le w (String c0 t0) (String c t) W).
      cbn [app]. f_equal. apply IH. cbn in W. lia.
    + cbn [cells_from]. apply IH. cbn in L. lia.
Qed.

(** A text can be cut before an ASCII byte: no rune of the first part
    reaches into the second. *)
Lemma cells_app_ascii (p : string) (c : ascii) (t : string) :
  byte_code c < utf8.RuneSelf ->
  cells (p ++ String c t) = (cells p ++ cells (String c t))%list.
Proof. intros A. apply (cells_from_app c t p A 0). lia. Qed.

(** ** The leftmost match *)

(** When the pattern matches at some place and at no place before it,
    the search reports a match at that place. *)
Lemma search_skip (r : syntax) (inp : list cell) :
  (forall b, run r b inp noCaps <> []) ->
  forall cpre bot,
    (forall c1 c2 b, cpre = (c1 ++ c2)%list -> c2 <> [] ->
                     run r b (c2 ++ inp) noCaps = []) ->
    exists h th b, search r bot (cpre ++ inp) = Some (h, th) /\ In th (run r b inp noCaps).
Proof.
  intros Here. induction cpre as [|c cpre IH]; intros bot Before.
  - cbn [app]. specialize (Here bot).
    destruct (run r bot inp noCaps) as [|th ths] eqn:E; [contradiction|].
    exists true, th, bot. rewrite E. split; [|now left].
    destruct inp; cbn [search]; now rewrite E.
  - cbn [app search].
    assert (B0 : run r bot (c :: cpre ++ inp) noCaps = [])
      by (apply (Before [] (c :: cpre) bot eq_refl); discriminate).
    rewrite B0.
    destruct (IH false) as (h & th & b & S & I).
    { intros c1 c2 b E N. apply (Before (c :: c1) c2 b); [now rewrite E | exact N]. }
    rewrite S. now exists false, th, b.
Qed.

(** *** Ways of matching, built *)

Lemma run_concat_intro (a b : syntax) (bot : bool) (inp : list cell) (cs c1 c2 : caps)
  (m1 r1 m2 r2 : list cell) :
  In (m1, r1, c1) (run a bot inp cs) ->
  In (m2, r2, c2) (run b (bot && is_nil m1) r1 c1) ->
  In ((m1 ++ m2)%list, r2, c2) (run (OpConcat a b) bot inp cs).
Proof.
  intros I1 I2. cbn [run]. apply in_flat_map.
  exists (m1, r1, c1). split; [exact I1|].
  apply in_map_iff. now exists (m2, r2, c2).
Qed.

Lemma run_literal_intro (p s : string) (bot : bool) (cs : caps) :
  isASCII p = true ->
  In (cells p, cells s, cs) (run (literal lit p) bot (cells (p ++ s)) cs).
Proof.
  intros A. rewrite (run_literal p (p ++ s) bot cs A), prefix_of_app, substring_skip_app.
  now left.
Qed.

Lemma star_nil_In (g : bool) (p : class) (inp : list cell) : In ([], inp) (star g p inp).
Proof.
  destruct inp as [|c t]; cbn [star]; [now left|].
  destruct (p (cell_rune c)); [|now left].
  destruct g; [apply in_or_app; right|]; now left.
Qed.

Lemma star_In (g : bool) (p : class) (m rest : list cell) :
  Forall (fun c => p (cell_rune c) = true) m -> In (m, rest) (star g p (m ++ rest)).
Proof.
  induction m as [|c m IH]; intros F; [apply star_nil_In|].
  inversion F as [|? ? Pc F']; subst.
  cbn [app star]. rewrite Pc.
  assert (I : In (c :: m, rest)
                (map (fun mr => (c :: fst mr, snd mr)) (star g p (m ++ rest)))).
  { apply in_map_iff. exists (m, rest). split; [reflexivity | now apply IH]. }
  destruct g; [apply in_or_app; now left | now right].
Qed.

Lemma run_plus_intro (g : bool) (p : class) (bot : bool) (m rest : list cell) (cs : caps) :
  m <> [] -> Forall (fun c => p (cell_rune c) = true) m ->
  In (m, rest, cs) (run (OpPlus g p) bot (m ++ rest) cs).
Proof.
  intros N F. destruct m as [|c m]; [contradiction|].
  inversion F as [|? ? Pc F']; subst.
  cbn [app run]. rewrite Pc.
  apply in_map_iff. exists (m, rest). split; [reflexivity | now apply star_In].
Qed.

Lemma run_capture_intro (i : nat) (a : syntax) (bot : bool) (inp : list cell)
  (cs c0 : caps) (m rest : list cell) :
  In (m, rest, c0) (run a bot inp cs) ->
  In (m, rest, setCap c0 i (raw m)) (run (OpCapture i a) bot inp cs).
Proof.
  intros I. cbn [run]. apply in_map_iff. now exists (m, rest, c0).
Qed.

(** *** Runs of digits *)

Lemma cells_digits (ds : string) :
  allDigits ds ->
  isASCII ds = true /\ Forall (fun c => digit (cell_rune c) = true) (cells ds).
Proof.
  induction ds as [|d ds IH]; intros D; [split; [reflexivity | constructor]|].
  inversion D as [|? ? Dc D']; subst.
  destruct (IH D') as [A F].
  assert (L : byte_code d < utf8.RuneSelf) by (unfold utf8.RuneSelf; lia).
  split.
  - apply isASCII_cons. now split.
  - rewrite (cells_ascii_cons d ds L). constructor; [|exact F].
    cbn [cell_rune]. now apply between_spec.
Qed.

(** Two runs of digits that end at a double quote in the same text are
    the same. *)
Lemma digits_unique (d1 : string) :
  forall d2 r1 r2,
    allDigits d1 -> allDigits d2 ->
    d1 ++ String dquote r1 = d2 ++ String dquote r2 -> d1 = d2.
Proof.
  induction d1 as [|c d1 IH]; intros d2 r1 r2 D1 D2 E.
  - destruct d2 as [|c' d2]; [reflexivity|].
    cbn in E. inversion E; subst. inversion D2 as [|? ? Dc _]; subst. cbn in Dc. lia.
  - destruct d2 as [|c' d2].
    + cbn in E. inversion E; subst. inversion D1 as [|? ? Dc _]; subst. cbn in Dc. lia.
    + cbn in E. inversion E; subst.
      inversion D1; inversion D2; subst. f_equal. eapply IH; eauto.
Qed.

Lemma string_app_inv_head (a b c : string) : a ++ b = a ++ c -> b = c.
Proof. induction a as [|x a IH]; cbn; intros E; [exact E|]. inversion E. auto. Qed.

Lemma string_length_app (a b : string) : length (a ++ b) = (length a + length b)%nat.
Proof. induction a as [|x a IH]; cbn; [reflexivity|]. now rewrite IH. Qed.

(** ** The HTML variable: the leftmost attribute decides *)

(** Where the attribute stands with a value of digits, the pattern
    matches. *)
Lemma pixelHtmlExpr_complete (digits post : string) (b : bool) (cs : caps) :
  digits <> EmptyString -> allDigits digits ->
  run pixelHtmlExpr b (cells (htmlVarAttribute digits ++ post)) cs <> [].
Proof.
  intros N D. destruct (cells_digits digits D) as [A F].
  assert (I : In ((cells ("bazadebezolkohpepadr=" ++ q)
                    ++ (cells digits ++ (cells q ++ [])))%list,
                  cells post, setCap cs 1 (raw (cells digits)))
                (run pixelHtmlExpr b (cells (htmlVarAttribute digits ++ post)) cs)).
  { unfold pixelHtmlExpr, htmlVarAttribute. cbn [concat].
    replace (("bazadebezolkohpepadr=" ++ q ++ digits ++ q) ++ post)
      with (("bazadebezolkohpepadr=" ++ q) ++ (digits ++ q ++ post))
      by (now rewrite !string_app_assoc).
    eapply run_concat_intro; [apply run_literal_intro; reflexivity|].
    rewrite (cells_ascii_app digits (q ++ post) A).
    eapply run_concat_intro.
    - apply run_capture_intro. apply run_plus_intro; [|exact F].
      destruct digits; [contradiction|].
      rewrite cells_ascii_cons; [discriminate|].
      apply isASCII_cons in A. tauto.
    - eapply run_concat_intro; [apply run_literal_intro; reflexivity|].
      cbn [run]. now left. }
  intros E. rewrite E in I. destruct I.
Qed.

(** The match that the search reports when the first attribute of the
    text stands after [pre]. *)
Lemma pixelHtmlExpr_leftmost (src pre digits post : string) :
  firstAttributeAt src pre digits post ->
  exists h m rest cs,
    search pixelHtmlExpr true (cells src) = Some (h, (m, rest, cs)) /\
    cs 1%nat = Some digits.
Proof.
  intros [(E & N & D) Least].
  assert (C : cells src = (cells pre ++ cells (htmlVarAttribute digits ++ post))%list).
  { rewrite E. apply (cells_app_ascii pre "b"). reflexivity. }
  pose proof (cells_ok src) as Ok. rewrite C in Ok.
  destruct (search_skip pixelHtmlExpr (cells (htmlVarAttribute digits ++ post))
              (fun b => pixelHtmlExpr_complete digits post b noCaps N D)
              (cells pre) true) as (h & [[m rest] cs] & b & S & I).
  { intros c1 c2 b Ec Nc.
    destruct (run pixelHtmlExpr b (c2 ++ cells (htmlVarAttribute digits ++ post)) noCaps)
      as [|[[m rest] cs] ths] eqn:R; [reflexivity|].
    exfalso.
    assert (I : In (m, rest, cs)
                  (run pixelHtmlExpr b (c2 ++ cells (htmlVarAttribute digits ++ post))
                     noCaps)) by (rewrite R; now left).
    rewrite Ec, <- app_assoc in Ok.
    pose proof (Forall_suffix _ _ _ Ok) as Ok2.
    destruct (pixelHtmlExpr_match _ _ _ _ _ _ Ok2 I) as (ds & _ & Rm & Nd & Dd).
    pose proof (run_app _ _ _ _ _ _ _ I) as Em.
    assert (At : attributeAt src (raw c1) ds (raw rest)).
    { split; [|now split].
      rewrite <- (raw_cells src), C, Ec, <- app_assoc, Em, !raw_app, Rm.
      unfold htmlVarAttribute. now rewrite !string_app_assoc. }
    apply Least in At.
    rewrite <- (raw_cells pre), Ec, raw_app, string_length_app in At.
    assert (raw c2 <> EmptyString).
    { apply raw_not_empty; [exact Nc|].
      apply Forall_app in Ok2. tauto. }
    destruct (raw c2); [contradiction | cbn in At; lia]. }
  exists h, m, rest, cs. rewrite C. split; [exact S|].
  apply Forall_suffix in Ok.
  destruct (pixelHtmlExpr_match _ _ _ _ _ _ Ok I) as (ds & Hv & Rm & Nd & Dd).
  rewrite Hv. f_equal.
  pose proof (run_app _ _ _ _ _ _ _ I) as Em.
  apply (f_equal raw) in Em. rewrite raw_cells, raw_app, Rm in Em.
  unfold htmlVarAttribute in Em. rewrite !string_app_assoc in Em.
  apply string_app_inv_head in Em. cbn [q append] in Em.
  inversion Em as [Em'].
  symmetry. exact (digits_unique _ _ _ _ D Dd Em').
Qed.

(** C6, amended: the function looks for the leftmost place of the page
    where the attribute stands with a value of decimal digits, and parses
    those digits.  So on every input that holds [bazadebezolkohpepadr="500"],
    at its start or anywhere after it, with no such place before, the result
    is (500, nil).  When the attribute stands nowhere with a value of digits,
    as on [bazadebezolkohpepadr="a"], the result is the plain not-found
    error, with no parse failure joined to it.  The compound error,
    not-found joined with a parse failure, is returned when the digits
    found do not fit an int, and the parse failure is then a range error:
    on every input the result has one of these three shapes. *)
Theorem GetPixelChallengeHtmlVar_spec :
  (forall src pre digits post,
      firstAttributeAt src pre digits post ->
      GetPixelChallengeHtmlVar src =
      match strconv.Atoi digits with
      | (v, None) => (v, None)
      | (_, Some e) => (0, Some (joinError [ErrPixelHtmlVarNotFound; e]))
      end) /\
  (forall pre post,
      (forall pre' digits' post',
          attributeAt (pre ++ validInput ++ post) pre' digits' post' ->
          (length pre <= length pre')%nat) ->
      GetPixelChallengeHtmlVar (pre ++ validInput ++ post) = (500, None)) /\
  (forall rest, GetPixelChallengeHtmlVar (validInput ++ rest) = (500, None)) /\
  (forall src,
      (forall pre digits post, ~ attributeAt src pre digits post) ->
      GetPixelChallengeHtmlVar src = (0, Some ErrPixelHtmlVarNotFound)) /\
  GetPixelChallengeHtmlVar invalidInput = (0, Some ErrPixelHtmlVarNotFound) /\
  GetPixelChallengeHtmlVar overflowInput
  = (0, Some (joinError [ErrPixelHtmlVarNotFound;
                         NumError "Atoi" "99999999999999999999" strconv.ErrRange])) /\
  (forall src,
      (exists v, 0 <= v /\ GetPixelChallengeHtmlVar src = (v, None)) \/
      GetPixelChallengeHtmlVar src = (0, Some ErrPixelHtmlVarNotFound) \/
      (exists digits,
          allDigits digits /\
          GetPixelChallengeHtmlVar src
          = (0, Some (joinError [ErrPixelHtmlVarNotFound;
                                 NumError "Atoi" digits strconv.ErrRange])))).
Proof.
  assert (First : forall src pre digits post,
             firstAttributeAt src pre digits post ->
             GetPixelChallengeHtmlVar src =
             match strconv.Atoi digits with
             | (v, None) => (v, None)
             | (_, Some e) => (0, Some (joinError [ErrPixelHtmlVarNotFound; e]))
             end).
  { intros src pre digits post H.
    destruct (pixelHtmlExpr_leftmost _ _ _ _ H) as (h & m & rest & cs & Sr & Hv).
    unfold GetPixelChallengeHtmlVar, FindSubmatch. rewrite Sr.
    rewrite (nth1_submatches pixelHtmlExpr _ _ _ digits eq_refl Hv).
    fold (len (submatches pixelHtmlExpr (m, rest, cs))). rewrite len_submatches.
    change (Z.of_nat (S (NumSubexp pixelHtmlExpr)) <? 2) with false. cbv iota.
    now destruct (strconv.Atoi digits) as [v [e|]]. }
  split; [exact First|]. split; [|split; [|split; [|split; [|split]]]].
  - intros pre post Least.
    rewrite (First (pre ++ validInput ++ post) pre "500" post); [reflexivity|].
    split; [|exact Least].
    split; [reflexivity|]. split; [discriminate|].
    repeat constructor; cbn; lia.
  - intros rest. unfold GetPixelChallengeHtmlVar, FindSubmatch.
    rewrite cells_ascii_app by reflexivity.
    generalize (cells rest) as tl. intros tl. vm_compute. reflexivity.
  - intros src None. unfold GetPixelChallengeHtmlVar, FindSubmatch.
    destruct (search pixelHtmlExpr true (cells src)) as [[h [[m rest] cs]]|] eqn:S;
      [|reflexivity].
    exfalso.
    apply search_in in S. destruct S as (bot' & pre & inp' & E & I & _).
    pose proof (cells_ok src) as Ok. rewrite E in Ok. apply Forall_suffix in Ok.
    destruct (pixelHtmlExpr_match _ _ _ _ _ _ Ok I) as (ds & _ & Rm & Nd & Dd).
    apply (None (raw pre) ds (raw rest)).
    split; [|now split].
    rewrite <- (raw_cells src), E, (run_app _ _ _ _ _ _ _ I), !raw_app, Rm.
    unfold htmlVarAttribute. now rewrite !string_app_assoc.
  - reflexivity.
  - vm_compute. reflexivity.
  - intros src. unfold GetPixelChallengeHtmlVar, FindSubmatch.
    destruct (search pixelHtmlExpr true (cells src)) as [[h [[m rest] cs]]|] eqn:S.
    + apply search_in in S. destruct S as (bot' & pre & inp' & E & I & _).
      pose proof (cells_ok src) as Ok. rewrite E in Ok. apply Forall_suffix in Ok.
      destruct (pixelHtmlExpr_group _ _ _ _ _ _ Ok I) as (v & Hv & Nv & Dv).
      unfold submatches. rewrite NumSubexp_pixelHtmlExpr.
      cbn [seq map List.length nth]. rewrite Hv.
      replace (Z.of_nat 2 <? 2) with false by reflexivity.
      destruct (Atoi_digits v Nv Dv) as [(x & Hx & ->) | (x & ->)].
      * left. now exists x.
      * right. right. now exists v.
    + right. left. reflexivity.
Qed.

(** The attribute inside a tag. *)
Lemma GetPixelChallengeHtmlVar_spec_witness :
  GetPixelChallengeHtmlVar ("<input " ++ validInput ++ ">") = (500, None).
Proof.
  apply (proj1 (proj2 GetPixelChallengeHtmlVar_spec) "<input " ">").
  intros pre' digits' post' (E & _).
  unfold htmlVarAttribute, validInput in E. cbn [q append] in E.
  do 7 (destruct pre' as [|? pre']; [discriminate E | cbn [append] in E; injection E as _ E]).
  cbn [length]. lia.
Defined.

(** * A page URL without a host *)

(** C7: the validation of the page URL does not look at the host.  The
    comment on ErrInvalidPageURL says that an absolute URL must contain a
    scheme and a host, and the claim that a page URL that is not absolute
    makes the call return ErrInvalidPageURL before any request; but the
    code only asks u.IsAbs(), which is true of every URL with a scheme.  For
    a page URL that parses to a URL with a scheme and an empty host, as
    [file:///x] does, every run of Generate starts with the GET of the
    page, and the call never returns ErrInvalidPageURL. *)
Theorem Generate_hostless_url (url_Parse : string -> url.URL + error)
  (userAgent pageUrl : string) (u : url.URL) (maxTries : Z) :
  url_Parse pageUrl = inl u ->
  url.Scheme u <> EmptyString -> url.Host u = EmptyString -> 0 < maxTries ->
  let g := Generate url_Parse userAgent pageUrl someFunc someFunc maxTries in
  (forall tr res,
      runs g tr res ->
      res <> Returned (Some ErrInvalidPageURL) /\
      exists answer rest,
        tr = HttpCall OpGetPage pageUrl MethodGet None answer :: rest) /\
  (forall statusCode body,
      statusCode <> StatusOK ->
      runs g [HttpCall OpGetPage pageUrl MethodGet None (statusCode, body, None)]
           (Returned (Some (joinError [HttpOpError OpGetPage;
                                       BadStatusCodeError statusCode])))).
Proof.
  intros P Sc _ M. cbn zeta.
  assert (A : url.IsAbs u = true).
  { unfold url.IsAbs. apply negb_true_iff. now apply String.eqb_neq. }
  unfold Generate. cbn [isNil].
  replace (maxTries <=? 0) with false by (symmetry; apply Z.leb_gt; lia).
  rewrite P, A. cbn [negb].
  split.
  - intros tr res (tr0 & o & E & H).
    cbn [bind trigger exec record] in E.
    destruct E as ([[st body] err] & tr' & -> & E).
    destruct err as [e|].
    + destruct E as [-> ->]. destruct H as [-> ->].
      split; [discriminate | now exists (st, body, Some e), []].
    + destruct (negb (st =? StatusOK)); destruct E as [-> ->].
      * destruct H as [-> ->].
        split; [discriminate | now exists (st, body, None), []].
      * destruct H as (tp & ts & ti & _ & _ & _ & -> & ->).
        split; [|now exists (st, body, None), ti].
        rewrite Join_Some. now destruct (collected ti).
  - intros statusCode body N.
    exists [HttpCall OpGetPage pageUrl MethodGet None (statusCode, body, None)],
      (Return (errors.Join [Some (HttpOpError OpGetPage);
                            Some (BadStatusCodeError statusCode)])).
    split; [|now split].
    cbn [bind trigger exec record].
    exists (statusCode, body, None), []. split; [reflexivity|].
    apply Z.eqb_neq in N. rewrite N. cbn. auto.
Qed.

(** The call on [file:///x], which url.Parse reads as the scheme file,
    an empty host and the path /x. *)
Lemma Generate_hostless_url_witness :
  runs (Generate (fun _ => inl (url.mk "file" EmptyString)) "Mozilla/5.0" "file:///x"
          someFunc someFunc 2)
       [HttpCall OpGetPage "file:///x" MethodGet None (403, "denied", None)]
       (Returned (Some (joinError [HttpOpError OpGetPage; BadStatusCodeError 403]))).
Proof.
  apply (Generate_hostless_url (fun _ => inl (url.mk "file" EmptyString)) "Mozilla/5.0"
           "file:///x" (url.mk "file" EmptyString) 2);
    [reflexivity | discriminate | reflexivity | lia | discriminate].
Defined.
